(** * pandera/schema_model.py: from a SchemaModel class to a DataFrameSchema

    A shallow embedding of [pandera.schema_model]: the field constructor
    [Field], the descriptor [FieldInfo], the [validator] decorator, the
    annotation collector and the schema compiler [SchemaModel.to_schema].

    Python objects that the module mutates or compares by identity (the
    [__annotations__] dicts, the class [__dict__]s, the compiled schema
    objects) live in an explicit store; everything else is a value. *)

From Stdlib Require Import String Ascii List Bool Arith ZArith Lia.
From stdpp Require Import base option gmap strings list.

Set Warnings "-register-all,-at-level-200-changed".

Local Open Scope string_scope.
Local Open Scope list_scope.

(** ** Insertion-ordered dictionaries

    A Python [dict] keeps its keys in insertion order, and the order of
    [__annotations__] is the order of the produced columns and indexes, so
    these dictionaries are association lists with unique keys. *)

Module OrderedDict.

Definition dict (V : Type) := list (string * V).

Fixpoint get {V} (k : string) (d : dict V) : option V :=
  match d with
  | [] => None
  | (k', v) :: d' => if String.eqb k k' then Some v else get k d'
  end.

Definition mem {V} (k : string) (d : dict V) : bool :=
  match get k d with Some _ => true | None => false end.

(** [d[k] = v]: an existing key keeps its position. *)
Fixpoint set {V} (k : string) (v : V) (d : dict V) : dict V :=
  match d with
  | [] => [(k, v)]
  | (k', v') :: d' =>
      if String.eqb k k' then (k', v) :: d' else (k', v') :: set k v d'
  end.

(** [d.pop(k, None)], result discarded. *)
Fixpoint pop {V} (k : string) (d : dict V) : dict V :=
  match d with
  | [] => []
  | (k', v') :: d' =>
      if String.eqb k k' then d' else (k', v') :: pop k d'
  end.

(** [d.update(other)] *)
Definition update {V} (d other : dict V) : dict V :=
  fold_left (fun acc kv => set (fst kv) (snd kv) acc) other d.

Definition keys {V} (d : dict V) : list string := map fst d.

Definition is_empty {V} (d : dict V) : bool :=
  match d with [] => true | _ => false end.

End OrderedDict.

Import OrderedDict.

(** ** Exceptions and the two effect shapes *)

(** The payload of a [SchemaInitError], one constructor per raise site. *)
Inductive init_error :=
| NotAnnotated (cls_name : string)
    (* f"{cls.__name__} is not annotated." *)
| NonExistingField (fn_name field : string)
    (* f"Validator {fn.__name__} is assigned to a non-existing field '{field}'." *)
| NotAField (field_name value_class : string)
    (* f"'{field_name}' can only be assigned a 'Field', not a '{field.__class__}.'" *)
| IndexOptional (field_name : string)
    (* f"Index '{field_name}' cannot be Optional." *)
| InvalidAnnotation (field_name : string).
    (* f"Invalid annotation for {field_name}. {annotation} should be of type Series or Index." *)

Inductive exn :=
| SchemaInitError (e : init_error)
| IndexError                      (* get_args(annotation)[0] on an empty tuple *)
| AttributeError (name : string)  (* attribute lookup that finds nothing *)
| TypeError                       (* a bad ** unpacking in Field *)
| ReError (pattern : string).     (* re.compile on a malformed pattern *)

Definition is_declaration_error (e : exn) : bool :=
  match e with SchemaInitError _ => true | _ => false end.

(** Pure code that may raise. *)
Definition result (A : Type) : Type := exn + A.

Definition rbind {A B} (m : result A) (k : A -> result B) : result B :=
  match m with inl e => inl e | inr a => k a end.

Notation "'try' x <- m ; k" := (rbind m (fun x => k))
  (at level 200, x pattern, m at level 100, k at level 200,
   right associativity, only parsing).

(** A [for] loop whose body may raise: the first exception ends the loop. *)
Fixpoint for_each {A B} (body : A -> B -> result A) (acc : A) (l : list B)
  : result A :=
  match l with
  | [] => inr acc
  | x :: l' => try acc' <- body acc x; for_each body acc' l'
  end.

(** ** Type annotations and the typing_inspect helpers *)

Inductive origin := OSeries | OIndex | OOther (name : string).

(** The objects that can stand in a class annotation, or as a type
    argument. [TOptional a] is [Optional[a]], that is [Union[a, None]]. *)
Inductive annotation :=
| TName (name : string)            (* an unsubscripted object: int, str, Series *)
| TStr (s : string)                (* a plain string *)
| TForwardRef (arg : string)       (* ForwardRef('int32') *)
| TGeneric (o : origin) (args : list annotation)   (* o[args] *)
| TOptional (a : annotation).

(** Modelled from the spec: typing_inspect is not part of the repository; a
    declared type is a row-container or index-container shape with an
    element type, possibly wrapped in the optionality marker, and
    [is_optional_type], [get_args], [get_origin] and [get_forward_arg] read
    that shape. *)
Definition is_optional_type (tp : annotation) : bool :=
  match tp with TOptional _ => true | _ => false end.

Definition get_args (tp : annotation) : list annotation :=
  match tp with
  | TGeneric _ args => args
  | TOptional a => [a; TName "NoneType"]
  | _ => []
  end.

Definition get_origin (tp : annotation) : option origin :=
  match tp with
  | TGeneric o _ => Some o
  | TOptional _ => Some (OOther "Union")
  | _ => None
  end.

Definition get_forward_arg (tp : annotation) : option string :=
  match tp with TForwardRef s => Some s | _ => None end.

Definition get_first_arg (tp : annotation) : result annotation :=
  match get_args tp with
  | [] => inl IndexError
  | arg :: _ =>
      match get_forward_arg arg with
      | Some fwd => inr (TStr fwd)
      | None => inr arg
      end
  end.

(** The annotations [Series[dtype]] and [Index[dtype]]. *)
Definition Series_ (dtype : annotation) : annotation := TGeneric OSeries [dtype].
Definition Index_ (dtype : annotation) : annotation := TGeneric OIndex [dtype].

(** ** Checks *)

(** Argument values of [Field] and of the check factories. *)
Inductive pyobj :=
| PyInt (n : Z)
| PyBool (b : bool)
| PyStr (s : string)
| PyList (l : list pyobj)
| PyDict (items : list (string * pyobj)).

Inductive check_factory :=
| equal_to | not_equal_to | greater_than | greater_than_or_equal_to
| less_than | less_than_or_equal_to | in_range | isin | notin
| str_contains | str_endswith | str_matches | str_length | str_startswith.

(** The check library is opaque: a check is the call that built it. *)
Inductive Check :=
| FactoryCheck (factory : check_factory) (args : list pyobj)
               (kwargs : list (string * pyobj))
| FnCheck (check_fn : string) (kwargs : list (string * pyobj)).

(** ** The schema components, as the constructor calls that build them

    A keyword that a call does not pass is [None] here: its value is the
    constructor's own default. *)

Module schema_components.

Record Column := {
  col_pandas_dtype : annotation;
  col_checks : list Check;
  col_nullable : option bool;
  col_allow_duplicates : option bool;
  col_coerce : option bool;
  col_regex : option bool;
  col_required : bool;
  col_name : string }.

(** [_name] is the attribute that [_build_schema_index] resets. *)
Record Index := {
  idx_pandas_dtype : annotation;
  idx_checks : list Check;
  idx_nullable : option bool;
  idx_allow_duplicates : option bool;
  idx_coerce : option bool;
  _name : option string }.

End schema_components.

Import schema_components.

Inductive SchemaIndex :=
| SingleIndex (index : schema_components.Index)
| MultiIndex (indexes : list schema_components.Index).

Record DataFrameSchema := {
  columns : dict Column;
  index : option SchemaIndex }.

(** ** FieldInfo *)

(** [Optional[CheckList]]: nothing, one check, or a list of checks. *)
Inductive CheckList :=
| NoChecks
| OneCheck (c : Check)
| Checks (l : list Check).

Definition _to_checklist (checks : CheckList) : list Check :=
  match checks with
  | NoChecks => []          (* None or [] *)
  | OneCheck c => [c]
  | Checks [] => []         (* [] or [] *)
  | Checks l => l
  end.

Record FieldInfo := {
  fi_checks : list Check;
  fi_nullable : bool;
  fi_allow_duplicates : bool;
  fi_coerce : bool;
  fi_regex : bool }.

Definition FieldInfo__init__ (checks : CheckList)
    (nullable allow_duplicates coerce regex : bool) : FieldInfo :=
  {| fi_checks := _to_checklist checks;
     fi_nullable := nullable;
     fi_allow_duplicates := allow_duplicates;
     fi_coerce := coerce;
     fi_regex := regex |}.

(** [component] is the constructor with the keyword arguments of [**kwargs]
    already applied. *)
Definition _to_schema_component {C : Type} (self : FieldInfo)
    (pandas_dtype : annotation)
    (component : annotation -> list Check -> C)
    (checks : CheckList) : C :=
  let checks := _to_checklist checks in
  component pandas_dtype (fi_checks self ++ checks).

Definition to_column (self : FieldInfo) (pandas_dtype : annotation)
    (checks : CheckList) (required : bool) (name : string) : Column :=
  _to_schema_component self pandas_dtype
    (fun dtype checks =>
       {| col_pandas_dtype := dtype;
          col_checks := checks;
          col_nullable := Some (fi_nullable self);
          col_allow_duplicates := Some (fi_allow_duplicates self);
          col_coerce := Some (fi_coerce self);
          col_regex := Some (fi_regex self);
          col_required := required;
          col_name := name |})
    checks.

Definition to_index (self : FieldInfo) (pandas_dtype : annotation)
    (checks : CheckList) (name : string) : schema_components.Index :=
  _to_schema_component self pandas_dtype
    (fun dtype checks =>
       {| idx_pandas_dtype := dtype;
          idx_checks := checks;
          idx_nullable := Some (fi_nullable self);
          idx_allow_duplicates := Some (fi_allow_duplicates self);
          idx_coerce := Some (fi_coerce self);
          _name := Some name |})
    checks.

(** [schema_components.Column(dtype, required=..., checks=..., name=...)] and
    [schema_components.Index(dtype, checks=..., name=...)], the calls made
    for a field without a descriptor. *)
Definition bare_Column (pandas_dtype : annotation) (checks : list Check)
    (required : bool) (name : string) : Column :=
  {| col_pandas_dtype := pandas_dtype;
     col_checks := checks;
     col_nullable := None;
     col_allow_duplicates := None;
     col_coerce := None;
     col_regex := None;
     col_required := required;
     col_name := name |}.

Definition bare_Index (pandas_dtype : annotation) (checks : list Check)
    (name : string) : schema_components.Index :=
  {| idx_pandas_dtype := pandas_dtype;
     idx_checks := checks;
     idx_nullable := None;
     idx_allow_duplicates := None;
     idx_coerce := None;
     _name := Some name |}.

(** ** The field constructor *)

Definition _check_dispatch : list (string * check_factory) :=
  [ ("eq", equal_to);
    ("neq", not_equal_to);
    ("gt", greater_than);
    ("ge", greater_than_or_equal_to);
    ("lt", less_than);
    ("le", less_than_or_equal_to);
    ("in_range", in_range);
    ("isin", isin);
    ("notin", notin);
    ("str_contains", str_contains);
    ("str_endswith", str_endswith);
    ("str_matches", str_matches);
    ("str_length", str_length);
    ("str_startswith", str_startswith) ].

(** The keyword arguments of [Field]; [None] is Python's [None]. *)
Record FieldArgs := {
  arg_eq : option pyobj;
  arg_neq : option pyobj;
  arg_gt : option pyobj;
  arg_ge : option pyobj;
  arg_lt : option pyobj;
  arg_le : option pyobj;
  arg_in_range : option pyobj;
  arg_isin : option pyobj;
  arg_notin : option pyobj;
  arg_str_contains : option pyobj;
  arg_str_endswith : option pyobj;
  arg_str_length : option pyobj;
  arg_str_matches : option pyobj;
  arg_str_startswith : option pyobj;
  arg_nullable : bool;
  arg_allow_duplicates : bool;
  arg_coerce : bool;
  arg_regex : bool;
  arg_ignore_na : bool;
  arg_raise_warning : bool;
  arg_n_failure_cases : Z }.

(** The defaults of the signature, with the three check options free. *)
Definition Field_defaults (ignore_na raise_warning : bool)
    (n_failure_cases : Z) : FieldArgs :=
  {| arg_eq := None; arg_neq := None; arg_gt := None; arg_ge := None;
     arg_lt := None; arg_le := None; arg_in_range := None;
     arg_isin := None; arg_notin := None; arg_str_contains := None;
     arg_str_endswith := None; arg_str_length := None;
     arg_str_matches := None; arg_str_startswith := None;
     arg_nullable := false;
     arg_allow_duplicates := true;
     arg_coerce := false;
     arg_regex := false;
     arg_ignore_na := ignore_na;
     arg_raise_warning := raise_warning;
     arg_n_failure_cases := n_failure_cases |}.

(** [locals()[arg_name]] for the names of the dispatch table. *)
Definition args_lookup (a : FieldArgs) (arg_name : string) : option pyobj :=
  if String.eqb arg_name "eq" then arg_eq a
  else if String.eqb arg_name "neq" then arg_neq a
  else if String.eqb arg_name "gt" then arg_gt a
  else if String.eqb arg_name "ge" then arg_ge a
  else if String.eqb arg_name "lt" then arg_lt a
  else if String.eqb arg_name "le" then arg_le a
  else if String.eqb arg_name "in_range" then arg_in_range a
  else if String.eqb arg_name "isin" then arg_isin a
  else if String.eqb arg_name "notin" then arg_notin a
  else if String.eqb arg_name "str_contains" then arg_str_contains a
  else if String.eqb arg_name "str_endswith" then arg_str_endswith a
  else if String.eqb arg_name "str_length" then arg_str_length a
  else if String.eqb arg_name "str_matches" then arg_str_matches a
  else if String.eqb arg_name "str_startswith" then arg_str_startswith a
  else None.

(** The call of [check_constructor] with [arg_value] and [check_kwargs] both
    unpacked as keywords: the value has to be a dict, and a key passed
    twice is a TypeError. *)
Definition call_with_dict (check_constructor : check_factory)
    (arg_value : pyobj) (check_kwargs : list (string * pyobj)) : result Check :=
  match arg_value with
  | PyDict items =>
      if existsb (fun k => mem k check_kwargs) (keys items)
      then inl TypeError
      else inr (FactoryCheck check_constructor [] (items ++ check_kwargs))
  | _ => inl TypeError
  end.

Definition Field (a : FieldArgs) : result FieldInfo :=
  let check_kwargs :=
    [ ("ignore_na", PyBool (arg_ignore_na a));
      ("raise_warning", PyBool (arg_raise_warning a));
      ("n_failure_cases", PyInt (arg_n_failure_cases a)) ] in
  try checks <-
    for_each
      (fun checks '(arg_name, check_constructor) =>
         match args_lookup a arg_name with
         | None => inr checks                                   (* continue *)
         | Some arg_value =>
             try check <-
               (if String.eqb arg_name "in_range"
                   || String.eqb arg_name "str_length"
                then call_with_dict check_constructor arg_value check_kwargs
                else inr (FactoryCheck check_constructor [arg_value]
                                       check_kwargs));
             inr (checks ++ [check])
         end)
      [] _check_dispatch;
  inr (FieldInfo__init__
         (match checks with [] => NoChecks | _ => Checks checks end)
         (arg_nullable a) (arg_allow_duplicates a) (arg_coerce a)
         (arg_regex a)).

(** ** Validator bindings *)

(** [_ValidatorConfig(fields, regex, check)]; [fields] is a Python set. *)
Record _ValidatorConfig := {
  vc_fields : gset string;
  vc_regex : bool;
  vc_check : Check }.

(** A plain function object: its [__name__] and what
    [getattr(fn, "__validator_config__", None)] finds, when that is a
    [_ValidatorConfig]. *)
Record function := {
  fn_name : string;
  fn_validator : option _ValidatorConfig }.

(** [validator( *fields, regex=regex, **check_kwargs)(check_fn)] *)
Definition validator (fields : list string) (regex : bool)
    (check_kwargs : list (string * pyobj)) (check_fn : function) : function :=
  let check := FnCheck (fn_name check_fn) check_kwargs in
  {| fn_name := fn_name check_fn;
     fn_validator :=
       Some {| vc_fields := list_to_set fields;
               vc_regex := regex;
               vc_check := check |} |}.

(** ** Classes and the store *)

Definition cid := nat.    (* the identity of a class *)
Definition addr := nat.   (* the identity of a dict or of a schema *)

(** What [getattr(cls, name)] can return. *)
Inductive value :=
| VNone
| VFieldInfo (f : FieldInfo)
| VFunction (f : function)           (* inspect.isfunction *)
| VRoutine (class_name : string)     (* bound methods, builtins, method descriptors *)
| VSchema (a : addr)                 (* a DataFrameSchema object *)
| VObject (class_name : string) (truth : bool).   (* anything else *)

Definition isfunction (v : value) : bool :=
  match v with VFunction _ => true | _ => false end.

Definition isroutine (v : value) : bool :=
  match v with VFunction _ | VRoutine _ => true | _ => false end.

(** [bool(v)]. Neither [FieldInfo] nor [DataFrameSchema] defines [__bool__]
    or [__len__], so their instances are true. The values are the objects
    that have a truth value: an object whose [__bool__] raises, as a
    pandas Series does, is not among them, and what the module does with
    such an attribute (the exception of [bool] leaves [to_schema]) is not
    covered. *)
Definition truthy (v : value) : bool :=
  match v with
  | VNone => false
  | VObject _ truth => truth
  | _ => true
  end.

Definition is_FieldInfo (v : value) : bool :=
  match v with VFieldInfo _ => true | _ => false end.

(** [repr(v.__class__)] *)
Definition class_of (v : value) : string :=
  match v with
  | VNone => "<class 'NoneType'>"
  | VFieldInfo _ => "<class 'pandera.schema_model.FieldInfo'>"
  | VFunction _ => "<class 'function'>"
  | VRoutine c => c
  | VSchema _ => "<class 'pandera.schemas.DataFrameSchema'>"
  | VObject c _ => c
  end.

(** The facts of a class that compilation only reads. [k_ancestors] is the
    method resolution order after the class itself, so [SchemaModel] and
    [object] are its last two entries. [k_annotations] is the dict object
    that [cls.__annotations__] evaluates to; two classes may hold the same
    one. *)
Record klass := {
  k_name : string;
  k_ancestors : list cid;
  k_annotations : addr }.

(** The store. [st_dict] holds the entries of each class [__dict__] that
    the class body made or that an assignment rebinds: attribute lookup
    reads them. [st_created] lists the classes whose [__dict__] has gained
    an [__annotations__] entry since, from an evaluation of
    [cls.__annotations__] (see [get__annotations__]). *)
Record state := {
  st_class : cid -> klass;
  st_dict : cid -> gmap string value;       (* the __dict__ of each class *)
  st_annotations : addr -> dict annotation; (* the annotation dicts *)
  st_schemas : list DataFrameSchema;        (* the schema objects, by address *)
  st_warnings : list (list string);         (* warnings.warn, one entry per call *)
  st_created : list cid }.                  (* __annotations__ made on demand *)

Definition getmro (s : state) (cls : cid) : list cid :=
  cls :: k_ancestors (st_class s cls).

(** Attribute lookup on a class: the first [__dict__] along the MRO. *)
Fixpoint mro_lookup (s : state) (mro : list cid) (name : string)
  : option value :=
  match mro with
  | [] => None
  | base :: mro' =>
      match st_dict s base !! name with
      | Some v => Some v
      | None => mro_lookup s mro' name
      end
  end.

Definition getattr (s : state) (cls : cid) (name : string) : option value :=
  mro_lookup s (getmro s cls) name.

Fixpoint insert_sorted (x : string) (l : list string) : list string :=
  match l with
  | [] => [x]
  | y :: l' => if String.leb x y then x :: l else y :: insert_sorted x l'
  end.

Definition sorted (l : list string) : list string :=
  fold_right insert_sorted [] l.

(** [dir(cls)]: the names of every [__dict__] along the MRO, sorted. *)
Definition dir (s : state) (cls : cid) : list string :=
  sorted (elements (⋃ (map (fun base => dom (st_dict s base)) (getmro s cls)))).

(** [inspect.getmembers(cls, predicate)] *)
Definition getmembers (s : state) (cls : cid) (predicate : value -> bool)
  : list (string * value) :=
  List.filter (fun m => predicate (snd m))
    (omap (fun key => match getattr s cls key with
                      | Some v => Some (key, v)
                      | None => None
                      end) (dir s cls)).

(** Code that reads and writes the store and may raise: the store after an
    exception is kept, since what was mutated before the raise stays
    mutated. *)
Definition M (A : Type) : Type := state -> result A * state.

Definition ret {A} (a : A) : M A := fun s => (inr a, s).
Definition raise {A} (e : exn) : M A := fun s => (inl e, s).
Definition bind {A B} (m : M A) (k : A -> M B) : M B :=
  fun s => match m s with
           | (inl e, s') => (inl e, s')
           | (inr a, s') => k a s'
           end.
Definition lift {A} (r : result A) : M A := fun s => (r, s).
Definition read {A} (f : state -> A) : M A := fun s => (inr (f s), s).
Definition write (f : state -> state) : M unit := fun s => (inr tt, f s).

Notation "'do' x <- m ; k" := (bind m (fun x => k))
  (at level 200, x pattern, m at level 100, k at level 200,
   right associativity, only parsing).

Fixpoint for_eachM {A B} (body : A -> B -> M A) (acc : A) (l : list B) : M A :=
  match l with
  | [] => ret acc
  | x :: l' => do acc' <- body acc x; for_eachM body acc' l'
  end.

Definition set_annotations (a : addr) (d : dict annotation) (s : state)
  : state :=
  {| st_class := st_class s;
     st_dict := st_dict s;
     st_annotations := fun a' => if Nat.eqb a' a then d else st_annotations s a';
     st_schemas := st_schemas s;
     st_warnings := st_warnings s;
     st_created := st_created s |}.

Definition warn (missing : list string) (s : state) : state :=
  {| st_class := st_class s;
     st_dict := st_dict s;
     st_annotations := st_annotations s;
     st_schemas := st_schemas s;
     st_warnings := st_warnings s ++ [missing];
     st_created := st_created s |}.

(** [cls.<name> = v] *)
Definition setattr (cls : cid) (name : string) (v : value) (s : state)
  : state :=
  {| st_class := st_class s;
     st_dict := fun c => if Nat.eqb c cls then <[name := v]> (st_dict s c)
                         else st_dict s c;
     st_annotations := st_annotations s;
     st_schemas := st_schemas s;
     st_warnings := st_warnings s;
     st_created := st_created s |}.

(** A new [DataFrameSchema] object; its address is returned. *)
Definition new_schema (schema : DataFrameSchema) : M addr :=
  fun s =>
    (inr (length (st_schemas s)),
     {| st_class := st_class s;
        st_dict := st_dict s;
        st_annotations := st_annotations s;
        st_schemas := st_schemas s ++ [schema];
        st_warnings := st_warnings s;
        st_created := st_created s |}).

(** ** The annotation collector *)

(** The loop of [_get_field_annotations] over the non-routine members. *)
Definition scan_members (members : list (string * value))
    (annotations : dict annotation) : dict annotation * list string :=
  fold_left
    (fun '(annotations, missing) '(attr_name, _) =>
       if String.prefix "_" attr_name          (* ignore protected attributes *)
       then (pop attr_name annotations, missing)
       else if negb (mem attr_name annotations)
       then (annotations, missing ++ [attr_name])
       else (annotations, missing))
    members (annotations, []).

(** Whether the [__dict__] of a class holds an [__annotations__] entry. *)
Definition has__annotations__ (s : state) (cls : cid) : bool :=
  bool_decide (is_Some (st_dict s cls !! "__annotations__"))
  || bool_decide (cls ∈ st_created s).

(** [cls.__annotations__]. The class record names the dict that the
    expression evaluates to. From Python 3.10 on the expression also
    writes: [type.__annotations__] gives a class whose [__dict__] holds no
    [__annotations__] a new dict and stores it there. That dict is empty,
    so [_get_field_annotations] raises right after. Earlier versions look
    the attribute up along the MRO instead, create nothing and find the
    dict of an ancestor: [k_annotations] of such a class is that dict, and
    the entry recorded here is then one too many. *)
Definition get__annotations__ (cls : cid) : M addr :=
  fun s =>
    (inr (k_annotations (st_class s cls)),
     {| st_class := st_class s;
        st_dict := st_dict s;
        st_annotations := st_annotations s;
        st_schemas := st_schemas s;
        st_warnings := st_warnings s;
        st_created := if has__annotations__ s cls then st_created s
                      else st_created s ++ [cls] |}).

(** The store after the evaluation of [cls.__annotations__]. *)
Definition evaluated (cls : cid) (s : state) : state :=
  snd (get__annotations__ cls s).

(** Returns the dict object itself, the one held by the class. *)
Definition _get_field_annotations (cls : cid) : M addr :=
  do annotations <- get__annotations__ cls;
  do content <- read (fun s => st_annotations s annotations);
  if is_empty content
  then do name <- read (fun s => k_name (st_class s cls));
       raise (SchemaInitError (NotAnnotated name))
  else
    do members <- read (fun s => getmembers s cls (fun x => negb (isroutine x)));
    let '(content', missing) := scan_members members content in
    do _ <- write (set_annotations annotations content');
    do _ <- (match missing with
             | [] => ret tt
             | _ => write (warn missing)
             end);
    ret annotations.

Definition _inherit_field_annotations (cls : cid) : M (dict annotation) :=
  do mro <- read (fun s => getmro s cls);
  let bases := take (length mro - 2) mro in     (* bases -> SchemaModel -> object *)
  for_eachM
    (fun annotations base =>
       do base_annotations <- _get_field_annotations base;
       do content <- read (fun s => st_annotations s base_annotations);
       ret (update annotations content))
    [] (rev bases).

(** ** Index composition *)

(** [index._name = name] *)
Definition set__name (index : schema_components.Index) (name : option string)
  : schema_components.Index :=
  {| idx_pandas_dtype := idx_pandas_dtype index;
     idx_checks := idx_checks index;
     idx_nullable := idx_nullable index;
     idx_allow_duplicates := idx_allow_duplicates index;
     idx_coerce := idx_coerce index;
     _name := name |}.

Definition _build_schema_index (indexes : list schema_components.Index)
  : option SchemaIndex :=
  match indexes with
  | [] => None
  | [index] =>
      let index := set__name index None in  (* don't force name on single index *)
      Some (SingleIndex index)
  | _ => Some (MultiIndex indexes)
  end.

(** ** The schema compiler *)

Section Compiler.

(** Python's [re] module: [re_compile regex] is [None] when
    [re.compile(regex)] raises, and otherwise the compiled pattern's
    [match], as the truth value of what it returns. *)
Variable re_compile : string -> option (string -> bool).

(** Filter items matching at least one of the regexes. *)
Definition _regex_filter (seq : list string) (regexps : list string)
  : result (gset string) :=
  for_each
    (fun (matched : gset string) regex =>
       match re_compile regex with
       | None => inl (ReError regex)
       | Some pattern_match =>
           inr (matched ∪ list_to_set (List.filter pattern_match seq))
       end)
    ∅ regexps.

(** [getattr(fn, _VALIDATOR_KEY, None)], kept when it is a
    [_ValidatorConfig]. *)
Definition field_validator_of (fn : value) : option _ValidatorConfig :=
  match fn with
  | VFunction f => fn_validator f
  | _ => None
  end.

Definition name_of (fn : value) : string :=
  match fn with
  | VFunction f => fn_name f
  | _ => ""
  end.

(** Extract validator from function and append it to the checks list.
    A set is walked in the order of [elements]. *)
Definition _update_checks (checks : gmap string (list Check)) (fn : value)
    (fields : list string) : result (gmap string (list Check)) :=
  match field_validator_of fn with
  | Some field_validator =>
      try matched <-
        (if vc_regex field_validator
         then _regex_filter fields (elements (vc_fields field_validator))
         else inr (vc_fields field_validator));
      for_each
        (fun (checks : gmap string (list Check)) field =>
           if negb (bool_decide (field ∈ fields))
           then inl (SchemaInitError (NonExistingField (name_of fn) field))
           else
             let checks :=
               match checks !! field with
               | None => <[field := []]> checks
               | Some _ => checks
               end in
             inr (<[field := default [] (checks !! field)
                               ++ [vc_check field_validator]]> checks))
        checks (elements matched)
  | None => inr checks
  end.

(** One turn of the loop of [_build_columns_index]. *)
Definition build_field (s : state) (cls : cid)
    (checks : gmap string (list Check))
    (acc : dict Column * list schema_components.Index)
    (item : string * annotation)
  : result (dict Column * list schema_components.Index) :=
  let '(columns, indexes) := acc in
  let '(field_name, annotation) := item in
  let optional := is_optional_type annotation in
  try annotation <-
    (if optional
     then get_first_arg annotation   (* Series[int] from Optional[Series[int]] *)
     else inr annotation);
  let schema_component := get_origin annotation in
  try dtype <- get_first_arg annotation;
  let field := default VNone (getattr s cls field_name) in
  if truthy field && negb (is_FieldInfo field)
  then inl (SchemaInitError (NotAField field_name (class_of field)))
  else
    let field_checks := default [] (checks !! field_name) in
    match schema_component with
    | Some OSeries =>
        let col_constructor :=
          match field with
          | VFieldInfo field =>
              fun dtype required checks name =>
                to_column field dtype (Checks checks) required name
          | _ =>
              fun dtype required checks name =>
                bare_Column dtype checks required name
          end in
        inr (set field_name
                 (col_constructor dtype (negb optional) field_checks
                                  field_name)
                 columns,
             indexes)
    | Some OIndex =>
        if optional
        then inl (SchemaInitError (IndexOptional field_name))
        else
          let index_constructor :=
            match field with
            | VFieldInfo field =>
                fun dtype checks name =>
                  to_index field dtype (Checks checks) name
            | _ => bare_Index
            end in
          inr (columns,
               indexes ++ [index_constructor dtype field_checks field_name])
    | _ => inl (SchemaInitError (InvalidAnnotation field_name))
    end.

Definition _build_columns_index (s : state) (cls : cid)
    (checks : gmap string (list Check)) (annotations : dict annotation)
  : result (dict Column * option SchemaIndex) :=
  try (columns, indexes) <-
    for_each (build_field s cls checks) ([], []) annotations;
  inr (columns, _build_schema_index indexes).

(** Create DataFrameSchema from the SchemaModel. *)
Definition to_schema (cls : cid) : M value :=
  do cached <- (fun s => match getattr s cls "__schema__" with
                         | Some v => (inr v, s)
                         | None => (inl (AttributeError "__schema__"), s)
                         end);
  if truthy cached then ret cached
  else
    do annotations <- _inherit_field_annotations cls;
    do members <- read (fun s => getmembers s cls isfunction);
    do checks <-
      lift (for_each
              (fun checks '(_, fn) =>
                 _update_checks checks fn (keys annotations))
              ∅ members);
    do (columns, index) <-
      (fun s => (_build_columns_index s cls checks annotations, s));
    do schema <- new_schema {| columns := columns; index := index |};
    do _ <- write (setattr cls "__schema__" (VSchema schema));
    (fun s => match getattr s cls "__schema__" with
              | Some v => (inr v, s)
              | None => (inl (AttributeError "__schema__"), s)
              end).

End Compiler.

(** ** A regular-expression engine for the examples *)

Module MiniRe.

Inductive re :=
| Empty                 (* matches nothing *)
| Eps                   (* matches the empty string *)
| Chr (c : ascii)       (* a literal character *)
| Dot                   (* any character but a newline *)
| Cat (r1 r2 : re)
| Alt (r1 r2 : re)
| Star (r : re).

Fixpoint nullable (r : re) : bool :=
  match r with
  | Empty | Chr _ | Dot => false
  | Eps | Star _ => true
  | Cat r1 r2 => nullable r1 && nullable r2
  | Alt r1 r2 => nullable r1 || nullable r2
  end.

Definition newline : ascii := ascii_of_nat 10.

(** What is left of [r] after reading [c]. *)
Fixpoint deriv (c : ascii) (r : re) : re :=
  match r with
  | Empty | Eps => Empty
  | Chr c' => if Ascii.eqb c c' then Eps else Empty
  | Dot => if Ascii.eqb c newline then Empty else Eps
  | Cat r1 r2 =>
      if nullable r1
      then Alt (Cat (deriv c r1) r2) (deriv c r2)
      else Cat (deriv c r1) r2
  | Alt r1 r2 => Alt (deriv c r1) (deriv c r2)
  | Star r' => Cat (deriv c r') (Star r')
  end.

(** [pattern.match(s)] finds a match when some prefix of [s] is in the
    language of the pattern. *)
Fixpoint match_ (r : re) (s : string) : bool :=
  nullable r ||
  match s with
  | EmptyString => false
  | String c s' => match_ (deriv c r) s'
  end.

Definition is_special (c : ascii) : bool :=
  existsb (Ascii.eqb c) (list_ascii_of_string "\^$*+?{}[]()|").

Definition atom (c : ascii) : re :=
  if Ascii.eqb c "."%char then Dot else Chr c.

(** Patterns made of literal characters and [.], each optionally
    followed by [*]. Anything else is left out of the fragment. *)
Fixpoint parse (pattern : string) : option re :=
  match pattern with
  | EmptyString => Some Eps
  | String c rest =>
      if is_special c then None
      else
        match rest with
        | String "*"%char rest' =>
            option_map (Cat (Star (atom c))) (parse rest')
        | _ => option_map (Cat (atom c)) (parse rest)
        end
  end.

(** Modelled from the spec: Python's [re] is outside the repository; the
    patterns of a regex binding are matched case-sensitively against a
    field name by prefix-anchored matching. [None] also stands for the
    patterns this fragment does not cover. *)
Definition compile (pattern : string) : option (string -> bool) :=
  option_map match_ (parse pattern).

End MiniRe.

(** ** Example class tables *)

Module Examples.

Definition object_ : cid := 0.
Definition SchemaModel : cid := 1.

Definition object_dict : gmap string value :=
  list_to_map
    [ ("__class__", VObject "<class 'type'>" true);
      ("__doc__", VObject "<class 'str'>" true);
      ("__eq__", VRoutine "<class 'wrapper_descriptor'>");
      ("__hash__", VRoutine "<class 'wrapper_descriptor'>");
      ("__init__", VRoutine "<class 'wrapper_descriptor'>");
      ("__repr__", VRoutine "<class 'wrapper_descriptor'>") ].

Definition SchemaModel_dict : gmap string value :=
  list_to_map
    [ ("__annotations__", VObject "<class 'dict'>" true);
      ("__dict__", VObject "<class 'mappingproxy'>" true);
      ("__doc__", VNone);
      ("__module__", VObject "<class 'str'>" true);
      ("__new__", VFunction {| fn_name := "__new__"; fn_validator := None |});
      ("__schema__", VNone);
      ("__weakref__", VObject "<class 'getset_descriptor'>" true);
      ("_build_columns_index", VRoutine "<class 'method'>");
      ("_inherit_field_annotations", VRoutine "<class 'method'>");
      ("to_schema", VRoutine "<class 'method'>") ].

(** What every class body adds to its [__dict__]; [__annotations__] only
    when the body annotates a name. *)
Definition class_dict (own : list (string * value)) (annotated : bool)
  : gmap string value :=
  list_to_map
    (own ++ (if annotated
             then [("__annotations__", VObject "<class 'dict'>" true)]
             else [])
         ++ [ ("__doc__", VNone);
              ("__module__", VObject "<class 'str'>" true) ]).

(** A user class: its name, its ancestors (ending in [SchemaModel] and
    [object]), the attributes of its body and its annotations. *)
Record class_def := {
  cd_name : string;
  cd_ancestors : list cid;
  cd_body : list (string * value);
  cd_annotations : dict annotation }.

(** The store in which [object] is class 0, [SchemaModel] class 1 and the
    i-th definition class [i + 2]; the annotation dict of a class has the
    address of the class. *)
Definition initial (defs : list class_def) : state :=
  {| st_class := fun c =>
       match c with
       | 0 => {| k_name := "object"; k_ancestors := []; k_annotations := 0 |}
       | 1 => {| k_name := "SchemaModel"; k_ancestors := [object_];
                 k_annotations := 1 |}
       | S (S i) =>
           match defs !! i with
           | Some d => {| k_name := cd_name d;
                          k_ancestors := cd_ancestors d;
                          k_annotations := c |}
           | None => {| k_name := ""; k_ancestors := []; k_annotations := c |}
           end
       end;
     st_dict := fun c =>
       match c with
       | 0 => object_dict
       | 1 => SchemaModel_dict
       | S (S i) =>
           match defs !! i with
           | Some d =>
               class_dict (cd_body d) (negb (is_empty (cd_annotations d)))
           | None => ∅
           end
       end;
     st_annotations := fun a =>
       match a with
       | 0 => []
       | 1 => [("__schema__", TOptional (TName "DataFrameSchema"))]
       | S (S i) =>
           match defs !! i with
           | Some d => cd_annotations d
           | None => []
           end
       end;
     st_schemas := [];
     st_warnings := [];
     st_created := [] |}.

Definition int := TName "int".
Definition str := TName "str".
Definition float := TName "float".

Definition plain (name : string) : function :=
  {| fn_name := name; fn_validator := None |}.

(** class Schema(SchemaModel):
      a: Series[int]
      b: Optional[Series[str]] *)
Definition two_columns : state :=
  initial
    [ {| cd_name := "Schema"; cd_ancestors := [SchemaModel; object_];
         cd_body := [];
         cd_annotations := [("a", Series_ int);
                            ("b", TOptional (Series_ str))] |} ].

(** class Schema(SchemaModel):
      idx: Index[int]
      val: Series[float] *)
Definition one_index : state :=
  initial
    [ {| cd_name := "Schema"; cd_ancestors := [SchemaModel; object_];
         cd_body := [];
         cd_annotations := [("idx", Index_ int);
                            ("val", Series_ float)] |} ].

Definition Schema : cid := 2.
Definition Base : cid := 2.
Definition Child : cid := 3.

(** class Schema(SchemaModel):
      a: Series[int]
      _tag: str = "x" *)
Definition protected_attribute : state :=
  initial
    [ {| cd_name := "Schema"; cd_ancestors := [SchemaModel; object_];
         cd_body := [("_tag", VObject "<class 'str'>" true)];
         cd_annotations := [("a", Series_ int); ("_tag", str)] |} ].

(** class Base(SchemaModel):
      a: Series[int]
    class Child(Base):
      a: Series[str] *)
Definition base_child : state :=
  initial
    [ {| cd_name := "Base"; cd_ancestors := [SchemaModel; object_];
         cd_body := [];
         cd_annotations := [("a", Series_ int)] |};
      {| cd_name := "Child"; cd_ancestors := [Base; SchemaModel; object_];
         cd_body := [];
         cd_annotations := [("a", Series_ str)] |} ].

(** class Schema(SchemaModel):
      a: Series[int] = 0 *)
Definition falsy_attribute : state :=
  initial
    [ {| cd_name := "Schema"; cd_ancestors := [SchemaModel; object_];
         cd_body := [("a", VObject "<class 'int'>" false)];
         cd_annotations := [("a", Series_ int)] |} ].

(** class Schema(SchemaModel):
      a: Series[int] = 1 *)
Definition truthy_attribute : state :=
  initial
    [ {| cd_name := "Schema"; cd_ancestors := [SchemaModel; object_];
         cd_body := [("a", VObject "<class 'int'>" true)];
         cd_annotations := [("a", Series_ int)] |} ].

(** A class whose [__annotations__] is an empty dict, under an annotated
    base. *)
Definition unannotated_child : state :=
  initial
    [ {| cd_name := "Base"; cd_ancestors := [SchemaModel; object_];
         cd_body := [];
         cd_annotations := [("a", Series_ int)] |};
      {| cd_name := "Child"; cd_ancestors := [Base; SchemaModel; object_];
         cd_body := [];
         cd_annotations := [] |} ].

(** class Schema(SchemaModel):
      a: Series[int]
      @validator("b")
      def check_b(cls, series): ... *)
Definition check_b : function := validator ["b"] false [] (plain "check_b").

Definition unknown_field : state :=
  initial
    [ {| cd_name := "Schema"; cd_ancestors := [SchemaModel; object_];
         cd_body := [("check_b", VFunction check_b)];
         cd_annotations := [("a", Series_ int)] |} ].

(** class Schema(SchemaModel):
      idx: Optional[Index[int]] *)
Definition optional_index : state :=
  initial
    [ {| cd_name := "Schema"; cd_ancestors := [SchemaModel; object_];
         cd_body := [];
         cd_annotations := [("idx", TOptional (Index_ int))] |} ].

Definition gt_0 : FieldInfo :=
  {| fi_checks :=
       [FactoryCheck greater_than [PyInt 0]
          [("ignore_na", PyBool true); ("raise_warning", PyBool false);
           ("n_failure_cases", PyInt 10)]];
     fi_nullable := true;
     fi_allow_duplicates := true;
     fi_coerce := false;
     fi_regex := false |}.

Definition check_all : function :=
  validator ["a"; "i.*"] true [] (plain "check_all").

(** class Schema(SchemaModel):
      a: Series[int] = Field(gt=0, nullable=True)
      i1: Index[int] = Field(gt=0, nullable=True)
      i2: Index[str]
      @validator("a", "i.*", regex=True)
      def check_all(cls, series): ... *)
Definition described_fields : state :=
  initial
    [ {| cd_name := "Schema"; cd_ancestors := [SchemaModel; object_];
         cd_body := [("a", VFieldInfo gt_0); ("i1", VFieldInfo gt_0);
                     ("check_all", VFunction check_all)];
         cd_annotations := [("a", Series_ int); ("i1", Index_ int);
                            ("i2", Index_ str)] |} ].

End Examples.

(** ** Vocabulary of the statements *)

(** The checks of the descriptor bound to a field name, if there is one. *)
Definition descriptor_checks (s : state) (cls : cid) (name : string)
  : list Check :=
  match getattr s cls name with
  | Some (VFieldInfo field) => fi_checks field
  | _ => []
  end.

(** The checks that validators have stacked on a field name. *)
Definition validator_checks (checks : gmap string (list Check))
    (name : string) : list Check :=
  default [] (checks !! name).

Definition is_index_kind (a : annotation) : bool :=
  match a with TGeneric OIndex _ => true | _ => false end.

Definition is_row_kind (a : annotation) : bool :=
  match a with TGeneric OSeries _ => true | _ => false end.

(** The names annotated as an index, in the order of the annotations. *)
Definition index_names (annotations : dict annotation) : list string :=
  map fst (List.filter (fun item => is_index_kind (snd item)) annotations).

(** The classes whose annotations [_inherit_field_annotations] collects,
    most derived first. *)
Definition bases_of (s : state) (cls : cid) : list cid :=
  take (length (getmro s cls) - 2) (getmro s cls).

(** An attribute that [_build_columns_index] accepts next to an
    annotation: none, a false value, or a descriptor. *)
Definition acceptable_attribute (s : state) (cls : cid) (name : string)
  : bool :=
  match getattr s cls name with
  | None => true
  | Some v => negb (truthy v) || is_FieldInfo v
  end.

(** What compilation may do to the store before it caches the schema:
    entries leave annotation dicts, entries whose name does not start with
    an underscore stay, warnings are emitted, and nothing else moves. *)
Definition pops_only (s s' : state) : Prop :=
  st_class s' = st_class s
  ∧ st_dict s' = st_dict s
  ∧ st_schemas s' = st_schemas s
  ∧ ∀ a, sublist (st_annotations s' a) (st_annotations s a)
         ∧ ∀ name, String.prefix "_" name = false →
                   get name (st_annotations s' a)
                   = get name (st_annotations s a).

(** The store after [new_schema]. *)
Definition with_schema (schema : DataFrameSchema) (s : state) : state :=
  snd (new_schema schema s).

(** A compilation of [cls] that starts in [s]: nothing true is found under
    [__schema__], the collector returns [annotations] and leaves the store
    [s1], the validators stack [checks], and the columns and the index of
    [schema] are built from them. *)
Definition compiles (re_compile : string -> option (string -> bool))
    (cls : cid) (s : state) (annotations : dict annotation) (s1 : state)
    (checks : gmap string (list Check)) (schema : DataFrameSchema) : Prop :=
  (∃ cached, getattr s cls "__schema__" = Some cached
             ∧ truthy cached = false)
  ∧ _inherit_field_annotations cls s = (inr annotations, s1)
  ∧ for_each (fun checks '(_, fn) =>
                _update_checks re_compile checks fn (keys annotations))
             ∅ (getmembers s1 cls isfunction) = inr checks
  ∧ _build_columns_index s1 cls checks annotations
    = inr (columns schema, index schema).

(** The annotation of a name in the first class of a list that has
    one. *)
Fixpoint first_declared (s : state) (classes : list cid) (name : string)
  : option annotation :=
  match classes with
  | [] => None
  | c :: classes' =>
      match get name (st_annotations s (k_annotations (st_class s c))) with
      | Some a => Some a
      | None => first_declared s classes' name
      end
  end.

(** Every annotation dict has one entry per key. *)
Definition well_formed (s : state) : Prop :=
  ∀ a, NoDup (keys (st_annotations s a)).

(** The names annotated as a column, in the order of the annotations. *)
Definition column_names (annotations : dict annotation) : list string :=
  map fst
    (List.filter (fun item => negb (is_index_kind (snd item))) annotations).

(** A type argument as a dtype: a forward reference stands for its
    string. *)
Definition as_dtype (arg : annotation) : annotation :=
  match arg with
  | TForwardRef s => TStr s
  | _ => arg
  end.

(** An annotation [o[dtype, ...]], bare or inside [Optional]; [Optional[a]]
    is [Union[a, None]], with [None] last. *)
Definition subscripted (a : annotation) : bool :=
  match a with
  | TGeneric _ (_ :: _) => true
  | TOptional (TGeneric _ (_ :: _)) => true
  | _ => false
  end.

(** The first type argument of the container of an annotation. *)
Definition first_argument (a : annotation) : option annotation :=
  match a with
  | TGeneric _ (arg :: _) => Some arg
  | TOptional (TGeneric _ (arg :: _)) => Some arg
  | _ => None
  end.

(** The field names that a binding resolves to among the known fields;
    a pattern that does not compile resolves to nothing. *)
Definition targets (re_compile : string -> option (string -> bool))
    (field_validator : _ValidatorConfig) (fields : list string)
  : gset string :=
  if vc_regex field_validator
  then match _regex_filter re_compile fields
               (elements (vc_fields field_validator)) with
       | inr matched => matched
       | inl _ => ∅
       end
  else vc_fields field_validator.

(** The check that a member of the class stacks on a field name, if it is
    a validator bound to it. *)
Definition contribution (re_compile : string -> option (string -> bool))
    (fields : list string) (name : string) (member : string * value)
  : list Check :=
  match field_validator_of (snd member) with
  | Some field_validator =>
      if bool_decide (name ∈ targets re_compile field_validator fields)
      then [vc_check field_validator]
      else []
  | None => []
  end.

(** The members that [_get_field_annotations] walks: the attributes of the
    class that are not routines. *)
Definition data_members (s : state) (cls : cid) : list (string * value) :=
  getmembers s cls (fun x => negb (isroutine x)).

(** A name that starts with an underscore and is bound to such a member. *)
Definition is_protected (s : state) (cls : cid) (name : string) : bool :=
  String.prefix "_" name
  && existsb (String.eqb name) (map fst (data_members s cls)).

(** The members that are neither protected nor annotated, by name. *)
Definition unannotated_members (s : state) (cls : cid) : list string :=
  map fst
    (List.filter
       (fun m => negb (String.prefix "_" (fst m))
                 && negb (mem (fst m)
                            (st_annotations s
                               (k_annotations (st_class s cls)))))
       (data_members s cls)).

(** The factory that made a check. *)
Definition made_by (c : Check) : option check_factory :=
  match c with
  | FactoryCheck factory _ _ => Some factory
  | FnCheck _ _ => None
  end.

Definition kwargs_of (c : Check) : list (string * pyobj) :=
  match c with
  | FactoryCheck _ _ kwargs => kwargs
  | FnCheck _ kwargs => kwargs
  end.

(** The entries of the dispatch table whose argument is not [None]. *)
Definition supplied (a : FieldArgs) : list (string * check_factory) :=
  List.filter
    (fun entry => match args_lookup a (fst entry) with
                  | Some _ => true
                  | None => false
                  end)
    _check_dispatch.

(** An argument that can be unpacked next to the check options: [None],
    or a dict with none of their three keys. *)
Definition unpackable (arg : option pyobj) : bool :=
  match arg with
  | None => true
  | Some (PyDict items) =>
      negb (existsb
              (fun k => existsb (String.eqb k)
                          ["ignore_na"; "raise_warning"; "n_failure_cases"])
              (keys items))
  | Some _ => false
  end.

(** Whether a class of [classes] holds the dict [a] and has [name] as a
    protected member: the names that [_get_field_annotations] removes
    from [a] when it visits these classes. *)
Definition popped (s : state) (classes : list cid) (a : addr)
    (name : string) : bool :=
  existsb (fun c => Nat.eqb (k_annotations (st_class s c)) a
                    && is_protected s c name)
          classes.

(** The index that the entry [name: Index[dtype]] produces: named after
    the field, of the dtype of the annotation, with the checks of the
    descriptor and then those of the validators, and with the flags of
    the descriptor, or none of them when the field has no descriptor. *)
Definition index_entry (s : state) (cls : cid)
    (checks : gmap string (list Check)) (i : schema_components.Index)
    (item : string * annotation) : Prop :=
  ∃ arg,
    first_argument (snd item) = Some arg
    ∧ _name i = Some (fst item)
    ∧ idx_pandas_dtype i = as_dtype arg
    ∧ idx_checks i
      = descriptor_checks s cls (fst item)
        ++ validator_checks checks (fst item)
    ∧ match getattr s cls (fst item) with
      | Some (VFieldInfo field) =>
          idx_nullable i = Some (fi_nullable field)
          ∧ idx_allow_duplicates i = Some (fi_allow_duplicates field)
          ∧ idx_coerce i = Some (fi_coerce field)
      | _ =>
          idx_nullable i = None
          ∧ idx_allow_duplicates i = None
          ∧ idx_coerce i = None
      end.

(** The indexes that a schema holds, in order. *)
Definition index_components (index : option SchemaIndex)
  : list schema_components.Index :=
  match index with
  | None => []
  | Some (SingleIndex i) => [i]
  | Some (MultiIndex indexes) => indexes
  end.

(** A member that stacks its check on the known fields without an
    exception: it is no validator, or the patterns of its regex binding
    all compile, or the names of its literal binding are all known. *)
Definition binds_well (re_compile : string -> option (string -> bool))
    (fields : list string) (fn : value) : Prop :=
  ∀ fv, field_validator_of fn = Some fv →
        if vc_regex fv
        then ∀ regex, regex ∈ vc_fields fv → is_Some (re_compile regex)
        else ∀ f, f ∈ vc_fields fv → f ∈ fields.

(** * Properties *)

(** ** Ordered dictionaries *)

Module OrderedDictFacts.

Lemma get_set_eq {V} k (v : V) d : get k (set k v d) = Some v.
Proof.
  induction d as [|[k' v'] d IH]; simpl.
  - by rewrite String.eqb_refl.
  - destruct (String.eqb k k') eqn:E; simpl; rewrite E; [done | apply IH].
Qed.

Lemma get_set_ne {V} k k' (v : V) d : k ≠ k' → get k (set k' v d) = get k d.
Proof.
  intros Hne. induction d as [|[k0 v0] d IH]; simpl.
  - destruct (String.eqb_spec k k'); [done | done].
  - destruct (String.eqb_spec k' k0) as [->|]; simpl.
    + destruct (String.eqb_spec k k0); [done | done].
    + destruct (String.eqb_spec k k0); [done | apply IH].
Qed.

Lemma get_pop_ne {V} k k' (d : dict V) : k ≠ k' → get k (pop k' d) = get k d.
Proof.
  intros Hne. induction d as [|[k0 v0] d IH]; simpl; [done|].
  destruct (String.eqb_spec k' k0) as [->|]; simpl.
  - destruct (String.eqb_spec k k0); [done | done].
  - destruct (String.eqb_spec k k0); [done | apply IH].
Qed.

Lemma keys_set {V} k (v : V) d :
  keys (set k v d) = if mem k d then keys d else keys d ++ [k].
Proof.
  unfold mem. induction d as [|[k' v'] d IH]; simpl; [done|].
  destruct (String.eqb_spec k k') as [->|]; simpl; [done|].
  rewrite IH. by destruct (get k d).
Qed.

Lemma mem_In_keys {V} k (d : dict V) : mem k d = true ↔ In k (keys d).
Proof.
  unfold mem. induction d as [|[k' v'] d IH]; simpl.
  - split; [discriminate | tauto].
  - destruct (String.eqb_spec k k') as [->|]; [tauto|].
    rewrite IH. split; [tauto | intros [?|?]; congruence].
Qed.

Lemma get_In {V} k (v : V) d : get k d = Some v → In (k, v) d.
Proof.
  induction d as [|[k' v'] d IH]; simpl; [discriminate|].
  destruct (String.eqb_spec k k') as [->|]; [intros [= ->]; tauto|].
  intros H. right. by apply IH.
Qed.

Lemma In_get {V} k (v : V) d :
  NoDup (keys d) → In (k, v) d → get k d = Some v.
Proof.
  induction d as [|[k' v'] d IH]; simpl; [tauto|].
  intros Hnd [[= -> ->]|Hin].
  - by rewrite String.eqb_refl.
  - inversion Hnd as [|? ? Hnotin Hnd']; subst.
    destruct (String.eqb_spec k k') as [->|]; [|by apply IH].
    exfalso. apply Hnotin, list_elem_of_In.
    change k' with (fst (k', v)). by apply in_map.
Qed.

Lemma NoDup_keys_set {V} k (v : V) d :
  NoDup (keys d) → NoDup (keys (set k v d)).
Proof.
  intros Hnd. rewrite keys_set. destruct (mem k d) eqn:E; [done|].
  apply NoDup_app. split; [done|].
  split; [|apply NoDup_singleton].
  intros x Hx Hx'. apply list_elem_of_In in Hx.
  apply list_elem_of_singleton in Hx' as ->.
  apply mem_In_keys in Hx. congruence.
Qed.

Lemma NoDup_keys_update {V} (d other : dict V) :
  NoDup (keys d) → NoDup (keys (update d other)).
Proof.
  unfold update. revert d.
  induction other as [|[k v] other IH]; intros d Hnd; simpl; [done|].
  apply IH. by apply NoDup_keys_set.
Qed.

(** After [d.update(other)], a key of [other] has the value [other]
    gives it, and any other key keeps its value. *)
Lemma get_update {V} k (d other : dict V) :
  NoDup (keys other) →
  get k (update d other) =
    match get k other with Some v => Some v | None => get k d end.
Proof.
  unfold update. revert d.
  induction other as [|[k' v'] other IH]; intros d Hnd; simpl; [done|].
  inversion Hnd as [|? ? Hnotin Hnd']; subst.
  rewrite IH by done.
  destruct (String.eqb_spec k k') as [->|Hne].
  - destruct (get k' other) eqn:E.
    + exfalso. apply Hnotin, list_elem_of_In. apply get_In in E.
      change k' with (fst (k', v)). by apply in_map.
    + apply get_set_eq.
  - destruct (get k other); [done|]. by apply get_set_ne.
Qed.

End OrderedDictFacts.

Import OrderedDictFacts.

(** ** The store *)

Lemma getattr_setattr_eq s cls name v :
  getattr (setattr cls name v s) cls name = Some v.
Proof.
  unfold getattr, getmro. simpl. rewrite Nat.eqb_refl.
  by rewrite lookup_insert_eq.
Qed.

(** Stepping through a computation in [M]. *)
Lemma bind_inr {A B} (m : M A) (k : A → M B) s b s' :
  bind m k s = (inr b, s') →
  ∃ a s1, m s = (inr a, s1) ∧ k a s1 = (inr b, s').
Proof.
  unfold bind. destruct (m s) as [[e|a] s1]; [discriminate|]. eauto.
Qed.

Lemma bind_inl {A B} (m : M A) (k : A → M B) s e s' :
  bind m k s = (inl e, s') →
  m s = (inl e, s') ∨ ∃ a s1, m s = (inr a, s1) ∧ k a s1 = (inl e, s').
Proof.
  unfold bind. destruct (m s) as [[e'|a] s1]; [intros [= -> ->]; by left|].
  eauto.
Qed.

Lemma bind_run {A B} (m : M A) (k : A → M B) s a s1 :
  m s = (inr a, s1) → bind m k s = k a s1.
Proof. unfold bind. by intros ->. Qed.

Lemma bind_fail {A B} (m : M A) (k : A → M B) s e s1 :
  m s = (inl e, s1) → bind m k s = (inl e, s1).
Proof. unfold bind. by intros ->. Qed.

Ltac step_bind H :=
  let a := fresh "a" in
  let s1 := fresh "s" in
  let E := fresh "E" in
  apply bind_inr in H as (a & s1 & E & H).

Tactic Notation "step" hyp(H) "as" ident(a) ident(s1) ident(E) :=
  apply bind_inr in H as (a & s1 & E & H).

(** ** The field constructor *)

(** C9: a call of [Field] with no constraint argument and the default
    policy flags raises nothing and returns a descriptor with an empty
    check list, [nullable = False], [allow_duplicates = True],
    [coerce = False] and [regex = False], whatever the three check
    options are. *)
Theorem Field_defaults_descriptor ignore_na raise_warning n_failure_cases :
  Field (Field_defaults ignore_na raise_warning n_failure_cases)
  = inr {| fi_checks := [];
           fi_nullable := false;
           fi_allow_duplicates := true;
           fi_coerce := false;
           fi_regex := false |}.
Proof. reflexivity. Qed.

Section CompilerFacts.

Variable re_compile : string -> option (string -> bool).

(** C1: when [to_schema] returns a schema for a class, a second call on
    that class returns the very same object and leaves the store as it
    is: nothing is collected, built or allocated again, because the class
    now finds that object under [__schema__]. *)
Theorem to_schema_twice cls s v s' :
  to_schema re_compile cls s = (inr v, s') →
  to_schema re_compile cls s' = (inr v, s')
  ∧ getattr s' cls "__schema__" = Some v
  ∧ truthy v = true.
Proof.
  intros H. unfold to_schema in H.
  unfold bind at 1 in H.
  destruct (getattr s cls "__schema__") as [cached|] eqn:Hc; [|discriminate].
  destruct (truthy cached) eqn:Ht.
  - injection H as <- <-.
    repeat split; try done.
    unfold to_schema, bind. by rewrite Hc, Ht.
  - do 4 step_bind H. destruct a2 as [columns index].
    do 2 step_bind H.
    unfold write in E4. injection E4 as _ <-.
    rewrite getattr_setattr_eq in H. injection H as <- <-.
    repeat split; try done.
    + unfold to_schema, bind.
      by rewrite getattr_setattr_eq.
    + apply getattr_setattr_eq.
Qed.

End CompilerFacts.

(** ** Loops that may raise *)

Lemma for_each_cons {A B} (body : A → B → result A) acc x l :
  for_each body acc (x :: l)
  = rbind (body acc x) (fun acc' => for_each body acc' l).
Proof. reflexivity. Qed.

Lemma for_each_app {A B} (body : A → B → result A) acc l1 l2 :
  for_each body acc (l1 ++ l2)
  = rbind (for_each body acc l1) (fun acc' => for_each body acc' l2).
Proof.
  revert acc. induction l1 as [|x l1 IH]; intros acc; simpl; [done|].
  destruct (body acc x); simpl; [done | apply IH].
Qed.

(** What held before the loop and is kept by every turn holds after it. *)
Lemma for_each_invariant {A B} (P : A → Prop) (body : A → B → result A)
    acc l r :
  P acc →
  (∀ a x a', In x l → P a → body a x = inr a' → P a') →
  for_each body acc l = inr r → P r.
Proof.
  revert acc. induction l as [|x l IH]; intros acc Hacc Hstep; simpl.
  - by intros [= <-].
  - destruct (body acc x) as [e|acc'] eqn:E; simpl; [discriminate|].
    apply IH.
    + eapply Hstep; [by left | exact Hacc | exact E].
    + intros a y a' Hy. apply Hstep. by right.
Qed.

(** A turn that raises whatever it is given makes the loop raise, at that
    turn or before. *)
Lemma for_each_raises {A B} (body : A → B → result A) acc l x :
  In x l →
  (∀ a, ∃ e, body a x = inl e) →
  ∃ e, for_each body acc l = inl e.
Proof.
  intros Hin Hx. revert acc.
  induction l as [|y l IH]; intros acc; simpl; [destruct Hin|].
  destruct (body acc y) as [e|acc'] eqn:E; simpl; [eauto|].
  destruct Hin as [->|Hin]; [|by apply IH].
  destruct (Hx acc) as [e He]. congruence.
Qed.

(** The exception of a loop is the exception of one of its turns. *)
Lemma for_each_inl {A B} (body : A → B → result A) acc l e :
  for_each body acc l = inl e →
  ∃ a x, In x l ∧ body a x = inl e.
Proof.
  revert acc. induction l as [|x l IH]; intros acc; [discriminate|].
  rewrite for_each_cons.
  destruct (body acc x) as [e'|acc'] eqn:E; cbn [rbind].
  - intros [= <-]. exists acc, x. split; [by left | done].
  - intros H. apply IH in H as (a & y & Hy & H).
    exists a, y. split; [by right | done].
Qed.

(** A loop whose turns all return returns. *)
Lemma for_each_returns {A B} (body : A → B → result A) acc l :
  (∀ a x, In x l → ∃ a', body a x = inr a') →
  ∃ r, for_each body acc l = inr r.
Proof.
  revert acc. induction l as [|x l IH]; intros acc Hok; [by eexists|].
  rewrite for_each_cons. destruct (Hok acc x) as [acc' ->]; [by left|].
  cbn [rbind]. apply IH. intros a y Hy. apply Hok. by right.
Qed.

(** When every turn can only raise a declaration error, so can the loop. *)
Lemma for_each_declaration_error {A B} (body : A → B → result A) acc l e :
  (∀ a x e, In x l → body a x = inl e → is_declaration_error e = true) →
  for_each body acc l = inl e → is_declaration_error e = true.
Proof.
  revert acc. induction l as [|x l IH]; intros acc Hstep; simpl; [done|].
  destruct (body acc x) as [e'|acc'] eqn:E; simpl.
  - intros [= <-]. eapply Hstep; [by left | exact E].
  - apply IH. intros a y e0 Hy. apply Hstep. by right.
Qed.

(** ** One annotation entry *)

Lemma _to_checklist_Checks l : _to_checklist (Checks l) = l.
Proof. by destruct l. Qed.

Section BuildFacts.

Variables (s : state) (cls : cid) (checks : gmap string (list Check)).

(** What a turn of the loop of [_build_columns_index] adds when it raises
    nothing: a column under the field name, or one more index. *)
Lemma build_field_inr cols idxs name ann cols' idxs' :
  build_field s cls checks (cols, idxs) (name, ann) = inr (cols', idxs') →
  (is_index_kind ann = false ∧ idxs' = idxs ∧
   ∃ col, cols' = set name col cols
          ∧ col_required col = negb (is_optional_type ann)
          ∧ col_name col = name
          ∧ col_checks col
            = descriptor_checks s cls name ++ validator_checks checks name)
  ∨ (is_index_kind ann = true ∧ cols' = cols ∧
     ∃ i, idxs' = idxs ++ [i]
          ∧ _name i = Some name
          ∧ idx_checks i
            = descriptor_checks s cls name ++ validator_checks checks name).
Proof.
  unfold build_field, descriptor_checks, validator_checks.
  destruct (is_optional_type ann) eqn:Hopt.
  - destruct ann as [| | | |inner]; try discriminate. simpl.
    destruct (get_first_arg (TOptional inner)) as [|ann'] eqn:E1;
      simpl; [discriminate|].
    destruct (get_first_arg ann') as [|dtype]; simpl; [discriminate|].
    destruct (getattr s cls name) as [field|]; simpl.
    + destruct (truthy field && negb (is_FieldInfo field)) eqn:Hf;
        [discriminate|].
      destruct (get_origin ann') as [[| |]|]; try discriminate.
      intros [= <- <-]. left. split_and!; try done.
      destruct field; simpl in *; try discriminate Hf;
        (eexists; split; [reflexivity|]);
        cbv [to_column to_index _to_schema_component];
        by rewrite ?_to_checklist_Checks.
    + destruct (get_origin ann') as [[| |]|]; try discriminate.
      intros [= <- <-]. left. split_and!; try done.
      eexists; split; [reflexivity|]; done.
  - simpl.
    destruct (get_first_arg ann) as [|dtype]; simpl; [discriminate|].
    destruct (truthy (default VNone (getattr s cls name))
              && negb (is_FieldInfo (default VNone (getattr s cls name))))
      eqn:Hf; [discriminate|].
    destruct ann as [| | |o args|inner]; try discriminate.
    destruct o as [| |other]; simpl; try discriminate.
    + intros [= <- <-]. left. split_and!; try done.
      destruct (getattr s cls name) as [[]|]; simpl in *;
        try discriminate Hf;
        (eexists; split; [reflexivity|]);
        cbv [to_column to_index _to_schema_component];
        by rewrite ?_to_checklist_Checks.
    + intros [= <- <-]. right. split_and!; try done.
      destruct (getattr s cls name) as [[]|]; simpl in *;
        try discriminate Hf;
        (eexists; split; [reflexivity|]);
        cbv [to_column to_index _to_schema_component];
        by rewrite ?_to_checklist_Checks.
Qed.

End BuildFacts.

(** ** The loop over the annotations *)

Section BuildLoopFacts.

Variables (s : state) (cls : cid) (checks : gmap string (list Check)).

(** The component built for a field carries the descriptor's checks
    first and the validators' checks after them. *)
Definition index_for (i : schema_components.Index) (name : string) : Prop :=
  _name i = Some name
  ∧ idx_checks i
    = descriptor_checks s cls name ++ validator_checks checks name.

Definition column_for (annotations : dict annotation) (name : string)
    (col : Column) : Prop :=
  ∃ ann, In (name, ann) annotations
         ∧ is_index_kind ann = false
         ∧ col_required col = negb (is_optional_type ann)
         ∧ col_name col = name
         ∧ col_checks col
           = descriptor_checks s cls name ++ validator_checks checks name.

Lemma get_set_is_Some {V} k k' (v : V) d :
  is_Some (get k d) → is_Some (get k (set k' v d)).
Proof.
  intros H. destruct (decide (k = k')) as [->|Hne].
  - rewrite get_set_eq. eauto.
  - by rewrite get_set_ne.
Qed.

Lemma build_loop_inr l cols idxs cols' idxs' :
  for_each (build_field s cls checks) (cols, idxs) l = inr (cols', idxs') →
  (∃ new, idxs' = idxs ++ new ∧ Forall2 index_for new (index_names l))
  ∧ (∀ name col, get name cols' = Some col →
       get name cols = Some col ∨ column_for l name col)
  ∧ (∀ name ann, In (name, ann) l → is_index_kind ann = false →
       is_Some (get name cols'))
  ∧ (∀ name, is_Some (get name cols) → is_Some (get name cols')).
Proof.
  revert cols idxs.
  induction l as [|[name ann] l IH]; intros cols idxs.
  - intros [= <- <-]. split_and!.
    + exists []. by rewrite app_nil_r.
    + by left.
    + simpl. tauto.
    + done.
  - rewrite for_each_cons.
    destruct (build_field s cls checks (cols, idxs) (name, ann))
      as [e|[cols1 idxs1]] eqn:E; simpl; [discriminate|].
    intros Hrest. apply IH in Hrest as ((new & -> & Hnew) & Hcols & Hpres & Hkeep).
    apply build_field_inr in E
      as [(Hkind & -> & col & -> & Hreq & Hname & Hchk)
         |(Hkind & -> & i & -> & Hiname & Hichk)].
    + unfold index_names in *. simpl. rewrite Hkind. split_and!.
      * eauto.
      * intros name' col' Hget. apply Hcols in Hget as [Hget|Hget].
        -- destruct (decide (name' = name)) as [->|Hne].
           ++ rewrite get_set_eq in Hget. injection Hget as <-.
              right. exists ann. split_and!; auto. by left.
           ++ rewrite get_set_ne in Hget by done. by left.
        -- right. destruct Hget as (ann' & Hin & Hrest).
           exists ann'. split; [by right | done].
      * intros name' ann' Hin Hk. simpl in Hin.
        destruct Hin as [[= <- <-]|Hin].
        -- apply Hkeep. rewrite get_set_eq. eauto.
        -- by eapply Hpres.
      * intros name' Hsome. apply Hkeep. by apply get_set_is_Some.
    + unfold index_names in *. simpl. rewrite Hkind. simpl. split_and!.
      * exists (i :: new). rewrite <- app_assoc. split; [done|].
        constructor; [by split | done].
      * intros name' col' Hget. apply Hcols in Hget as [Hget|Hget].
        -- by left.
        -- right. destruct Hget as (ann' & Hin & Hrest).
           exists ann'. split; [by right | done].
      * intros name' ann' Hin Hk. simpl in Hin.
        destruct Hin as [[= <- <-]|Hin]; [congruence|].
        by eapply Hpres.
      * done.
Qed.

(** The result of [_build_columns_index], when it raises nothing. *)
Lemma _build_columns_index_inr annotations columns index :
  _build_columns_index s cls checks annotations = inr (columns, index) →
  (∃ indexes, index = _build_schema_index indexes
              ∧ Forall2 index_for indexes (index_names annotations))
  ∧ (∀ name col, get name columns = Some col →
       column_for annotations name col)
  ∧ (∀ name ann, In (name, ann) annotations → is_index_kind ann = false →
       is_Some (get name columns)).
Proof.
  unfold _build_columns_index.
  destruct (for_each _ _ _) as [e|[cols idxs]] eqn:E; simpl; [discriminate|].
  intros [= <- <-].
  apply build_loop_inr in E as ((new & -> & Hnew) & Hcols & Hpres & _).
  split_and!.
  - by exists new.
  - intros name col Hget. by apply Hcols in Hget as [Hget|Hget].
  - done.
Qed.

End BuildLoopFacts.

(** ** The indexes that the loop produces *)

Section IndexFacts.

Variables (s : state) (cls : cid) (checks : gmap string (list Check)).

(** One turn that raises nothing adds the index of its entry, or no
    index. *)
Lemma build_field_index cols idxs name ann cols' idxs' :
  build_field s cls checks (cols, idxs) (name, ann) = inr (cols', idxs') →
  if is_index_kind ann
  then ∃ i, idxs' = idxs ++ [i] ∧ index_entry s cls checks i (name, ann)
  else idxs' = idxs.
Proof.
  unfold build_field, index_entry, descriptor_checks, validator_checks.
  cbn [fst snd].
  destruct (getattr s cls name) as [[| | | | |c []]|];
    (destruct ann as [| | |o [|arg args]|[| | |o [|arg args]|inner]];
     cbn; try discriminate);
    try (destruct inner; cbn; discriminate);
    destruct arg, o; cbn; try discriminate;
    intros [= <- <-]; try done;
    eexists; (split; [done|]); eexists; split_and!; try done;
    cbv [to_index _to_schema_component idx_checks];
    by rewrite _to_checklist_Checks.
Qed.

Lemma build_loop_indexes l cols idxs cols' idxs' :
  for_each (build_field s cls checks) (cols, idxs) l = inr (cols', idxs') →
  ∃ new, idxs' = idxs ++ new
         ∧ Forall2 (index_entry s cls checks) new
             (List.filter (fun item => is_index_kind (snd item)) l).
Proof.
  revert cols idxs.
  induction l as [|[name ann] l IH]; intros cols idxs.
  - intros [= <- <-]. exists []. split; [by rewrite app_nil_r | constructor].
  - rewrite for_each_cons.
    destruct (build_field s cls checks (cols, idxs) (name, ann))
      as [e|[cols1 idxs1]] eqn:E; [discriminate|]. cbn [rbind].
    intros Hrest. apply IH in Hrest as (new & -> & Hnew).
    apply build_field_index in E. simpl.
    destruct (is_index_kind ann).
    + destruct E as (i & -> & Hi). exists (i :: new).
      rewrite <- app_assoc. split; [done|]. by constructor.
    + subst idxs1. by exists new.
Qed.

(** The indexes of the result of [_build_columns_index]. *)
Lemma _build_columns_index_indexes annotations columns index :
  _build_columns_index s cls checks annotations = inr (columns, index) →
  ∃ indexes,
    index = _build_schema_index indexes
    ∧ Forall2 (index_entry s cls checks) indexes
        (List.filter (fun item => is_index_kind (snd item)) annotations).
Proof.
  unfold _build_columns_index.
  destruct (for_each _ _ _) as [e|[cols idxs]] eqn:E; [discriminate|].
  cbn [rbind]. intros [= <- <-].
  apply build_loop_indexes in E as (new & -> & Hnew). by exists new.
Qed.

End IndexFacts.

(** ** What the annotation collector does to the store *)

Lemma for_eachM_cons {A B} (body : A → B → M A) acc x l :
  for_eachM body acc (x :: l)
  = bind (body acc x) (fun acc' => for_eachM body acc' l).
Proof. reflexivity. Qed.

(** A relation between stores that every turn of a loop establishes, and
    that composes, relates the stores before and after the loop. *)
Lemma for_eachM_rel {A B} (R : state → state → Prop) (body : A → B → M A)
    acc l s r s' :
  (∀ s, R s s) →
  (∀ s1 s2 s3, R s1 s2 → R s2 s3 → R s1 s3) →
  (∀ a x s r s', In x l → body a x s = (r, s') → R s s') →
  for_eachM body acc l s = (r, s') → R s s'.
Proof.
  intros Hrefl Htrans. revert acc s.
  induction l as [|x l IH]; intros acc s Hbody.
  - intros [= <- <-]. apply Hrefl.
  - rewrite for_eachM_cons. unfold bind.
    destruct (body acc x s) as [[e|acc'] s1] eqn:E.
    + intros [= <- <-]. eapply Hbody; [by left | exact E].
    + intros Hrest. eapply Htrans.
      * eapply Hbody; [by left | exact E].
      * eapply IH; [|exact Hrest].
        intros a y s0 r0 s0' Hy. apply Hbody. by right.
Qed.

Lemma pops_only_refl s : pops_only s s.
Proof. unfold pops_only. split_and!; try done. Qed.

Lemma pops_only_trans s1 s2 s3 :
  pops_only s1 s2 → pops_only s2 s3 → pops_only s1 s3.
Proof.
  intros (Hc1 & Hd1 & Hs1 & Ha1) (Hc2 & Hd2 & Hs2 & Ha2).
  unfold pops_only. split_and!; try congruence.
  intros a. destruct (Ha1 a) as [Hsub1 Hget1], (Ha2 a) as [Hsub2 Hget2].
  split.
  - by etrans.
  - intros name Hname. rewrite Hget2, Hget1; done.
Qed.

Lemma sublist_pop {V} k (d : dict V) : sublist (pop k d) d.
Proof.
  induction d as [|[k' v'] d IH]; simpl; [done|].
  destruct (String.eqb k k').
  - by apply sublist_cons.
  - by apply sublist_skip.
Qed.

Lemma prefix_false_ne name attr_name :
  String.prefix "_" attr_name = true →
  String.prefix "_" name = false → name ≠ attr_name.
Proof. congruence. Qed.

(** The loop of [_get_field_annotations] only removes entries, and none
    whose name does not start with an underscore. *)
Lemma scan_members_spec members content content' missing :
  scan_members members content = (content', missing) →
  sublist content' content
  ∧ ∀ name, String.prefix "_" name = false →
            get name content' = get name content.
Proof.
  unfold scan_members. set (acc := (content, [])).
  change content with (fst acc). generalize acc. clear acc content.
  induction members as [|[attr_name v] members IH]; intros [content missing0].
  - simpl. by intros [= <- <-].
  - simpl. destruct (String.prefix "_" attr_name) eqn:Hp.
    + intros H. apply IH in H as [Hsub Hget]. simpl in *. split.
      * etrans; [exact Hsub | apply sublist_pop].
      * intros name Hname. rewrite Hget by done.
        apply get_pop_ne. by eapply prefix_false_ne.
    + destruct (negb (mem attr_name content)); intros H; by apply IH in H.
Qed.

Lemma pops_only_evaluated cls s : pops_only s (evaluated cls s).
Proof. unfold pops_only. simpl. split_and!; try done. Qed.

Lemma pops_only_getattr s s' cls name :
  pops_only s s' → getattr s' cls name = getattr s cls name.
Proof.
  intros (Hc & Hd & _). unfold getattr, getmro. rewrite Hc.
  generalize (cls :: k_ancestors (st_class s cls)) as mro.
  induction mro as [|base mro IH]; simpl; [done|].
  by rewrite Hd, IH.
Qed.

Lemma pops_only_getmembers s s' cls predicate :
  pops_only s s' → getmembers s' cls predicate = getmembers s cls predicate.
Proof.
  intros Hp. unfold getmembers, dir, getmro.
  assert (∀ name, getattr s' cls name = getattr s cls name) as Hget
    by (intros name; by apply pops_only_getattr).
  destruct Hp as (Hc & Hd & Hs & Ha). rewrite Hc, Hd.
  f_equal. generalize (sorted
    (elements (⋃ map (λ base, dom (st_dict s base))
                     (cls :: k_ancestors (st_class s cls))))) as names.
  induction names as [|name names IH]; [done|].
  cbn [omap list_omap]. by rewrite Hget, IH.
Qed.

(** The evaluation changes [st_created] only. *)
Lemma st_class_evaluated c s : st_class (evaluated c s) = st_class s.
Proof. reflexivity. Qed.

Lemma st_dict_evaluated c s : st_dict (evaluated c s) = st_dict s.
Proof. reflexivity. Qed.

Lemma st_annotations_evaluated c s :
  st_annotations (evaluated c s) = st_annotations s.
Proof. reflexivity. Qed.

Lemma st_schemas_evaluated c s : st_schemas (evaluated c s) = st_schemas s.
Proof. reflexivity. Qed.

Lemma st_warnings_evaluated c s :
  st_warnings (evaluated c s) = st_warnings s.
Proof. reflexivity. Qed.

Lemma getmembers_evaluated c s cls predicate :
  getmembers (evaluated c s) cls predicate = getmembers s cls predicate.
Proof. apply pops_only_getmembers, pops_only_evaluated. Qed.

Lemma getattr_evaluated c s cls name :
  getattr (evaluated c s) cls name = getattr s cls name.
Proof. apply pops_only_getattr, pops_only_evaluated. Qed.

Ltac simpl_evaluated :=
  cbv beta;
  rewrite ?st_class_evaluated, ?st_dict_evaluated, ?st_annotations_evaluated,
    ?st_schemas_evaluated, ?st_warnings_evaluated, ?getmembers_evaluated,
    ?getattr_evaluated.

Lemma get__annotations__run c s :
  get__annotations__ c s
  = (inr (k_annotations (st_class s c)), evaluated c s).
Proof. reflexivity. Qed.

Ltac unfold_collector :=
  unfold _get_field_annotations, bind, read, raise, write, ret;
  rewrite get__annotations__run;
  cbv beta iota; simpl_evaluated.

Lemma _get_field_annotations_pops cls s r s' :
  _get_field_annotations cls s = (r, s') → pops_only s s'.
Proof.
  intros H. apply (pops_only_trans _ (evaluated cls s));
    [apply pops_only_evaluated|].
  revert H. unfold_collector.
  destruct (is_empty _) eqn:Hempty.
  - intros [= <- <-]. apply pops_only_refl.
  - destruct (scan_members _ _) as [content' missing] eqn:Hscan.
    apply scan_members_spec in Hscan as [Hsub Hget].
    assert (pops_only (evaluated cls s)
              (set_annotations (k_annotations (st_class s cls)) content'
                 (evaluated cls s)))
      as Hpops.
    { unfold pops_only. simpl. split_and!; try done.
      intros a. destruct (Nat.eqb_spec a (k_annotations (st_class s cls)))
        as [->|Hne]; [done|]. split; done. }
    destruct missing; intros [= <- <-]; [done|].
    destruct Hpops as (Hc & Hd & Hs & Ha).
    unfold pops_only. simpl. split_and!; done.
Qed.

(** ** The [__annotations__] that evaluation creates *)

Lemma has__annotations__evaluated cls s :
  has__annotations__ (evaluated cls s) cls = true.
Proof.
  unfold has__annotations__ at 1. simpl.
  destruct (has__annotations__ s cls) eqn:Hhas.
  - exact Hhas.
  - apply orb_true_iff. right. apply bool_decide_eq_true.
    apply elem_of_app. right. by apply list_elem_of_singleton.
Qed.

(** A class that has its [__annotations__] is evaluated without a
    write. *)
Lemma evaluated_has cls s :
  has__annotations__ s cls = true → evaluated cls s = s.
Proof.
  intros Hhas. unfold evaluated, get__annotations__. simpl. rewrite Hhas.
  by destruct s.
Qed.

(** Whatever it returns, [_get_field_annotations] leaves the entries of
    every [__dict__] as they are, and creates at most the
    [__annotations__] of its class. *)
Lemma _get_field_annotations_created cls s r s' :
  _get_field_annotations cls s = (r, s') →
  st_dict s' = st_dict s
  ∧ st_created s' = st_created (evaluated cls s).
Proof.
  unfold_collector. destruct (is_empty _).
  - by intros [= <- <-].
  - simpl_evaluated. destruct (scan_members _ _) as [content' missing].
    by destruct missing; intros [= <- <-].
Qed.

Lemma _get_field_annotations_has cls s r s' :
  _get_field_annotations cls s = (r, s') → has__annotations__ s' cls = true.
Proof.
  intros H. apply _get_field_annotations_created in H as [Hd Hc].
  pose proof (has__annotations__evaluated cls s) as Hhas.
  unfold has__annotations__ in *. by rewrite Hd, Hc.
Qed.

Lemma _inherit_field_annotations_pops cls s r s' :
  _inherit_field_annotations cls s = (r, s') → pops_only s s'.
Proof.
  unfold _inherit_field_annotations. unfold bind at 1. unfold read at 1.
  apply for_eachM_rel.
  - apply pops_only_refl.
  - apply pops_only_trans.
  - intros a base s0 r0 s0' _. unfold bind at 1.
    destruct (_get_field_annotations base s0) as [[e|addr0] s1] eqn:E.
    + intros [= <- <-]. by eapply _get_field_annotations_pops.
    + unfold bind, read, ret. intros [= <- <-].
      by eapply _get_field_annotations_pops.
Qed.

(** ** The two ways in which [to_schema] returns *)

Section ToSchemaFacts.

Variable re_compile : string -> option (string -> bool).

(** Either the class finds a true value under [__schema__] and returns
    it, or it compiles, stores the new schema object under its own
    [__schema__] and returns that object. *)
Lemma to_schema_inr cls s v s' :
  to_schema re_compile cls s = (inr v, s') →
  (getattr s cls "__schema__" = Some v ∧ truthy v = true ∧ s' = s)
  ∨ (∃ annotations s1 checks schema,
       compiles re_compile cls s annotations s1 checks schema
       ∧ v = VSchema (length (st_schemas s1))
       ∧ s' = setattr cls "__schema__" v (with_schema schema s1)).
Proof.
  intros H. unfold to_schema in H. unfold bind at 1 in H.
  destruct (getattr s cls "__schema__") as [cached|] eqn:Hc; [|discriminate].
  destruct (truthy cached) eqn:Ht.
  - injection H as <- <-. by left.
  - right. step H as annotations s1 Hinh.
    step H as members s2 Hmem. injection Hmem as <- <-.
    step H as checks s2 Hchk. unfold lift in Hchk.
    injection Hchk as Hchk <-.
    step H as built s2 Hbuild. injection Hbuild as Hbuild <-.
    destruct built as [columns index].
    step H as schema s2 Hnew. step H as u s3 Hset.
    injection Hset as _ <-.
    rewrite getattr_setattr_eq in H. injection H as <- <-.
    unfold new_schema in Hnew. injection Hnew as <- <-.
    exists annotations, s1, checks, {| columns := columns; index := index |}.
    unfold compiles, with_schema. simpl.
    split_and!; eauto.
Qed.

(** A compilation that raises nothing makes [to_schema] return the new
    schema object. *)
Lemma compiles_to_schema cls s annotations s1 checks schema :
  compiles re_compile cls s annotations s1 checks schema →
  to_schema re_compile cls s
  = (inr (VSchema (length (st_schemas s1))),
     setattr cls "__schema__" (VSchema (length (st_schemas s1)))
             (with_schema schema s1)).
Proof.
  intros ((cached & Hc & Ht) & Hinh & Hchk & Hbuild).
  unfold to_schema. unfold bind at 1. rewrite Hc, Ht.
  rewrite (bind_run _ _ _ _ _ Hinh).
  unfold bind at 1, read at 1. unfold bind at 1, lift at 1. rewrite Hchk.
  unfold bind at 1. rewrite Hbuild. destruct schema as [columns index].
  simpl. unfold bind, new_schema, write, with_schema. simpl.
  by rewrite getattr_setattr_eq.
Qed.

End ToSchemaFacts.

(** ** Properties of the compiled schema *)

Lemma for_eachM_invariant {A B} (P : A → Prop) (body : A → B → M A)
    acc l s r s' :
  P acc →
  (∀ a x s a' s', P a → body a x s = (inr a', s') → P a') →
  for_eachM body acc l s = (inr r, s') → P r.
Proof.
  intros Hacc Hbody. revert acc s Hacc.
  induction l as [|x l IH]; intros acc s Hacc.
  - by intros [= <- <-].
  - rewrite for_eachM_cons. intros H. step H as acc' s1 E.
    eapply IH; [|exact H]. by eapply Hbody.
Qed.

(** The collected annotations have one entry per name. *)
Lemma _inherit_field_annotations_NoDup cls s annotations s' :
  _inherit_field_annotations cls s = (inr annotations, s') →
  NoDup (keys annotations).
Proof.
  unfold _inherit_field_annotations. unfold bind at 1, read at 1.
  apply (for_eachM_invariant (fun a => NoDup (keys a))).
  - constructor.
  - intros a base s0 a' s0' Ha H.
    step H as base_annotations s1 E. step H as content s2 E'.
    injection H as <- <-. by apply NoDup_keys_update.
Qed.

Section SchemaFacts.

Variable re_compile : string -> option (string -> bool).

(** A successful call that compiled: the object returned is the schema
    that the compilation built, at a new address. *)
Lemma to_schema_compiled cls s cached v s' :
  getattr s cls "__schema__" = Some cached →
  truthy cached = false →
  to_schema re_compile cls s = (inr v, s') →
  ∃ annotations s1 checks schema,
    compiles re_compile cls s annotations s1 checks schema
    ∧ v = VSchema (length (st_schemas s1))
    ∧ st_schemas s' !! length (st_schemas s1) = Some schema
    ∧ st_schemas s1 = st_schemas s.
Proof.
  intros Hc Ht H.
  apply to_schema_inr in H as [(Hc' & Ht' & _)|H]; [congruence|].
  destruct H as (annotations & s1 & checks & schema & Hcomp & -> & ->).
  exists annotations, s1, checks, schema. split_and!; try done.
  - unfold with_schema, new_schema. simpl.
    by rewrite lookup_app_r, Nat.sub_diag.
  - destruct Hcomp as (_ & Hinh & _).
    by apply _inherit_field_annotations_pops in Hinh as (_ & _ & ? & _).
Qed.

Lemma compiles_descriptor_checks cls s annotations s1 checks schema name :
  compiles re_compile cls s annotations s1 checks schema →
  descriptor_checks s1 cls name = descriptor_checks s cls name.
Proof.
  intros (_ & Hinh & _). apply _inherit_field_annotations_pops in Hinh.
  unfold descriptor_checks. by rewrite (pops_only_getattr _ _ _ _ Hinh).
Qed.

(** C4: in every successful compilation the index entries produced are
    those of the fields annotated as an index, one for each and in the
    order of the collected annotations, each named after its field and
    built from the annotation, the descriptor and the validators of that
    field. When there is none the schema has no index; when there is one
    the schema has that index, the same in every attribute but its name,
    which is [None]; and when there are more the schema has a MultiIndex
    of them in that order, names kept. *)
Theorem to_schema_index cls s cached v s' :
  getattr s cls "__schema__" = Some cached →
  truthy cached = false →
  to_schema re_compile cls s = (inr v, s') →
  ∃ a schema annotations s1 checks indexes,
    v = VSchema a
    ∧ st_schemas s' !! a = Some schema
    ∧ compiles re_compile cls s annotations s1 checks schema
    ∧ Forall2 (index_entry s cls checks) indexes
        (List.filter (fun item => is_index_kind (snd item)) annotations)
    ∧ map _name indexes = map Some (index_names annotations)
    ∧ match indexes with
      | [] => index schema = None
      | [i] =>
          ∃ i', index schema = Some (SingleIndex i')
                ∧ _name i' = None
                ∧ idx_pandas_dtype i' = idx_pandas_dtype i
                ∧ idx_checks i' = idx_checks i
                ∧ idx_nullable i' = idx_nullable i
                ∧ idx_allow_duplicates i' = idx_allow_duplicates i
                ∧ idx_coerce i' = idx_coerce i
      | _ => index schema = Some (MultiIndex indexes)
      end.
Proof.
  intros Hc Ht H.
  destruct (to_schema_compiled _ _ _ _ _ Hc Ht H)
    as (annotations & s1 & checks & schema & Hcomp & -> & Hschema & _).
  pose proof Hcomp as (_ & Hinh & _ & Hbuild).
  apply _build_columns_index_indexes in Hbuild as (indexes & Hidx & Hfor).
  assert (Forall2 (index_entry s cls checks) indexes
            (List.filter (fun item => is_index_kind (snd item)) annotations))
    as Hentries.
  { eapply Forall2_impl; [exact Hfor|].
    intros i item (arg & Harg & Hname & Hdtype & Hchecks & Hflags).
    exists arg. apply _inherit_field_annotations_pops in Hinh.
    unfold descriptor_checks in *.
    rewrite (pops_only_getattr _ _ _ _ Hinh) in Hchecks, Hflags.
    by split_and!. }
  exists (length (st_schemas s1)), schema, annotations, s1, checks, indexes.
  split_and!; try done.
  - clear Hidx Hfor. unfold index_names.
    induction Hentries as [|i item idxs items (arg & _ & Hn & _) _ IH];
      [done|].
    simpl. by rewrite Hn, IH.
  - rewrite Hidx. destruct indexes as [|i [|j rest]]; try done.
    exists (set__name i None). by split_and!.
Qed.

(** C10: in every successful compilation, each field that has a
    descriptor and is not annotated as an index has its column, each
    field annotated as an index has its index in the schema, at the
    place of the field among the index annotations, and the column or
    the index of a field with a descriptor carries the checks of the
    descriptor first, followed by the checks that the validators
    stacked on that field. *)
Theorem to_schema_checks_order cls s cached v s' :
  getattr s cls "__schema__" = Some cached →
  truthy cached = false →
  to_schema re_compile cls s = (inr v, s') →
  ∃ a schema annotations s1 checks,
    v = VSchema a
    ∧ st_schemas s' !! a = Some schema
    ∧ compiles re_compile cls s annotations s1 checks schema
    ∧ (∀ name ann field,
         In (name, ann) annotations →
         is_index_kind ann = false →
         getattr s cls name = Some (VFieldInfo field) →
         ∃ col, get name (columns schema) = Some col
                ∧ col_checks col
                  = fi_checks field ++ validator_checks checks name)
    ∧ Forall2
        (fun i item =>
           ∀ field,
             getattr s cls (fst item) = Some (VFieldInfo field) →
             idx_checks i
             = fi_checks field ++ validator_checks checks (fst item))
        (index_components (index schema))
        (List.filter (fun item => is_index_kind (snd item)) annotations).
Proof.
  intros Hc Ht H.
  destruct (to_schema_compiled _ _ _ _ _ Hc Ht H)
    as (annotations & s1 & checks & schema & Hcomp & -> & Hschema & _).
  pose proof Hcomp as (_ & Hinh & _ & Hbuild).
  pose proof Hbuild as Hbuild'.
  apply _build_columns_index_inr in Hbuild as (_ & Hcols & Hhas).
  apply _build_columns_index_indexes in Hbuild' as (indexes & Hidx & Hfor).
  exists (length (st_schemas s1)), schema, annotations, s1, checks.
  split_and!; try done.
  - intros name ann field Hin Hkind Hfield.
    destruct (Hhas name ann Hin Hkind) as [col Hget]. exists col.
    split; [done|].
    apply Hcols in Hget as (ann' & _ & _ & _ & _ & ->).
    rewrite (compiles_descriptor_checks _ _ _ _ _ _ _ Hcomp).
    unfold descriptor_checks. by rewrite Hfield.
  - assert (Forall2
              (fun i item =>
                 ∀ field,
                   getattr s cls (fst item) = Some (VFieldInfo field) →
                   idx_checks i
                   = fi_checks field ++ validator_checks checks (fst item))
              indexes
              (List.filter (fun item => is_index_kind (snd item))
                           annotations)) as Hchecks.
    { eapply Forall2_impl; [exact Hfor|].
      intros i item (arg & _ & _ & _ & -> & _) field Hfield.
      rewrite (compiles_descriptor_checks _ _ _ _ _ _ _ Hcomp).
      unfold descriptor_checks. by rewrite Hfield. }
    rewrite Hidx. destruct Hchecks as [|i item idxs items Hi Hrest]; [done|].
    destruct Hrest as [|j item' idxs items Hj Hrest]; simpl.
    + by repeat constructor.
    + by repeat constructor.
Qed.

End SchemaFacts.

(** ** Optional fields *)

Section OptionalFacts.

Variable re_compile : string -> option (string -> bool).

Lemma get_first_arg_cons o dtype args :
  ∃ arg, get_first_arg (TGeneric o (dtype :: args)) = inr arg.
Proof. unfold get_first_arg. simpl. destruct dtype; simpl; eauto. Qed.

(** The turn of an optional index raises a declaration error. *)
Lemma build_field_optional_index s cls checks acc name dtype args :
  ∃ e, build_field s cls checks acc
         (name, TOptional (TGeneric OIndex (dtype :: args)))
       = inl (SchemaInitError e).
Proof.
  destruct acc as [cols idxs]. unfold build_field.
  generalize (default VNone (getattr s cls name)) as attr. intros attr.
  destruct (truthy attr), (is_FieldInfo attr); destruct dtype; cbn; eauto.
Qed.

(** Whatever its type arguments, an optional index makes the loop
    raise. *)
Lemma build_field_optional_index_raises s cls checks acc name args :
  ∃ e, build_field s cls checks acc (name, TOptional (TGeneric OIndex args))
       = inl e.
Proof.
  destruct args as [|dtype args].
  - destruct acc as [cols idxs]. by eexists.
  - destruct (build_field_optional_index s cls checks acc name dtype args)
      as [e He]. eauto.
Qed.

(** The turn of a row-kind entry whose attribute is acceptable adds a
    column that is required exactly when the entry is not optional. *)
Lemma build_field_row s cls checks cols idxs name dtype args
    (optional : bool) :
  acceptable_attribute s cls name = true →
  ∃ col,
    build_field s cls checks (cols, idxs)
      (name, if optional then TOptional (TGeneric OSeries (dtype :: args))
             else TGeneric OSeries (dtype :: args))
    = inr (set name col cols, idxs)
    ∧ col_required col = negb optional.
Proof.
  unfold acceptable_attribute. intros Hok.
  unfold build_field.
  destruct (getattr s cls name) as [[| | | | |c []]|];
    cbn in Hok; try discriminate Hok;
    destruct optional, dtype; cbn;
    eexists; split; reflexivity.
Qed.

(** When the columns and the index cannot be built from the collected
    annotations, [to_schema] raises. *)
Lemma to_schema_build_raises cls s cached annotations s1 :
  getattr s cls "__schema__" = Some cached →
  truthy cached = false →
  _inherit_field_annotations cls s = (inr annotations, s1) →
  (∀ checks, ∃ e, _build_columns_index s1 cls checks annotations = inl e) →
  ∃ e, to_schema re_compile cls s = (inl e, s1).
Proof.
  intros Hc Ht Hinh Hbuild.
  unfold to_schema. unfold bind at 1. rewrite Hc, Ht.
  rewrite (bind_run _ _ _ _ _ Hinh).
  unfold bind at 1, read at 1. unfold bind at 1, lift at 1.
  destruct (for_each _ _ _) as [e|checks]; [eauto|].
  destruct (Hbuild checks) as [e He].
  unfold bind at 1. rewrite He. eauto.
Qed.

(** C3: the turn of an entry [Optional[Index[...]]] raises a declaration
    error, and a compilation whose collected annotations hold such an
    entry fails; the turn of an entry [Optional[Series[...]]] whose
    attribute is absent, false or a descriptor succeeds with a column
    that has [required = False], and that of [Series[...]] with
    [required = True]; and in every successful compilation each
    annotation that is not an index has its column, required exactly
    when the annotation is not optional. *)
Theorem optional_fields cls s :
  (∀ checks acc name dtype args,
     ∃ e, build_field s cls checks acc
            (name, TOptional (TGeneric OIndex (dtype :: args)))
          = inl (SchemaInitError e))
  ∧ (∀ cached annotations s1 name args,
       getattr s cls "__schema__" = Some cached →
       truthy cached = false →
       _inherit_field_annotations cls s = (inr annotations, s1) →
       In (name, TOptional (TGeneric OIndex args)) annotations →
       ∃ e s', to_schema re_compile cls s = (inl e, s'))
  ∧ (∀ checks cols idxs name dtype args (optional : bool),
       acceptable_attribute s cls name = true →
       ∃ col,
         build_field s cls checks (cols, idxs)
           (name,
            if optional then TOptional (TGeneric OSeries (dtype :: args))
            else TGeneric OSeries (dtype :: args))
         = inr (set name col cols, idxs)
         ∧ col_required col = negb optional)
  ∧ (∀ cached v s',
       getattr s cls "__schema__" = Some cached →
       truthy cached = false →
       to_schema re_compile cls s = (inr v, s') →
       ∃ a schema annotations s1,
         v = VSchema a
         ∧ st_schemas s' !! a = Some schema
         ∧ _inherit_field_annotations cls s = (inr annotations, s1)
         ∧ ∀ name ann,
             get name annotations = Some ann →
             is_index_kind ann = false →
             ∃ col, get name (columns schema) = Some col
                    ∧ col_required col = negb (is_optional_type ann)).
Proof.
  split_and!.
  - intros. apply build_field_optional_index.
  - intros cached annotations s1 name args Hc Ht Hinh Hin.
    destruct (to_schema_build_raises cls s cached annotations s1)
      as [e He]; eauto.
    intros checks. unfold _build_columns_index.
    destruct (for_each_raises (build_field s1 cls checks) ([], [])
                annotations _ Hin) as [e He].
    + intros acc. apply build_field_optional_index_raises.
    + rewrite He. eauto.
  - intros. by apply build_field_row.
  - intros cached v s' Hc Ht H.
    destruct (to_schema_compiled _ _ _ _ _ _ Hc Ht H)
      as (annotations & s1 & checks & schema & Hcomp & -> & Hschema & _).
    pose proof Hcomp as (_ & Hinh & _ & Hbuild).
    apply _build_columns_index_inr in Hbuild as (_ & Hcols & Hpres).
    exists (length (st_schemas s1)), schema, annotations, s1.
    split_and!; try done.
    intros name ann Hget Hkind.
    destruct (Hpres name ann (get_In _ _ _ Hget) Hkind) as [col Hcol].
    exists col. split; [done|].
    apply Hcols in Hcol as (ann' & Hin & _ & -> & _).
    apply _inherit_field_annotations_NoDup in Hinh.
    apply (In_get _ _ _ Hinh) in Hin. congruence.
Qed.

End OptionalFacts.

(** ** Classes without annotations *)

Lemma _get_field_annotations_empty base s :
  st_annotations s (k_annotations (st_class s base)) = [] →
  _get_field_annotations base s
  = (inl (SchemaInitError (NotAnnotated (k_name (st_class s base)))),
     evaluated base s).
Proof.
  intros Hempty. unfold_collector. by rewrite Hempty.
Qed.

(** The only exception that [_get_field_annotations] raises. *)
Lemma _get_field_annotations_inl base s e s' :
  _get_field_annotations base s = (inl e, s') →
  e = SchemaInitError (NotAnnotated (k_name (st_class s base)))
  ∧ s' = evaluated base s.
Proof.
  unfold_collector.
  destruct (is_empty _).
  - by intros [= <- <-].
  - destruct (scan_members _ _) as [content' missing].
    by destruct missing.
Qed.

Lemma sublist_nil_inv {A} (l : list A) : sublist l [] → l = [].
Proof. intros H. by apply sublist_nil_r in H. Qed.

(** The loop of [_inherit_field_annotations], started in a store that
    [s] became by removals only, and with a class ahead whose annotations
    were empty in [s]. *)
Lemma collect_loop_raises (s : state) (bases : list cid) base l acc s0 :
  pops_only s s0 →
  st_annotations s (k_annotations (st_class s base)) = [] →
  In base l →
  (∀ b, In b l → In b bases) →
  ∃ b s',
    In b bases
    ∧ for_eachM
        (fun annotations base =>
           do base_annotations <- _get_field_annotations base;
           do content <- read (fun s => st_annotations s base_annotations);
           ret (update annotations content))
        acc l s0
      = (inl (SchemaInitError (NotAnnotated (k_name (st_class s b)))), s').
Proof.
  intros Hpops Hempty. revert acc s0 Hpops.
  induction l as [|x l IH]; intros acc s0 Hpops Hin Hsub; [destruct Hin|].
  rewrite for_eachM_cons.
  destruct (_get_field_annotations x s0) as [[e|a] s1] eqn:E.
  - pose proof (_get_field_annotations_inl _ _ _ _ E) as [He Hs].
    subst e s1.
    exists x, (evaluated x s0). split; [apply Hsub; by left|].
    destruct Hpops as (Hc & _). rewrite <- Hc.
    apply bind_fail. by apply bind_fail.
  - pose proof (_get_field_annotations_pops _ _ _ _ E) as Hstep.
    assert (pops_only s s1) as Hpops1 by (by eapply pops_only_trans).
    destruct Hin as [->|Hin].
    + exfalso.
      destruct Hpops as (Hc & _ & _ & Ha).
      destruct (Ha (k_annotations (st_class s base))) as [Hsubl _].
      rewrite Hempty in Hsubl. apply sublist_nil_inv in Hsubl.
      rewrite <- Hc in Hsubl.
      rewrite (_get_field_annotations_empty _ _ Hsubl) in E. discriminate.
    + destruct (IH (update acc (st_annotations s1 a)) s1 Hpops1 Hin)
        as (b & s' & Hb & Hrun).
      { intros b' Hb'. apply Hsub. by right. }
      exists b, s'. split; [done|].
      unfold bind at 1. unfold bind at 1. rewrite E.
      unfold bind at 1, read at 1. unfold ret at 1. exact Hrun.
Qed.

Section UnannotatedFacts.

Variable re_compile : string -> option (string -> bool).

(** C6: when the class is compiled and one of the classes of its chain
    (its MRO without the last two entries) has an empty
    [__annotations__], [to_schema] raises the declaration error
    "<name> is not annotated." for a class of the chain. *)
Theorem unannotated_class_raises cls s cached base :
  getattr s cls "__schema__" = Some cached →
  truthy cached = false →
  In base (bases_of s cls) →
  st_annotations s (k_annotations (st_class s base)) = [] →
  ∃ b s',
    In b (bases_of s cls)
    ∧ to_schema re_compile cls s
      = (inl (SchemaInitError (NotAnnotated (k_name (st_class s b)))), s').
Proof.
  intros Hc Ht Hbase Hempty.
  destruct (collect_loop_raises s (bases_of s cls) base
              (rev (bases_of s cls)) [] s)
    as (b & s' & Hb & Hrun).
  - apply pops_only_refl.
  - done.
  - by apply in_rev in Hbase.
  - intros b' Hb'. by apply in_rev.
  - exists b, s'. split; [done|].
    unfold to_schema. unfold bind at 1. rewrite Hc, Ht.
    apply bind_fail. unfold _inherit_field_annotations.
    unfold bind at 1, read at 1. exact Hrun.
Qed.

End UnannotatedFacts.

(** ** Validator bindings *)

Section ValidatorFacts.

Variable re_compile : string -> option (string -> bool).

(** A name is matched when it is one of the items and some pattern
    compiles to a pattern that matches it. *)
Definition resolves (seq regexps : list string) (x : string) : Prop :=
  x ∈ seq
  ∧ ∃ regex pattern_match,
      regex ∈ regexps
      ∧ re_compile regex = Some pattern_match
      ∧ pattern_match x = true.

Lemma regex_loop_spec seq regexps (acc matched : gset string) :
  for_each
    (fun (matched : gset string) regex =>
       match re_compile regex with
       | None => inl (ReError regex)
       | Some pattern_match =>
           inr (matched ∪ list_to_set (List.filter pattern_match seq))
       end)
    acc regexps = inr matched →
  ∀ x, x ∈ matched ↔ x ∈ acc ∨ resolves seq regexps x.
Proof.
  revert acc. induction regexps as [|regex regexps IH]; intros acc.
  - intros [= <-] x. split; [by left|].
    intros [?|(_ & r & pm & Hr & _)]; [done|]. by apply elem_of_nil in Hr.
  - rewrite for_each_cons.
    destruct (re_compile regex) as [pm|] eqn:Hre; [|discriminate].
    cbn [rbind]. intros H x. rewrite (IH _ H x).
    rewrite elem_of_union, elem_of_list_to_set, list_elem_of_In, filter_In,
      <- list_elem_of_In.
    unfold resolves. split.
    + intros [[Hacc|[Hseq Hpm]]|(Hseq & r & pm' & Hr & Hc & Hm)].
      * by left.
      * right. split; [done|]. exists regex, pm. split_and!; try done.
        by left.
      * right. split; [done|]. exists r, pm'. split_and!; try done.
        by right.
    + intros [Hacc|(Hseq & r & pm' & Hr & Hc & Hm)]; [by left; left|].
      apply elem_of_cons in Hr as [->|Hr].
      * left. right. split; [done|]. congruence.
      * right. split; [done|]. by exists r, pm'.
Qed.

Lemma _regex_filter_spec seq regexps matched :
  _regex_filter re_compile seq regexps = inr matched →
  ∀ x, x ∈ matched ↔ resolves seq regexps x.
Proof.
  intros H x. rewrite (regex_loop_spec _ _ _ _ H x).
  split; [|by right]. intros [Hx|Hx]; [|done].
  by apply not_elem_of_empty in Hx.
Qed.

(** [_regex_filter] returns as soon as every pattern compiles. *)
Lemma _regex_filter_total seq regexps :
  (∀ regex, regex ∈ regexps → is_Some (re_compile regex)) →
  ∃ matched, _regex_filter re_compile seq regexps = inr matched.
Proof.
  unfold _regex_filter. generalize (∅ : gset string) as acc.
  induction regexps as [|regex regexps IH]; intros acc Hall; [by eexists|].
  rewrite for_each_cons.
  destruct (Hall regex) as [pm ->]; [by left|]. cbn [rbind].
  apply IH. intros r Hr. apply Hall. by right.
Qed.

(** The turn of the loop of [_update_checks] for one field. *)
Definition stack (fn : value) (fields : list string) (check : Check)
    (checks : gmap string (list Check)) (field : string)
  : result (gmap string (list Check)) :=
  if negb (bool_decide (field ∈ fields))
  then inl (SchemaInitError (NonExistingField (name_of fn) field))
  else
    let checks :=
      match checks !! field with
      | None => <[field := []]> checks
      | Some _ => checks
      end in
    inr (<[field := default [] (checks !! field) ++ [check]]> checks).

Lemma stack_known fn fields check checks field :
  field ∈ fields →
  stack fn fields check checks field
  = inr (<[field := validator_checks checks field ++ [check]]> checks).
Proof.
  intros Hin. unfold stack, validator_checks.
  rewrite bool_decide_eq_true_2 by done. cbn.
  destruct (checks !! field) eqn:E.
  - by rewrite E.
  - by rewrite lookup_insert_eq, insert_insert_eq.
Qed.

Lemma stack_unknown fn fields check checks field :
  field ∉ fields →
  stack fn fields check checks field
  = inl (SchemaInitError (NonExistingField (name_of fn) field)).
Proof.
  intros Hin. unfold stack. by rewrite bool_decide_eq_false_2.
Qed.

(** The loop over the resolved names, all of them known. *)
Lemma stack_loop_known fn fields check l checks :
  NoDup l →
  (∀ f, f ∈ l → f ∈ fields) →
  ∃ checks',
    for_each (stack fn fields check) checks l = inr checks'
    ∧ ∀ f, checks' !! f
           = if bool_decide (f ∈ l)
             then Some (validator_checks checks f ++ [check])
             else checks !! f.
Proof.
  revert checks. induction l as [|x l IH]; intros checks Hnd Hall.
  - exists checks. split; [done|]. intros f.
    by rewrite bool_decide_eq_false_2 by apply not_elem_of_nil.
  - apply NoDup_cons in Hnd as [Hx Hnd].
    rewrite for_each_cons, stack_known by (apply Hall; by left).
    cbn [rbind].
    destruct (IH (<[x := validator_checks checks x ++ [check]]> checks))
      as (checks' & Hrun & Hlookup); [done | |].
    { intros f Hf. apply Hall. by right. }
    exists checks'. split; [done|]. intros f. rewrite Hlookup.
    destruct (decide (f = x)) as [->|Hne].
    + rewrite (bool_decide_eq_false_2 _ Hx).
      rewrite bool_decide_eq_true_2 by (by left).
      by rewrite lookup_insert_eq.
    + unfold validator_checks. rewrite lookup_insert_ne by done.
      destruct (decide (f ∈ l)) as [Hf|Hf].
      * rewrite !bool_decide_eq_true_2; [done | by right | done].
      * rewrite !bool_decide_eq_false_2; [done | | done].
        intros Hin. by apply elem_of_cons in Hin as [?|?].
Qed.

(** The loop over the resolved names, one of them unknown. *)
Lemma stack_loop_unknown fn fields check l checks f :
  f ∈ l → f ∉ fields →
  ∃ f', f' ∈ l ∧ (f' ∉ fields)
        ∧ for_each (stack fn fields check) checks l
          = inl (SchemaInitError (NonExistingField (name_of fn) f')).
Proof.
  revert checks. induction l as [|x l IH]; intros checks Hf Hnot.
  - by apply elem_of_nil in Hf.
  - rewrite for_each_cons. destruct (decide (x ∈ fields)) as [Hx|Hx].
    + rewrite stack_known by done. cbn [rbind].
      apply elem_of_cons in Hf as [->|Hf]; [done|].
      destruct (IH (<[x := validator_checks checks x ++ [check]]> checks)
                  Hf Hnot) as (f' & Hf' & Hnot' & Hrun).
      exists f'. split_and!; try done. by right.
    + exists x. rewrite stack_unknown by done. split_and!; try done.
      by left.
Qed.

Lemma _update_checks_unfold checks fn fields field_validator :
  field_validator_of fn = Some field_validator →
  _update_checks re_compile checks fn fields
  = rbind (if vc_regex field_validator
           then _regex_filter re_compile fields
                  (elements (vc_fields field_validator))
           else inr (vc_fields field_validator))
          (fun matched =>
             for_each (stack fn fields (vc_check field_validator)) checks
                      (elements matched)).
Proof. intros H. unfold _update_checks. by rewrite H. Qed.

(** The exception of [_regex_filter] is that of a pattern that does not
    compile. *)
Lemma _regex_filter_inl seq regexps e :
  _regex_filter re_compile seq regexps = inl e →
  ∃ pattern, pattern ∈ regexps ∧ re_compile pattern = None
             ∧ e = ReError pattern.
Proof.
  unfold _regex_filter. intros H.
  apply for_each_inl in H as (acc & pattern & Hin & H).
  destruct (re_compile pattern) eqn:Hre; [discriminate|].
  injection H as <-. exists pattern. split_and!; try done.
  by apply list_elem_of_In.
Qed.

(** The exception of the loop over the resolved names carries the name
    of the function and a name that is not known. *)
Lemma stack_loop_inl fn fields check l checks e :
  for_each (stack fn fields check) checks l = inl e →
  ∃ f, f ∈ l ∧ (f ∉ fields)
       ∧ e = SchemaInitError (NonExistingField (name_of fn) f).
Proof.
  intros H. apply for_each_inl in H as (acc & f & Hin & H).
  unfold stack in H. destruct (bool_decide (f ∈ fields)) eqn:Hf;
    [discriminate|].
  injection H as <-. exists f. split_and!; try done.
  - by apply list_elem_of_In.
  - by apply bool_decide_eq_false in Hf.
Qed.

(** The exceptions of [_update_checks]: the one of [re] for a pattern
    that does not compile, or the declaration error that carries the name
    of the method and a name of its binding that is not a field. *)
Lemma _update_checks_raises checks fn fields e :
  _update_checks re_compile checks fn fields = inl e →
  ∃ f fv x,
    fn = VFunction f
    ∧ fn_validator f = Some fv
    ∧ x ∈ vc_fields fv
    ∧ if vc_regex fv
      then re_compile x = None ∧ e = ReError x
      else (x ∉ fields)
           ∧ e = SchemaInitError (NonExistingField (fn_name f) x).
Proof.
  destruct fn as [| |f| | |]; try discriminate.
  destruct (fn_validator f) as [fv|] eqn:Hfv;
    [|unfold _update_checks; simpl; by rewrite Hfv].
  rewrite (_update_checks_unfold _ _ _ fv) by done.
  destruct (vc_regex fv) eqn:Hregex.
  - destruct (_regex_filter re_compile fields (elements (vc_fields fv)))
      as [e'|matched] eqn:Hm; cbn [rbind].
    + intros [= ->]. apply _regex_filter_inl in Hm as (x & Hx & Hnone & ->).
      exists f, fv, x. rewrite Hregex. split_and!; try done.
      by apply elem_of_elements.
    + intros H. apply stack_loop_inl in H as (x & Hx & Hnot & _).
      apply elem_of_elements, (_regex_filter_spec _ _ _ Hm) in Hx.
      by destruct Hx.
  - cbn [rbind]. intros H.
    apply stack_loop_inl in H as (x & Hx & Hnot & ->).
    exists f, fv, x. rewrite Hregex. split_and!; try done.
    by apply elem_of_elements.
Qed.

(** A binding whose patterns compile, or whose literal names are all
    known, stacks its check. *)
Lemma _update_checks_returns checks fn fields :
  (∀ fv, field_validator_of fn = Some fv →
         if vc_regex fv
         then ∀ regex, regex ∈ vc_fields fv → is_Some (re_compile regex)
         else ∀ f, f ∈ vc_fields fv → f ∈ fields) →
  ∃ checks', _update_checks re_compile checks fn fields = inr checks'.
Proof.
  intros Hfn. destruct (field_validator_of fn) as [fv|] eqn:Hfv.
  - specialize (Hfn fv eq_refl).
    rewrite (_update_checks_unfold _ _ _ _ Hfv).
    destruct (vc_regex fv).
    + destruct (_regex_filter_total fields
                  (elements (vc_fields fv))) as [matched Hm].
      { intros regex Hr. apply Hfn. by apply elem_of_elements. }
      rewrite Hm. cbn [rbind].
      destruct (stack_loop_known fn fields (vc_check fv) (elements matched)
                  checks) as (checks' & -> & _); [apply NoDup_elements| |].
      * intros f Hf. apply elem_of_elements in Hf.
        by apply (_regex_filter_spec _ _ _ Hm) in Hf as [? _].
      * by eexists.
    + cbn [rbind].
      destruct (stack_loop_known fn fields (vc_check fv)
                  (elements (vc_fields fv)) checks)
        as (checks' & -> & _); [apply NoDup_elements| |].
      * intros f Hf. apply Hfn. by apply elem_of_elements.
      * by eexists.
  - unfold _update_checks. rewrite Hfv. by eexists.
Qed.

End ValidatorFacts.

Section ValidatorClaim.

Variable re_compile : string -> option (string -> bool).

(** The loop of [to_schema] over the members of the class. *)
Lemma to_schema_members cls s cached annotations s1 :
  getattr s cls "__schema__" = Some cached →
  truthy cached = false →
  _inherit_field_annotations cls s = (inr annotations, s1) →
  ∀ e,
    for_each (fun checks '(_, fn) =>
                _update_checks re_compile checks fn (keys annotations))
             ∅ (getmembers s cls isfunction) = inl e →
    to_schema re_compile cls s = (inl e, s1).
Proof.
  intros Hc Ht Hinh e He.
  unfold to_schema. unfold bind at 1. rewrite Hc, Ht.
  rewrite (bind_run _ _ _ _ _ Hinh).
  unfold bind at 1, read at 1. unfold bind at 1, lift at 1.
  apply _inherit_field_annotations_pops in Hinh.
  by rewrite (pops_only_getmembers _ _ _ _ Hinh), He.
Qed.

(** C2: a binding in regex mode resolves to the known field names that
    some pattern of the binding matches with [pattern.match], every such
    name receives the check of the binding and no other name does, and no
    declaration error can come from it; so the pattern "a.*" against the
    fields "abc" and "xyz" resolves to "abc" alone, matching being
    case-sensitive and anchored at the start of the name only. A literal
    binding of a method [f] that names a field that is not known makes
    [_update_checks] raise the declaration error that carries
    [f.__name__] and an unknown field of the binding. A class with such a
    method does not compile: [to_schema] raises the exception of the
    first member, in the order of [inspect.getmembers], that does not
    bind well, which is the error of [re] for a pattern or the
    declaration error with the name of that method and a name that is
    not a field; when the members before [f] bind well, it is the
    declaration error with [f.__name__]. *)
Theorem validator_binding_fields :
  (∀ checks fn fields field_validator,
     field_validator_of fn = Some field_validator →
     vc_regex field_validator = true →
     (∀ regex, regex ∈ vc_fields field_validator →
               is_Some (re_compile regex)) →
     ∃ matched checks',
       _regex_filter re_compile fields (elements (vc_fields field_validator))
       = inr matched
       ∧ (∀ x, x ∈ matched ↔
               resolves re_compile fields
                 (elements (vc_fields field_validator)) x)
       ∧ _update_checks re_compile checks fn fields = inr checks'
       ∧ ∀ f, checks' !! f
              = if bool_decide (f ∈ matched)
                then Some (validator_checks checks f
                           ++ [vc_check field_validator])
                else checks !! f)
  ∧ (_regex_filter MiniRe.compile ["abc"; "xyz"] ["a.*"] = inr {["abc"]}
     ∧ _regex_filter MiniRe.compile ["Abc"; "xabc"; "a"] ["a.*"]
       = inr {["a"]}
     ∧ _regex_filter MiniRe.compile ["abc"; "xyz"; "b"] ["a"; "x.z"]
       = inr {["abc"; "xyz"]})
  ∧ (∀ checks f fields field_validator field,
       fn_validator f = Some field_validator →
       vc_regex field_validator = false →
       field ∈ vc_fields field_validator →
       field ∉ fields →
       ∃ unknown,
         unknown ∈ vc_fields field_validator
         ∧ (unknown ∉ fields)
         ∧ _update_checks re_compile checks (VFunction f) fields
           = inl (SchemaInitError
                    (NonExistingField (fn_name f) unknown)))
  ∧ (∀ cls s cached annotations s1 member f field_validator field,
       getattr s cls "__schema__" = Some cached →
       truthy cached = false →
       _inherit_field_annotations cls s = (inr annotations, s1) →
       In (member, VFunction f) (getmembers s cls isfunction) →
       fn_validator f = Some field_validator →
       vc_regex field_validator = false →
       field ∈ vc_fields field_validator →
       field ∉ keys annotations →
       ∃ e s',
         to_schema re_compile cls s = (inl e, s')
         ∧ ∃ member' f' fv x,
             In (member', VFunction f') (getmembers s cls isfunction)
             ∧ fn_validator f' = Some fv
             ∧ x ∈ vc_fields fv
             ∧ if vc_regex fv
               then re_compile x = None ∧ e = ReError x
               else (x ∉ keys annotations)
                    ∧ e = SchemaInitError
                            (NonExistingField (fn_name f') x))
  ∧ (∀ cls s cached annotations s1 before member f after field_validator
       field,
       getattr s cls "__schema__" = Some cached →
       truthy cached = false →
       _inherit_field_annotations cls s = (inr annotations, s1) →
       getmembers s cls isfunction
       = before ++ (member, VFunction f) :: after →
       Forall (fun m => binds_well re_compile (keys annotations) (snd m))
              before →
       fn_validator f = Some field_validator →
       vc_regex field_validator = false →
       field ∈ vc_fields field_validator →
       field ∉ keys annotations →
       ∃ unknown s',
         unknown ∈ vc_fields field_validator
         ∧ (unknown ∉ keys annotations)
         ∧ to_schema re_compile cls s
           = (inl (SchemaInitError (NonExistingField (fn_name f) unknown)),
              s')).
Proof.
  assert (∀ checks f fields fv field,
            fn_validator f = Some fv →
            vc_regex fv = false →
            field ∈ vc_fields fv →
            field ∉ fields →
            ∃ unknown,
              unknown ∈ vc_fields fv
              ∧ (unknown ∉ fields)
              ∧ _update_checks re_compile checks (VFunction f) fields
                = inl (SchemaInitError
                         (NonExistingField (fn_name f) unknown)))
    as Hliteral.
  { intros checks f fields fv field Hfv Hregex Hfield Hnot.
    destruct (stack_loop_unknown (VFunction f) fields (vc_check fv)
                (elements (vc_fields fv)) checks field)
      as (f' & Hf' & Hnot' & Hrun); [by apply elem_of_elements | done |].
    exists f'. split_and!; try done.
    + by apply elem_of_elements.
    + by rewrite (_update_checks_unfold _ _ _ _ fv), Hregex. }
  split_and!.
  - intros checks fn fields fv Hfv Hregex Hall.
    destruct (_regex_filter_total re_compile fields (elements (vc_fields fv)))
      as [matched Hmatched].
    { intros regex Hr. apply Hall. by apply elem_of_elements. }
    pose proof (_regex_filter_spec _ _ _ _ Hmatched) as Hspec.
    destruct (stack_loop_known fn fields (vc_check fv) (elements matched)
                checks) as (checks' & Hrun & Hlookup).
    { apply NoDup_elements. }
    { intros f Hf. apply elem_of_elements, Hspec in Hf. by destruct Hf. }
    exists matched, checks'. split_and!; try done.
    + rewrite (_update_checks_unfold _ _ _ _ _ Hfv), Hregex, Hmatched.
      done.
    + intros f. rewrite Hlookup.
      destruct (decide (f ∈ matched)) as [Hf|Hf].
      * rewrite !bool_decide_eq_true_2; [done..|].
        by apply elem_of_elements.
      * rewrite !bool_decide_eq_false_2; [done..|].
        by rewrite elem_of_elements.
  - vm_compute. reflexivity.
  - vm_compute. reflexivity.
  - vm_compute. reflexivity.
  - exact Hliteral.
  - intros cls s cached annotations s1 member f fv field
      Hc Ht Hinh Hmem Hfv Hregex Hfield Hnot.
    destruct (for_each_raises
                (fun checks '(_, fn) =>
                   _update_checks re_compile checks fn (keys annotations))
                ∅ (getmembers s cls isfunction) (member, VFunction f) Hmem)
      as [e He].
    { intros checks.
      destruct (Hliteral checks f (keys annotations) fv field)
        as (unknown & _ & _ & ->); eauto. }
    exists e, s1. split; [by eapply to_schema_members|].
    apply for_each_inl in He as (checks & [member' fn'] & Hin & He).
    apply _update_checks_raises in He as (f' & fv' & x & -> & Hr).
    by exists member', f', fv', x.
  - intros cls s cached annotations s1 before member f after fv field
      Hc Ht Hinh Hsplit Hbefore Hfv Hregex Hfield Hnot.
    destruct (for_each_returns
                (fun checks '(_, fn) =>
                   _update_checks re_compile checks fn (keys annotations))
                ∅ before) as [checks Hchecks].
    { intros a [member' fn'] Hin. apply _update_checks_returns.
      rewrite Forall_forall in Hbefore.
      by apply (Hbefore (member', fn')), list_elem_of_In. }
    destruct (Hliteral checks f (keys annotations) fv field)
      as (unknown & Hunknown & Hnot' & Hrun); try done.
    exists unknown, s1. split_and!; try done.
    eapply to_schema_members; try done.
    rewrite Hsplit, for_each_app, Hchecks. cbn [rbind].
    rewrite for_each_cons. by rewrite Hrun.
Qed.

End ValidatorClaim.

(** ** What compilation changes *)

Section FrameFacts.

Variable re_compile : string -> option (string -> bool).

(** Every way out of [to_schema]: the store is as it was, or only
    entries of annotation dicts have gone, or that and the new schema
    is stored under the [__schema__] of the class. *)
Lemma to_schema_stores cls s r s' :
  to_schema re_compile cls s = (r, s') →
  (s' = s)
  ∨ (∃ e, r = inl e ∧ pops_only s s')
  ∨ (∃ s1 schema,
       pops_only s s1
       ∧ r = inr (VSchema (length (st_schemas s1)))
       ∧ s' = setattr cls "__schema__" (VSchema (length (st_schemas s1)))
                      (with_schema schema s1)).
Proof.
  unfold to_schema. unfold bind at 1.
  destruct (getattr s cls "__schema__") as [cached|];
    [|intros [= <- <-]; by left].
  destruct (truthy cached); [intros [= <- <-]; by left|].
  unfold bind at 1.
  destruct (_inherit_field_annotations cls s) as [[e|annotations] s1] eqn:E;
    apply _inherit_field_annotations_pops in E.
  { intros [= <- <-]. right. left. eauto. }
  unfold bind at 1, read at 1. unfold bind at 1, lift at 1.
  destruct (for_each _ _ _) as [e|checks].
  { intros [= <- <-]. right. left. eauto. }
  unfold bind at 1.
  destruct (_build_columns_index s1 cls checks annotations)
    as [e|[columns index]].
  { intros [= <- <-]. right. left. eauto. }
  unfold bind, new_schema, write. rewrite getattr_setattr_eq.
  intros [= <- <-]. right. right.
  exists s1, {| columns := columns; index := index |}. by split_and!.
Qed.

End FrameFacts.

(** ** Inherited annotations *)

Lemma first_declared_app s l1 l2 name :
  first_declared s (l1 ++ l2) name
  = match first_declared s l1 name with
    | Some a => Some a
    | None => first_declared s l2 name
    end.
Proof.
  induction l1 as [|c l1 IH]; simpl; [done|].
  by destruct (get name _).
Qed.

Lemma _get_field_annotations_inr base s a s' :
  _get_field_annotations base s = (inr a, s') →
  a = k_annotations (st_class s base).
Proof.
  unfold_collector.
  destruct (is_empty _); [discriminate|].
  destruct (scan_members _ _) as [content' missing].
  destruct missing; by intros [= <- _].
Qed.

Lemma pops_only_well_formed s s' :
  well_formed s → pops_only s s' → well_formed s'.
Proof.
  intros Hwf (_ & _ & _ & Ha) a. destruct (Ha a) as [Hsub _].
  eapply sublist_NoDup; [apply (Hwf a)|].
  unfold keys. by apply (fmap_sublist fst).
Qed.

(** The loop of [_inherit_field_annotations]: a name that does not start
    with an underscore ends with the annotation of the last class of the
    loop that has one, or with what it had before the loop. *)
Lemma collect_loop_inr (s : state) name l acc s0 r s' :
  well_formed s →
  String.prefix "_" name = false →
  pops_only s s0 →
  for_eachM
    (fun annotations base =>
       do base_annotations <- _get_field_annotations base;
       do content <- read (fun s => st_annotations s base_annotations);
       ret (update annotations content))
    acc l s0 = (inr r, s') →
  get name r = match first_declared s (rev l) name with
               | Some a => Some a
               | None => get name acc
               end.
Proof.
  intros Hwf Hname. revert acc s0.
  induction l as [|x l IH]; intros acc s0 Hpops.
  - by intros [= <- <-].
  - rewrite for_eachM_cons. intros H. step H as acc' s1 Hturn.
    step Hturn as a s2 Hget. step Hturn as content s3 Hread.
    injection Hread as <- <-. injection Hturn as <- <-.
    pose proof (_get_field_annotations_pops _ _ _ _ Hget) as Hstep.
    assert (pops_only s s2) as Hpops2 by (by eapply pops_only_trans).
    rewrite (IH _ _ Hpops2 H). simpl. rewrite first_declared_app. simpl.
    destruct (first_declared s (rev l) name); [done|].
    rewrite get_update by (by eapply pops_only_well_formed).
    apply _get_field_annotations_inr in Hget as ->.
    destruct Hpops as (Hc & _). destruct Hpops2 as (_ & _ & _ & Ha).
    rewrite Hc. destruct (Ha (k_annotations (st_class s x))) as [_ ->];
      [|done].
    by destruct (get name (st_annotations s (k_annotations (st_class s x)))).
Qed.

(** X15: the collected annotation of a field name is the one of the most
    derived class of the chain that annotates the name. *)
Lemma collected_annotation_most_derived cls s annotations s' name :
  well_formed s →
  String.prefix "_" name = false →
  _inherit_field_annotations cls s = (inr annotations, s') →
  get name annotations = first_declared s (bases_of s cls) name.
Proof.
  intros Hwf Hname. unfold _inherit_field_annotations.
  unfold bind at 1, read at 1. intros H.
  rewrite (collect_loop_inr s name _ _ _ _ _ Hwf Hname (pops_only_refl s) H).
  rewrite rev_involutive. unfold bases_of.
  by destruct (first_declared _ _ _).
Qed.

(** X16: the turn of an entry whose attribute is true and is not a descriptor
    raises the declaration error. *)
Lemma build_field_not_a_Field s cls checks acc name o dtype args
    (optional : bool) v :
  getattr s cls name = Some v →
  truthy v = true →
  is_FieldInfo v = false →
  build_field s cls checks acc
    (name, if optional then TOptional (TGeneric o (dtype :: args))
           else TGeneric o (dtype :: args))
  = inl (SchemaInitError (NotAField name (class_of v))).
Proof.
  intros Hv Ht Hf. destruct acc as [cols idxs]. unfold build_field.
  rewrite Hv. destruct optional, dtype; cbn; by rewrite Ht, Hf.
Qed.

(** ** The examples, evaluated *)

Module Evaluated.

Import Examples.

(** C8: the claim that compilation leaves every annotation map unchanged
    fails on a class with a protected annotated attribute: compiling
    [class Schema(SchemaModel): a: Series[int]; _tag: str = "x"] removes
    "_tag" from [Schema.__annotations__]. *)
Lemma to_schema_pops_annotations :
  let '(r, s') := to_schema MiniRe.compile Schema protected_attribute in
  r = inr (VSchema 0)
  ∧ st_annotations protected_attribute
      (k_annotations (st_class protected_attribute Schema))
    = [("a", Series_ int); ("_tag", str)]
  ∧ st_annotations s' (k_annotations (st_class s' Schema))
    = [("a", Series_ int)]
  ∧ st_annotations s' (k_annotations (st_class s' Schema))
    ≠ st_annotations protected_attribute
        (k_annotations (st_class protected_attribute Schema)).
Proof. vm_compute. split_and!; try reflexivity. discriminate. Qed.

(** C5 on [class Base(SchemaModel): a: Series[int]] and
    [class Child(Base): a: Series[str]]: compiled first, [Child] gets a
    column of [str]; compiled after [Base], [Child] finds the schema of
    [Base] under [__schema__] and returns it, with its column of
    [int]. *)
Lemma child_returns_schema_of_base :
  let '(_, fresh) := to_schema MiniRe.compile Child base_child in
  let '(r1, s1) := to_schema MiniRe.compile Base base_child in
  let '(r2, s2) := to_schema MiniRe.compile Child s1 in
  get "a" (st_annotations base_child (k_annotations
                                        (st_class base_child Child)))
  = Some (Series_ str)
  ∧ (col_pandas_dtype <$> (st_schemas fresh !! 0 ≫= λ schema,
                            get "a" (columns schema))) = Some str
  ∧ r1 = inr (VSchema 0)
  ∧ r2 = inr (VSchema 0)
  ∧ length (st_schemas s2) = 1
  ∧ (col_pandas_dtype <$> (st_schemas s2 !! 0 ≫= λ schema,
                            get "a" (columns schema))) = Some int.
Proof. vm_compute. by split_and!. Qed.

(** C7 on [class Schema(SchemaModel): a: Series[int] = 0]: the attribute
    is not a descriptor, yet compilation succeeds and builds the column
    as if there were no attribute; with [a: Series[int] = 1] it raises
    the declaration error. *)
Lemma falsy_attribute_accepted :
  let '(r, s') := to_schema MiniRe.compile Schema falsy_attribute in
  getattr falsy_attribute Schema "a" = Some (VObject "<class 'int'>" false)
  ∧ r = inr (VSchema 0)
  ∧ st_schemas s'
    = [{| columns := [("a", bare_Column int [] true "a")];
          index := None |}]
  ∧ fst (to_schema MiniRe.compile Schema truthy_attribute)
    = inl (SchemaInitError (NotAField "a" "<class 'int'>")).
Proof. vm_compute. by split_and!. Qed.

(** [class Base(SchemaModel): a: Series[int]] and [class Child(Base)]
    with no annotation: [Child.to_schema()] raises "Child is not
    annotated.", and the evaluation of [Child.__annotations__] has given
    [Child] an [__annotations__] of its own on the way. *)
Lemma to_schema_creates_annotations :
  let '(r, s') := to_schema MiniRe.compile Child unannotated_child in
  r = inl (SchemaInitError (NotAnnotated "Child"))
  ∧ has__annotations__ unannotated_child Child = false
  ∧ has__annotations__ s' Child = true
  ∧ st_created s' = [Child].
Proof. vm_compute. by split_and!. Qed.

End Evaluated.

(** ** The theorems at the examples *)

Module Witnesses.

Import Examples.

(** A run is its result and the store it leaves. *)
Lemma run_eq {A} (x : result A * state) (r : result A) :
  fst x = r → x = (r, snd x).
Proof. destruct x as [r' s']. simpl. by intros ->. Qed.

Ltac evaluate :=
  first [ apply run_eq; vm_compute; reflexivity | vm_compute; reflexivity ].

Local Abbreviation compile := (to_schema MiniRe.compile).

Lemma to_schema_twice_witness :
  compile Schema two_columns
  = (inr (VSchema 0), snd (compile Schema two_columns))
  ∧ compile Schema (snd (compile Schema two_columns))
    = (inr (VSchema 0), snd (compile Schema two_columns))
  ∧ getattr (snd (compile Schema two_columns)) Schema "__schema__"
    = Some (VSchema 0)
  ∧ truthy (VSchema 0) = true.
Proof.
  assert (compile Schema two_columns
          = (inr (VSchema 0), snd (compile Schema two_columns))) as H
    by evaluate.
  split; [exact H|].
  exact (to_schema_twice MiniRe.compile Schema two_columns (VSchema 0)
           (snd (compile Schema two_columns)) H).
Defined.

Lemma to_schema_index_witness :
  let compiled (s : state) :=
    ∃ a schema annotations s1 checks indexes,
      VSchema 0 = VSchema a
      ∧ st_schemas (snd (compile Schema s)) !! a = Some schema
      ∧ compiles MiniRe.compile Schema s annotations s1 checks schema
      ∧ Forall2 (index_entry s Schema checks) indexes
          (List.filter (fun item => is_index_kind (snd item)) annotations)
      ∧ map _name indexes = map Some (index_names annotations)
      ∧ match indexes with
        | [] => index schema = None
        | [i] =>
            ∃ i', index schema = Some (SingleIndex i')
                  ∧ _name i' = None
                  ∧ idx_pandas_dtype i' = idx_pandas_dtype i
                  ∧ idx_checks i' = idx_checks i
                  ∧ idx_nullable i' = idx_nullable i
                  ∧ idx_allow_duplicates i' = idx_allow_duplicates i
                  ∧ idx_coerce i' = idx_coerce i
        | _ => index schema = Some (MultiIndex indexes)
        end in
  compiled two_columns ∧ compiled one_index ∧ compiled described_fields.
Proof.
  intros compiled. split_and!.
  - apply (to_schema_index MiniRe.compile Schema two_columns VNone
             (VSchema 0) (snd (compile Schema two_columns)));
      evaluate.
  - apply (to_schema_index MiniRe.compile Schema one_index VNone
             (VSchema 0) (snd (compile Schema one_index)));
      evaluate.
  - apply (to_schema_index MiniRe.compile Schema described_fields VNone
             (VSchema 0) (snd (compile Schema described_fields)));
      evaluate.
Defined.

Lemma to_schema_checks_order_witness :
  ∃ a schema annotations s1 checks,
    VSchema 0 = VSchema a
    ∧ st_schemas (snd (compile Schema described_fields)) !! a = Some schema
    ∧ compiles MiniRe.compile Schema described_fields annotations s1
        checks schema
    ∧ (∀ name ann field,
         In (name, ann) annotations →
         is_index_kind ann = false →
         getattr described_fields Schema name = Some (VFieldInfo field) →
         ∃ col, get name (columns schema) = Some col
                ∧ col_checks col
                  = fi_checks field ++ validator_checks checks name)
    ∧ Forall2
        (fun i item =>
           ∀ field,
             getattr described_fields Schema (fst item)
             = Some (VFieldInfo field) →
             idx_checks i
             = fi_checks field ++ validator_checks checks (fst item))
        (index_components (index schema))
        (List.filter (fun item => is_index_kind (snd item)) annotations).
Proof.
  apply (to_schema_checks_order MiniRe.compile Schema described_fields
           VNone (VSchema 0) (snd (compile Schema described_fields)));
    evaluate.
Defined.

Lemma unannotated_class_raises_witness :
  ∃ b s',
    In b (bases_of unannotated_child Child)
    ∧ compile Child unannotated_child
      = (inl (SchemaInitError
                (NotAnnotated (k_name (st_class unannotated_child b)))),
         s').
Proof.
  apply (unannotated_class_raises MiniRe.compile Child unannotated_child
           VNone Child).
  - evaluate.
  - reflexivity.
  - vm_compute. by left.
  - reflexivity.
Defined.

Lemma validator_binding_fields_witness :
  (∃ unknown,
     unknown ∈ vc_fields
                 {| vc_fields := {["b"]}; vc_regex := false;
                    vc_check := FnCheck "check_b" [] |}
     ∧ (unknown ∉ ["a"])
     ∧ _update_checks MiniRe.compile ∅ (VFunction check_b) ["a"]
       = inl (SchemaInitError
                (NonExistingField (fn_name check_b) unknown)))
  ∧ ∃ unknown s',
      unknown ∈ vc_fields
                  {| vc_fields := {["b"]}; vc_regex := false;
                     vc_check := FnCheck "check_b" [] |}
      ∧ (unknown ∉ keys [("a", Series_ int)])
      ∧ compile Schema unknown_field
        = (inl (SchemaInitError
                  (NonExistingField (fn_name check_b) unknown)), s').
Proof.
  destruct (validator_binding_fields MiniRe.compile)
    as (_ & _ & Hliteral & _ & Hcompile).
  split.
  - apply (Hliteral ∅ check_b ["a"]
             {| vc_fields := {["b"]}; vc_regex := false;
                vc_check := FnCheck "check_b" [] |} "b").
    + evaluate.
    + reflexivity.
    + evaluate.
    + intros H. apply list_elem_of_In in H. simpl in H.
      destruct H as [H|[]]. discriminate H.
  - apply (Hcompile Schema unknown_field VNone [("a", Series_ int)]
             (snd (_inherit_field_annotations Schema unknown_field))
             [("__new__", VFunction (plain "__new__"))]
             "check_b" check_b []
             {| vc_fields := {["b"]}; vc_regex := false;
                vc_check := FnCheck "check_b" [] |} "b").
    + evaluate.
    + reflexivity.
    + evaluate.
    + vm_compute. reflexivity.
    + constructor; [|constructor]. intros fv H. discriminate H.
    + evaluate.
    + reflexivity.
    + evaluate.
    + intros H. apply list_elem_of_In in H. simpl in H.
      destruct H as [H|[]]. discriminate H.
Defined.

Lemma optional_fields_witness :
  (∃ e s', compile Schema optional_index = (inl e, s'))
  ∧ ∃ a schema annotations s1,
      VSchema 0 = VSchema a
      ∧ st_schemas (snd (compile Schema two_columns)) !! a = Some schema
      ∧ _inherit_field_annotations Schema two_columns
        = (inr annotations, s1)
      ∧ ∀ name ann,
          get name annotations = Some ann →
          is_index_kind ann = false →
          ∃ col, get name (columns schema) = Some col
                 ∧ col_required col = negb (is_optional_type ann).
Proof.
  split.
  - destruct (optional_fields MiniRe.compile Schema optional_index)
      as (_ & Hfails & _).
    apply (Hfails VNone [("idx", TOptional (Index_ int))]
             (snd (_inherit_field_annotations Schema optional_index))
             "idx" [int]).
    + evaluate.
    + reflexivity.
    + evaluate.
    + by left.
  - destruct (optional_fields MiniRe.compile Schema two_columns)
      as (_ & _ & _ & Hrequired).
    apply (Hrequired VNone (VSchema 0) (snd (compile Schema two_columns)));
      evaluate.
Defined.

End Witnesses.


(** * Further properties of the module *)

(** ** The cache *)

Section CacheFacts.

Variable re_compile : string -> option (string -> bool).

(** X1: when [to_schema] raises, no entry of a class [__dict__] has been
    bound again, no schema object has been created, and every attribute
    but [__annotations__] reads as it did before the call: each class
    finds under [__schema__] what it found before, so nothing partial is
    cached. (The annotation dicts themselves may have lost protected
    entries, and a class may have been given its [__annotations__].) *)
Theorem to_schema_raise_caches_nothing cls s e s' :
  to_schema re_compile cls s = (inl e, s') →
  st_dict s' = st_dict s
  ∧ st_schemas s' = st_schemas s
  ∧ ∀ c name, name ≠ "__annotations__" →
              getattr s' c name = getattr s c name.
Proof.
  intros H. apply to_schema_stores in H
    as [->|[(e' & _ & Hpops)|(s1 & schema & _ & Hr & _)]].
  - done.
  - split_and!.
    + by destruct Hpops as (_ & ? & _).
    + by destruct Hpops as (_ & _ & ? & _).
    + intros c name _. by apply pops_only_getattr.
  - discriminate Hr.
Qed.

(** X2: a call that compiles creates exactly one schema object, at an address
    that held nothing before, and returns it; whatever a call does, the
    schema objects that existed before it are still there, unchanged. *)
Theorem to_schema_new_object cls s r s' :
  to_schema re_compile cls s = (r, s') →
  (∀ a schema, st_schemas s !! a = Some schema →
               st_schemas s' !! a = Some schema)
  ∧ (∀ cached v,
       getattr s cls "__schema__" = Some cached →
       truthy cached = false →
       r = inr v →
       v = VSchema (length (st_schemas s))
       ∧ st_schemas s !! length (st_schemas s) = None
       ∧ length (st_schemas s') = S (length (st_schemas s))).
Proof.
  intros H. split.
  - apply to_schema_stores in H
      as [->|[(e' & _ & Hpops)|(s1 & schema & Hpops & _ & ->)]].
    + done.
    + destruct Hpops as (_ & _ & -> & _). done.
    + destruct Hpops as (_ & _ & Hs & _). intros a sc Ha.
      unfold with_schema, new_schema. simpl. rewrite Hs.
      by apply lookup_app_l_Some.
  - intros cached v Hc Ht ->.
    destruct (to_schema_compiled _ _ _ _ _ _ Hc Ht H)
      as (annotations & s1 & checks & schema & Hcomp & -> & _ & Hs).
    apply to_schema_inr in H as [(Hc' & Ht' & _)|H].
    { rewrite Hc in Hc'. injection Hc' as ->. discriminate Ht. }
    destruct H as (annotations' & s1' & checks' & schema' & Hcomp' & Hv & ->).
    destruct Hcomp as (_ & Hinh & _), Hcomp' as (_ & Hinh' & _).
    rewrite Hinh in Hinh'. injection Hinh' as <- <-.
    rewrite Hs. split_and!; [done | |].
    + by apply lookup_ge_None.
    + unfold with_schema, new_schema. simpl. rewrite length_app, Hs. simpl.
      lia.
Qed.

(** X3: the lookup of [__schema__] follows the MRO: once a class has returned
    a schema, a direct subclass that has no [__schema__] of its own returns
    that same object, and compiles nothing. *)
Theorem subclass_returns_cached_schema base child s v s' :
  k_ancestors (st_class s child) = base :: k_ancestors (st_class s base) →
  child ≠ base →
  st_dict s child !! "__schema__" = None →
  to_schema re_compile base s = (inr v, s') →
  to_schema re_compile child s' = (inr v, s').
Proof.
  intros Hmro Hne Hown Hbase.
  assert (getattr s' base "__schema__" = Some v ∧ truthy v = true
          ∧ st_class s' = st_class s
          ∧ st_dict s' child = st_dict s child) as (Hv & Ht & Hc & Hd).
  { pose proof Hbase as Hstores.
    apply to_schema_stores in Hstores
      as [->|[(e' & He & _)|(s1 & schema & Hpops & _ & ->)]].
    - apply to_schema_inr in Hbase as [(? & ? & _)|H]; [done|].
      destruct H as (? & s1 & ? & schema & Hcomp & -> & Hs).
      split_and!; try done. rewrite Hs at 1. apply getattr_setattr_eq.
    - discriminate He.
    - apply to_schema_inr in Hbase as [(Hg & ? & Hs)|H].
      + rewrite <- Hs in Hg. split_and!; try done; by rewrite Hs.
      + destruct H as (? & s1' & ? & schema' & Hcomp & -> & Hs).
        destruct Hpops as (Hc & Hd & _).
        split_and!; try done.
        * rewrite Hs. apply getattr_setattr_eq.
        * simpl. destruct (Nat.eqb_spec child base); [done|]. by rewrite Hd. }
  unfold to_schema. unfold bind at 1.
  assert (getattr s' child "__schema__" = Some v) as ->.
  { unfold getattr, getmro in *. rewrite Hc in *. rewrite Hmro. simpl.
    rewrite Hd, Hown. exact Hv. }
  by rewrite Ht.
Qed.

End CacheFacts.

(** ** The columns of a schema *)

Section ColumnFacts.

Variables (s : state) (cls : cid) (checks : gmap string (list Check)).

(** The descriptor bound to a field name, if there is one. *)
Definition descriptor_of (name : string) : option FieldInfo :=
  match getattr s cls name with
  | Some (VFieldInfo field) => Some field
  | _ => None
  end.

(** One turn that raises nothing, in full: what the column or the index
    is built from. *)
Lemma build_field_inr_full cols idxs name ann cols' idxs' :
  build_field s cls checks (cols, idxs) (name, ann) = inr (cols', idxs') →
  subscripted ann = true
  ∧ ∃ arg, first_argument ann = Some arg ∧
    ((is_index_kind ann = false ∧ idxs' = idxs ∧
      ∃ col, cols' = set name col cols
             ∧ col_name col = name
             ∧ col_pandas_dtype col = as_dtype arg
             ∧ col_nullable col = fi_nullable <$> descriptor_of name
             ∧ col_allow_duplicates col
               = fi_allow_duplicates <$> descriptor_of name
             ∧ col_coerce col = fi_coerce <$> descriptor_of name
             ∧ col_regex col = fi_regex <$> descriptor_of name)
     ∨ (is_index_kind ann = true ∧ cols' = cols ∧
        ∃ i, idxs' = idxs ++ [i]
             ∧ idx_pandas_dtype i = as_dtype arg
             ∧ idx_nullable i = fi_nullable <$> descriptor_of name
             ∧ idx_allow_duplicates i
               = fi_allow_duplicates <$> descriptor_of name
             ∧ idx_coerce i = fi_coerce <$> descriptor_of name)).
Proof.
  unfold build_field, descriptor_of.
  destruct (getattr s cls name) as [[| | | | |c []]|];
    (destruct ann as [| | |o [|arg args]|[| | |o [|arg args]|inner]];
     cbn; try discriminate);
    try (destruct inner; cbn; discriminate);
    destruct arg, o; cbn; try discriminate;
    intros [= <- <-]; (split; [done|]); eexists; (split; [done|]);
    first [ left; split_and!; try done; eexists; split_and!; done
          | right; split_and!; try done; eexists; split_and!; done ].
Qed.

(** What a column built for the entry [name: ann] holds. *)
Definition column_built (name : string) (ann : annotation) (col : Column)
  : Prop :=
  ∃ arg, first_argument ann = Some arg
         ∧ col_name col = name
         ∧ col_pandas_dtype col = as_dtype arg
         ∧ col_nullable col = fi_nullable <$> descriptor_of name
         ∧ col_allow_duplicates col
           = fi_allow_duplicates <$> descriptor_of name
         ∧ col_coerce col = fi_coerce <$> descriptor_of name
         ∧ col_regex col = fi_regex <$> descriptor_of name.

(** What an index built for the entry [name: ann] holds. *)
Definition index_built (i : schema_components.Index)
    (item : string * annotation) : Prop :=
  ∃ arg, first_argument (snd item) = Some arg
         ∧ idx_pandas_dtype i = as_dtype arg
         ∧ idx_nullable i = fi_nullable <$> descriptor_of (fst item)
         ∧ idx_allow_duplicates i
           = fi_allow_duplicates <$> descriptor_of (fst item)
         ∧ idx_coerce i = fi_coerce <$> descriptor_of (fst item).

Lemma build_loop_full l cols idxs cols' idxs' :
  for_each (build_field s cls checks) (cols, idxs) l = inr (cols', idxs') →
  Forall (fun item => subscripted (snd item) = true) l
  ∧ (NoDup (keys l) → (∀ k, In k (keys l) → ¬ In k (keys cols)) →
     keys cols' = keys cols ++ column_names l)
  ∧ (∀ name col, get name cols' = Some col →
       get name cols = Some col
       ∨ ∃ ann, In (name, ann) l ∧ column_built name ann col)
  ∧ ∃ new, idxs' = idxs ++ new
           ∧ Forall2 index_built new
               (List.filter (fun item => is_index_kind (snd item)) l).
Proof.
  revert cols idxs.
  induction l as [|[name ann] l IH]; intros cols idxs.
  - intros [= <- <-]. split_and!.
    + constructor.
    + intros _ _. unfold column_names. simpl. by rewrite app_nil_r.
    + intros name col H. by left.
    + exists []. split; [by rewrite app_nil_r | constructor].
  - rewrite for_each_cons.
    destruct (build_field s cls checks (cols, idxs) (name, ann))
      as [e|[cols1 idxs1]] eqn:E; [discriminate|]. cbn [rbind].
    intros Hrest.
    apply IH in Hrest as (Hsub & Hkeys & Hcols & new & -> & Hnew).
    apply build_field_inr_full in E as (Hs & arg & Harg & E).
    split_and!.
    + by constructor.
    + intros Hnd Hfresh. apply NoDup_cons in Hnd as [Hname Hnd].
      unfold column_names in *. simpl.
      destruct E as [(Hkind & -> & col & -> & _)|(Hkind & -> & _)];
        rewrite Hkind; simpl.
      * rewrite Hkeys; [|done|].
        -- rewrite keys_set.
           destruct (mem name cols) eqn:Hmem.
           ++ apply mem_In_keys in Hmem. exfalso.
              apply (Hfresh name); [by left | done].
           ++ by rewrite <- app_assoc.
        -- intros k Hk Hin. rewrite keys_set in Hin.
           destruct (mem name cols).
           ++ apply (Hfresh k); [by right | done].
           ++ apply in_app_iff in Hin as [Hin|[<-|[]]].
              ** apply (Hfresh k); [by right | done].
              ** apply Hname. by apply list_elem_of_In.
      * apply Hkeys; [done|]. intros k Hk. apply Hfresh. by right.
    + intros name' col' Hget. apply Hcols in Hget as [Hget|Hget].
      * destruct E as [(Hkind & -> & col & -> & Hcol)|(Hkind & -> & _)];
          [|by left].
        destruct (decide (name' = name)) as [->|Hne].
        -- rewrite get_set_eq in Hget. injection Hget as <-.
           right. exists ann. split; [by left|]. exists arg.
           by destruct Hcol as (? & ? & ? & ? & ? & ?).
        -- rewrite get_set_ne in Hget by done. by left.
      * right. destruct Hget as (ann' & Hin & Hb).
        exists ann'. split; [by right | done].
    + destruct E as [(Hkind & -> & _)|(Hkind & -> & i & -> & Hi)];
        simpl; rewrite Hkind.
      * by exists new.
      * exists (i :: new). rewrite <- app_assoc. split; [done|].
        constructor; [|done]. exists arg. by destruct Hi as (? & ? & ? & ?).
Qed.

End ColumnFacts.

Section ColumnTheorems.

Variable re_compile : string -> option (string -> bool).

Lemma compiles_descriptor_of cls s annotations s1 checks schema name :
  compiles re_compile cls s annotations s1 checks schema →
  descriptor_of s1 cls name = descriptor_of s cls name.
Proof.
  intros (_ & Hinh & _). apply _inherit_field_annotations_pops in Hinh.
  unfold descriptor_of. by rewrite (pops_only_getattr _ _ _ _ Hinh).
Qed.

(** X4: in every successful compilation the columns of the schema are the
    collected annotations that are not indexes, in the order of the
    collected annotations, and each column is named after its key. *)
Theorem to_schema_columns_order cls s cached v s' :
  getattr s cls "__schema__" = Some cached →
  truthy cached = false →
  to_schema re_compile cls s = (inr v, s') →
  ∃ a schema annotations s1,
    v = VSchema a
    ∧ st_schemas s' !! a = Some schema
    ∧ _inherit_field_annotations cls s = (inr annotations, s1)
    ∧ keys (columns schema) = column_names annotations
    ∧ ∀ name col, get name (columns schema) = Some col → col_name col = name.
Proof.
  intros Hc Ht H.
  destruct (to_schema_compiled _ _ _ _ _ _ Hc Ht H)
    as (annotations & s1 & checks & schema & Hcomp & -> & Hschema & _).
  pose proof Hcomp as (_ & Hinh & _ & Hbuild).
  unfold _build_columns_index in Hbuild.
  destruct (for_each _ _ _) as [e|[cols idxs]] eqn:E; [discriminate|].
  cbn [rbind] in Hbuild. injection Hbuild as Hcols Hidx.
  apply build_loop_full in E as (_ & Hkeys & Hbuilt & _).
  exists (length (st_schemas s1)), schema, annotations, s1.
  split_and!; try done.
  - rewrite <- Hcols. apply Hkeys.
    + by eapply _inherit_field_annotations_NoDup.
    + intros k _ [].
  - intros name col Hget. rewrite <- Hcols in Hget.
    apply Hbuilt in Hget as [Hget|(ann & _ & arg & _ & Hname & _)]; done.
Qed.

(** X5: in every successful compilation each column has the dtype that is the
    first type argument of its annotation (a forward reference as its
    string) and is built with the nullable, allow_duplicates, coerce and
    regex flags of the descriptor bound to the field, or with none of them
    when the field has no descriptor; the same holds of the indexes, which
    take no regex flag. *)
Theorem to_schema_dtype_and_flags cls s cached v s' :
  getattr s cls "__schema__" = Some cached →
  truthy cached = false →
  to_schema re_compile cls s = (inr v, s') →
  ∃ a schema annotations s1 indexes,
    v = VSchema a
    ∧ st_schemas s' !! a = Some schema
    ∧ _inherit_field_annotations cls s = (inr annotations, s1)
    ∧ index schema = _build_schema_index indexes
    ∧ (∀ name col,
         get name (columns schema) = Some col →
         ∃ ann, get name annotations = Some ann
                ∧ column_built s cls name ann col)
    ∧ Forall2 (index_built s cls) indexes
        (List.filter (fun item => is_index_kind (snd item)) annotations).
Proof.
  intros Hc Ht H.
  destruct (to_schema_compiled _ _ _ _ _ _ Hc Ht H)
    as (annotations & s1 & checks & schema & Hcomp & -> & Hschema & _).
  pose proof Hcomp as (_ & Hinh & _ & Hbuild).
  unfold _build_columns_index in Hbuild.
  destruct (for_each _ _ _) as [e|[cols idxs]] eqn:E; [discriminate|].
  cbn [rbind] in Hbuild. injection Hbuild as Hcols Hidx.
  apply build_loop_full in E as (_ & _ & Hbuilt & new & -> & Hnew).
  exists (length (st_schemas s1)), schema, annotations, s1, new.
  split_and!; try done.
  - intros name col Hget. rewrite <- Hcols in Hget.
    apply Hbuilt in Hget as [Hget|(ann & Hin & Hb)]; [done|].
    exists ann. split.
    + apply In_get; [|done]. by eapply _inherit_field_annotations_NoDup.
    + destruct Hb as (arg & ? & ? & ? & ? & ? & ? & ?).
      exists arg. rewrite <- !(compiles_descriptor_of _ _ _ _ _ _ _ Hcomp).
      by split_and!.
  - eapply Forall2_impl; [exact Hnew|].
    intros i item (arg & ? & ? & ? & ? & ?).
    exists arg. rewrite <- !(compiles_descriptor_of _ _ _ _ _ _ _ Hcomp).
    by split_and!.
Qed.

End ColumnTheorems.

(** ** The exceptions of a compilation *)

Lemma for_eachM_inl {A B} (body : A → B → M A) acc l s e s' :
  for_eachM body acc l s = (inl e, s') →
  ∃ a x s0, In x l ∧ body a x s0 = (inl e, s').
Proof.
  revert acc s. induction l as [|x l IH]; intros acc s; [discriminate|].
  rewrite for_eachM_cons. intros H.
  apply bind_inl in H as [H|(acc' & s1 & _ & H)].
  - exists acc, x, s. split; [by left | done].
  - apply IH in H as (a & y & s0 & Hy & H).
    exists a, y, s0. split; [by right | done].
Qed.

(** The collector raises declaration errors only. *)
Lemma _inherit_field_annotations_inl cls s e s' :
  _inherit_field_annotations cls s = (inl e, s') →
  is_declaration_error e = true.
Proof.
  unfold _inherit_field_annotations. unfold bind at 1, read at 1.
  intros H. apply for_eachM_inl in H as (a & base & s0 & _ & H).
  apply bind_inl in H as [H|(b & s1 & _ & H)].
  - by apply _get_field_annotations_inl in H as [-> _].
  - discriminate H.
Qed.

Section ExceptionFacts.

Variable re_compile : string -> option (string -> bool).

(** X6: the turn of an annotation without type arguments raises IndexError,
    at [get_first_arg], before the container is looked at; the turn of a
    subscripted annotation whose container is neither Series nor Index
    raises the declaration error for an invalid annotation. *)
Theorem invalid_annotation_errors s cls checks acc name :
  (∀ tp, get_args tp = [] →
         build_field s cls checks acc (name, tp) = inl IndexError)
  ∧ (∀ other dtype args (optional : bool),
       acceptable_attribute s cls name = true →
       build_field s cls checks acc
         (name,
          if optional
          then TOptional (TGeneric (OOther other) (dtype :: args))
          else TGeneric (OOther other) (dtype :: args))
       = inl (SchemaInitError (InvalidAnnotation name))).
Proof.
  destruct acc as [cols idxs]. split.
  - intros tp Hargs. unfold build_field.
    destruct tp as [| | |o args|inner]; try discriminate Hargs; try done.
    simpl in Hargs. by subst args.
  - intros other dtype args optional Hok.
    unfold acceptable_attribute in Hok. unfold build_field.
    destruct (getattr s cls name) as [[| | | | |c []]|];
      cbn in Hok; try discriminate Hok;
      destruct optional, dtype; reflexivity.
Qed.

(** A turn on a subscripted annotation raises declaration errors only. *)
Lemma build_field_inl_subscripted s cls checks acc name ann e :
  subscripted ann = true →
  build_field s cls checks acc (name, ann) = inl e →
  is_declaration_error e = true.
Proof.
  destruct acc as [cols idxs]. unfold build_field.
  generalize (default VNone (getattr s cls name)) as attr. intros attr.
  destruct ann as [| | |o [|arg args]|[| | |o [|arg args]|inner]];
    try discriminate;
    intros _; destruct arg, (truthy attr), (is_FieldInfo attr), o; cbn;
    intros [= <-]; done.
Qed.

(** X7: a regex binding with a pattern that [re.compile] rejects makes
    [_update_checks] raise the error of [re], which is not a declaration
    error. *)
Theorem invalid_pattern_raises checks fn fields field_validator regex :
  field_validator_of fn = Some field_validator →
  vc_regex field_validator = true →
  regex ∈ vc_fields field_validator →
  re_compile regex = None →
  ∃ pattern,
    pattern ∈ vc_fields field_validator
    ∧ re_compile pattern = None
    ∧ _update_checks re_compile checks fn fields = inl (ReError pattern).
Proof.
  intros Hfv Hregex Hin Hnone.
  rewrite (_update_checks_unfold _ _ _ _ _ Hfv), Hregex.
  assert (∃ pattern, pattern ∈ elements (vc_fields field_validator)
                     ∧ re_compile pattern = None
                     ∧ _regex_filter re_compile fields
                         (elements (vc_fields field_validator))
                       = inl (ReError pattern)) as (p & Hp & Hpn & ->).
  { apply elem_of_elements in Hin. unfold _regex_filter.
    generalize (∅ : gset string) as acc.
    induction (elements (vc_fields field_validator)) as [|r l IH];
      intros acc; [by apply elem_of_nil in Hin|].
    rewrite for_each_cons. destruct (re_compile r) as [pm|] eqn:Hr.
    - apply elem_of_cons in Hin as [->|Hin]; [congruence|].
      destruct (IH Hin (acc ∪ list_to_set (List.filter pm fields)))
        as (p & Hp & Hpn & Hrun).
      exists p. split_and!; try done. by right.
    - exists r. split_and!; try done. by left. }
  exists p. split_and!; try done. by apply elem_of_elements.
Qed.

(** When every pattern of its regex binding compiles, a member makes
    [_update_checks] raise declaration errors only. *)
Lemma _update_checks_inl checks fn fields e :
  (∀ fv regex, field_validator_of fn = Some fv → vc_regex fv = true →
               regex ∈ vc_fields fv → is_Some (re_compile regex)) →
  _update_checks re_compile checks fn fields = inl e →
  is_declaration_error e = true.
Proof.
  intros Hall. destruct (field_validator_of fn) as [fv|] eqn:Hfv.
  - rewrite (_update_checks_unfold _ _ _ _ _ Hfv).
    assert (∃ matched : gset string,
              (if vc_regex fv
               then _regex_filter re_compile fields (elements (vc_fields fv))
               else inr (vc_fields fv)) = inr matched) as [matched ->].
    { destruct (vc_regex fv) eqn:Hregex; [|by eexists].
      apply _regex_filter_total. intros regex Hr.
      apply (Hall fv regex); try done. by apply elem_of_elements. }
    cbn [rbind]. apply for_each_declaration_error.
    intros a x e0 _. unfold stack.
    destruct (negb (bool_decide (x ∈ fields))); [by intros [= <-]|done].
  - unfold _update_checks. by rewrite Hfv.
Qed.

(** X8: a compilation raises declaration errors only, as long as the class
    has a [__schema__] to look up, every collected annotation has type
    arguments, written [C[T, ...]] or [Optional[C[T, ...]]] (a union that
    names [None] first is not of this form), and every pattern of a regex
    binding compiles. This holds of the classes that
    the model covers: the attributes of the class have a truth value
    ([bool] of them raises nothing, see [truthy]), and the constructors
    of the schema and of its components, which are opaque, return. *)
Theorem to_schema_declaration_error cls s cached e s' :
  getattr s cls "__schema__" = Some cached →
  (∀ annotations s1,
     _inherit_field_annotations cls s = (inr annotations, s1) →
     Forall (fun item => subscripted (snd item) = true) annotations) →
  (∀ member fn fv regex,
     In (member, fn) (getmembers s cls isfunction) →
     field_validator_of fn = Some fv →
     vc_regex fv = true →
     regex ∈ vc_fields fv →
     is_Some (re_compile regex)) →
  to_schema re_compile cls s = (inl e, s') →
  is_declaration_error e = true.
Proof.
  intros Hc Hsub Hre. unfold to_schema. unfold bind at 1. rewrite Hc.
  destruct (truthy cached); [discriminate|].
  intros H. apply bind_inl in H as [H|(annotations & s1 & Hinh & H)];
    [by apply _inherit_field_annotations_inl in H|].
  specialize (Hsub _ _ Hinh).
  apply _inherit_field_annotations_pops in Hinh as Hpops.
  apply bind_inl in H as [H|(members & s2 & Hm & H)]; [discriminate|].
  injection Hm as <- <-.
  rewrite (pops_only_getmembers _ _ _ _ Hpops) in H.
  apply bind_inl in H as [H|(checks & s2 & Hchk & H)].
  - injection H as H <-. revert H. apply for_each_declaration_error.
    intros a [member fn] e0 Hin. apply _update_checks_inl.
    intros fv regex. by apply (Hre member fn).
  - injection Hchk as _ <-.
    apply bind_inl in H as [H|([columns index] & s2 & _ & H)].
    + injection H as H <-. unfold _build_columns_index in H.
      destruct (for_each _ _ _) as [e0|[c i]] eqn:E; [|discriminate].
      injection H as <-. revert E. apply for_each_declaration_error.
      intros a [name ann] e1 Hin. destruct a as [cols idxs].
      apply build_field_inl_subscripted.
      rewrite Forall_forall in Hsub.
      exact (Hsub (name, ann) (proj2 (list_elem_of_In _ _) Hin)).
    + unfold bind, new_schema, write in H.
      rewrite getattr_setattr_eq in H. discriminate.
Qed.

End ExceptionFacts.

(** ** The order of the stacked checks *)

Section StackingFacts.

Variable re_compile : string -> option (string -> bool).

(** What one member adds: its check, at the end of the list of each field
    it is bound to. *)
Lemma _update_checks_inr checks fn fields checks' member :
  _update_checks re_compile checks fn fields = inr checks' →
  ∀ name, validator_checks checks' name
          = validator_checks checks name
            ++ contribution re_compile fields name (member, fn).
Proof.
  unfold contribution. simpl.
  destruct (field_validator_of fn) as [fv|] eqn:Hfv.
  - rewrite (_update_checks_unfold _ _ _ _ _ Hfv). unfold targets.
    destruct (if vc_regex fv
              then _regex_filter re_compile fields (elements (vc_fields fv))
              else inr (vc_fields fv)) as [e|matched] eqn:Hm;
      [discriminate|].
    cbn [rbind]. intros Hrun name.
    assert ((if vc_regex fv
             then match _regex_filter re_compile fields
                          (elements (vc_fields fv)) with
                  | inr matched => matched
                  | inl _ => ∅
                  end
             else vc_fields fv) = matched) as ->.
    { destruct (vc_regex fv); [by rewrite Hm | by injection Hm]. }
    destruct (decide (Forall (λ f, f ∈ fields) (elements matched)))
      as [Hall|Hnot].
    + rewrite Forall_forall in Hall.
      destruct (stack_loop_known fn fields (vc_check fv) (elements matched)
                  checks (NoDup_elements _) Hall) as (checks'' & Hrun' & Hl).
      rewrite Hrun in Hrun'. injection Hrun' as <-.
      unfold validator_checks at 1. rewrite Hl.
      destruct (decide (name ∈ matched)) as [Hin|Hin].
      * rewrite !bool_decide_eq_true_2; [done | done |].
        by apply elem_of_elements.
      * rewrite !bool_decide_eq_false_2; [|done|].
        -- by rewrite app_nil_r.
        -- by rewrite elem_of_elements.
    + apply not_Forall_Exists in Hnot; [|apply _].
      apply Exists_exists in Hnot as (f & Hf & Hnf).
      destruct (stack_loop_unknown fn fields (vc_check fv) (elements matched)
                  checks f Hf Hnf) as (f' & _ & _ & Hrun').
      congruence.
  - unfold _update_checks. rewrite Hfv. intros [= <-] name.
    by rewrite app_nil_r.
Qed.

Lemma validators_loop_inr fields members checks checks' :
  for_each (fun checks '(_, fn) => _update_checks re_compile checks fn fields)
           checks members = inr checks' →
  ∀ name, validator_checks checks' name
          = validator_checks checks name
            ++ flat_map (contribution re_compile fields name) members.
Proof.
  revert checks. induction members as [|[member fn] members IH];
    intros checks.
  - intros [= <-] name. by rewrite app_nil_r.
  - rewrite for_each_cons.
    destruct (_update_checks re_compile checks fn fields) as [e|checks1]
      eqn:E; [discriminate|]. cbn [rbind]. intros Hrest name.
    rewrite (IH _ Hrest name), (_update_checks_inr _ _ _ _ member E name).
    simpl. by rewrite <- app_assoc.
Qed.

(** X9: in every successful compilation the checks of a column are the checks
    of its descriptor, followed by the check of each validator bound to
    the field, in the order of [inspect.getmembers], that is by method
    name. *)
Theorem to_schema_validator_order cls s cached v s' :
  getattr s cls "__schema__" = Some cached →
  truthy cached = false →
  to_schema re_compile cls s = (inr v, s') →
  ∃ a schema annotations s1,
    v = VSchema a
    ∧ st_schemas s' !! a = Some schema
    ∧ _inherit_field_annotations cls s = (inr annotations, s1)
    ∧ ∀ name col,
        get name (columns schema) = Some col →
        col_checks col
        = descriptor_checks s cls name
          ++ flat_map (contribution re_compile (keys annotations) name)
                      (getmembers s cls isfunction).
Proof.
  intros Hc Ht H.
  destruct (to_schema_compiled _ _ _ _ _ _ Hc Ht H)
    as (annotations & s1 & checks & schema & Hcomp & -> & Hschema & _).
  pose proof Hcomp as (_ & Hinh & Hchk & Hbuild).
  apply _build_columns_index_inr in Hbuild as (_ & Hcols & _).
  exists (length (st_schemas s1)), schema, annotations, s1.
  split_and!; try done.
  intros name col Hget.
  apply Hcols in Hget as (ann & _ & _ & _ & _ & ->).
  rewrite (compiles_descriptor_checks _ _ _ _ _ _ _ _ Hcomp).
  rewrite (validators_loop_inr _ _ _ _ Hchk name).
  apply _inherit_field_annotations_pops in Hinh.
  by rewrite (pops_only_getmembers _ _ _ _ Hinh).
Qed.

(** X10: a literal validator whose fields are all known stacks its check once
    on each of them, however often a name is repeated in the decorator
    call, and touches no other field. *)
Theorem validator_stacks_once checks fields check_kwargs check_fn known :
  (∀ f, f ∈ fields → f ∈ known) →
  ∃ checks',
    _update_checks re_compile checks
      (VFunction (validator fields false check_kwargs check_fn)) known
    = inr checks'
    ∧ ∀ name,
        validator_checks checks' name
        = validator_checks checks name
          ++ (if bool_decide (name ∈ fields)
              then [FnCheck (fn_name check_fn) check_kwargs]
              else []).
Proof.
  intros Hknown.
  set (fn := VFunction (validator fields false check_kwargs check_fn)).
  assert (field_validator_of fn
          = Some {| vc_fields := list_to_set fields; vc_regex := false;
                    vc_check := FnCheck (fn_name check_fn) check_kwargs |})
    as Hfv by done.
  destruct (stack_loop_known fn known
              (FnCheck (fn_name check_fn) check_kwargs)
              (elements (list_to_set fields : gset string)) checks)
    as (checks' & Hrun & Hl).
  { apply NoDup_elements. }
  { intros f Hf. apply Hknown.
    by apply elem_of_elements, elem_of_list_to_set in Hf. }
  exists checks'. split.
  - by rewrite (_update_checks_unfold _ _ _ _ _ Hfv).
  - intros name. unfold validator_checks at 1. rewrite Hl.
    destruct (decide (name ∈ fields)) as [Hin|Hin].
    + rewrite !bool_decide_eq_true_2; [done | done |].
      by apply elem_of_elements, elem_of_list_to_set.
    + rewrite !bool_decide_eq_false_2; [|done|].
      * by rewrite app_nil_r.
      * by rewrite elem_of_elements, elem_of_list_to_set.
Qed.

End StackingFacts.

(** ** The annotations of one class *)

Lemma pop_filter {V} k (d : dict V) :
  NoDup (keys d) →
  pop k d = List.filter (fun item => negb (String.eqb k (fst item))) d.
Proof.
  induction d as [|[k' v'] d IH]; [done|].
  intros Hnd. apply NoDup_cons in Hnd as [Hk' Hnd]. simpl.
  destruct (String.eqb_spec k k') as [->|Hne]; simpl.
  - symmetry. apply forallb_filter_id. apply forallb_forall.
    intros [k v] Hin. simpl. destruct (String.eqb_spec k' k) as [Heq|]; [|done].
    exfalso. apply Hk', list_elem_of_In. rewrite Heq.
    apply (in_map fst) in Hin. exact Hin.
  - by rewrite IH.
Qed.

Lemma NoDup_keys_filter {V} (f : string * V → bool) (d : dict V) :
  NoDup (keys d) → NoDup (keys (List.filter f d)).
Proof.
  intros Hnd. eapply sublist_NoDup; [exact Hnd|].
  unfold keys. apply (fmap_sublist fst). clear Hnd.
  induction d as [|x d IH]; simpl; [done|].
  destruct (f x); [by apply sublist_skip | by apply sublist_cons].
Qed.

Lemma pop_all_filter {V} names (d : dict V) :
  NoDup (keys d) →
  fold_left (fun d k => pop k d) names d
  = List.filter
      (fun item => negb (existsb (String.eqb (fst item)) names)) d.
Proof.
  revert d. induction names as [|k names IH]; intros d Hnd; simpl.
  - symmetry. apply forallb_filter_id. by apply forallb_forall.
  - rewrite pop_filter by done.
    rewrite IH by (by apply NoDup_keys_filter).
    clear. induction d as [|[k' v'] d IHd]; simpl; [done|].
    rewrite (String.eqb_sym k' k).
    destruct (String.eqb k k'); simpl; [done|].
    destruct (existsb (String.eqb k') names); simpl; by rewrite IHd.
Qed.

(** The loop of [_get_field_annotations], in closed form. *)
Lemma scan_loop_closed (members : list (string * value))
    (content : dict annotation) (missing : list string) :
  fold_left
    (fun '(annotations, missing) '(attr_name, _) =>
       if String.prefix "_" attr_name
       then (pop attr_name annotations, missing)
       else if negb (mem attr_name annotations)
       then (annotations, missing ++ [attr_name])
       else (annotations, missing))
    members (content, missing)
  = (fold_left (fun d k => pop k d)
       (List.filter (String.prefix "_") (map fst members)) content,
     missing
     ++ map fst
          (List.filter
             (fun m => negb (String.prefix "_" (fst m))
                       && negb (mem (fst m) content))
             members)).
Proof.
  revert content missing.
  induction members as [|[attr_name v] members IH]; intros content missing.
  - simpl. by rewrite app_nil_r.
  - simpl. destruct (String.prefix "_" attr_name) eqn:Hp; simpl.
    + rewrite IH. f_equal. f_equal. f_equal.
      apply filter_ext_in. intros [name v'] Hin. simpl.
      destruct (String.prefix "_" name) eqn:Hn; [done|]. simpl.
      unfold mem. rewrite get_pop_ne; [done|]. congruence.
    + destruct (mem attr_name content); simpl.
      * by rewrite IH.
      * rewrite IH. by rewrite <- app_assoc.
Qed.

Lemma scan_members_closed members content :
  scan_members members content
  = (fold_left (fun d k => pop k d)
       (List.filter (String.prefix "_") (map fst members)) content,
     map fst
       (List.filter
          (fun m => negb (String.prefix "_" (fst m))
                    && negb (mem (fst m) content))
          members)).
Proof. unfold scan_members. by rewrite scan_loop_closed. Qed.

Lemma existsb_filter_prefix name names :
  String.prefix "_" name = true →
  existsb (String.eqb name) (List.filter (String.prefix "_") names)
  = existsb (String.eqb name) names.
Proof.
  intros Hp. induction names as [|k names IH]; simpl; [done|].
  destruct (String.prefix "_" k) eqn:Hk; simpl; [by rewrite IH|].
  destruct (String.eqb_spec name k) as [->|]; [congruence | done].
Qed.

(** What a successful call of [_get_field_annotations] returns and
    leaves. *)
Lemma _get_field_annotations_scan cls s a s' :
  NoDup (keys (st_annotations s (k_annotations (st_class s cls)))) →
  _get_field_annotations cls s = (inr a, s') →
  a = k_annotations (st_class s cls)
  ∧ st_annotations s' a
    = List.filter (fun item => negb (is_protected s cls (fst item)))
                  (st_annotations s a)
  ∧ st_warnings s'
    = st_warnings s ++ match unannotated_members s cls with
                       | [] => []
                       | missing => [missing]
                       end
  ∧ ∀ a', a' ≠ a → st_annotations s' a' = st_annotations s a'.
Proof.
  intros Hnd H. pose proof (_get_field_annotations_inr _ _ _ _ H) as ->.
  revert H. unfold_collector.
  destruct (is_empty _); [discriminate|]. simpl_evaluated.
  rewrite scan_members_closed. fold (data_members s cls).
  fold (unannotated_members s cls).
  rewrite pop_all_filter by done.
  assert (∀ content : dict annotation,
            List.filter
              (fun item =>
                 negb (existsb (String.eqb (fst item))
                         (List.filter (String.prefix "_")
                            (map fst (data_members s cls))))) content
            = List.filter (fun item => negb (is_protected s cls (fst item)))
                          content) as Hfilter.
  { intros content. apply filter_ext. intros [k v]. simpl.
    unfold is_protected. destruct (String.prefix "_" k) eqn:Hk; simpl.
    - by rewrite existsb_filter_prefix.
    - apply negb_true_iff.
      induction (map fst (data_members s cls)) as [|m l IH]; simpl; [done|].
      destruct (String.prefix "_" m) eqn:Hm; simpl; [|done].
      rewrite IH. destruct (String.eqb_spec k m) as [->|]; [congruence|done]. }
  rewrite Hfilter.
  destruct (unannotated_members s cls) eqn:Hmissing; intros [= <-]; simpl.
  - rewrite Nat.eqb_refl, app_nil_r. split_and!; try done.
    intros a' Hne. by destruct (Nat.eqb_spec a' (k_annotations (st_class s cls))).
  - rewrite Nat.eqb_refl. split_and!; try done.
    intros a' Hne. by destruct (Nat.eqb_spec a' (k_annotations (st_class s cls))).
Qed.

(** X11: a successful call of [_get_field_annotations] returns the dict of the
    class, from which it has removed the entries of the protected members
    and nothing else, warns once when there are members that are neither
    protected nor annotated, naming them in the order of
    [inspect.getmembers], and touches no other dict. *)
Theorem _get_field_annotations_returns cls s a s' :
  NoDup (keys (st_annotations s (k_annotations (st_class s cls)))) →
  _get_field_annotations cls s = (inr a, s') →
  a = k_annotations (st_class s cls)
  ∧ st_annotations s' a
    = List.filter (fun item => negb (is_protected s cls (fst item)))
                  (st_annotations s a)
  ∧ st_warnings s'
    = st_warnings s ++ match unannotated_members s cls with
                       | [] => []
                       | missing => [missing]
                       end
  ∧ ∀ a', a' ≠ a → st_annotations s' a' = st_annotations s a'.
Proof. apply _get_field_annotations_scan. Qed.

Lemma _get_field_annotations_total cls s :
  st_annotations s (k_annotations (st_class s cls)) ≠ [] →
  ∃ s', _get_field_annotations cls s
        = (inr (k_annotations (st_class s cls)), s').
Proof.
  intros Hne. unfold_collector.
  destruct (st_annotations s (k_annotations (st_class s cls))) eqn:E;
    [done|]. simpl.
  destruct (scan_members _ _) as [content' missing].
  destruct missing; eauto.
Qed.

Lemma filter_filter_same {A} (f : A → bool) (l : list A) :
  List.filter f (List.filter f l) = List.filter f l.
Proof.
  induction l as [|x l IH]; simpl; [done|].
  destruct (f x) eqn:E; simpl; [by rewrite E, IH | done].
Qed.

(** X12: collecting the annotations of a class a second time: when the first
    call has emptied the dict, the second raises "<name> is not
    annotated."; otherwise it returns the same dict and removes nothing
    more. *)
Theorem _get_field_annotations_again cls s a s' :
  NoDup (keys (st_annotations s (k_annotations (st_class s cls)))) →
  _get_field_annotations cls s = (inr a, s') →
  (st_annotations s' a = []
   ∧ _get_field_annotations cls s'
     = (inl (SchemaInitError (NotAnnotated (k_name (st_class s cls)))), s'))
  ∨ (st_annotations s' a ≠ []
     ∧ ∃ s'', _get_field_annotations cls s' = (inr a, s'')
              ∧ ∀ a', st_annotations s'' a' = st_annotations s' a').
Proof.
  intros Hnd H.
  pose proof (_get_field_annotations_pops _ _ _ _ H) as Hpops.
  destruct (_get_field_annotations_scan _ _ _ _ Hnd H)
    as (-> & Hcontent & _ & _).
  assert (st_class s' = st_class s) as Hc by (by destruct Hpops).
  destruct (st_annotations s' (k_annotations (st_class s cls))) eqn:E.
  - left. split; [done|].
    pose proof (_get_field_annotations_empty cls s') as Hraise.
    rewrite (evaluated_has cls s') in Hraise
      by (by eapply _get_field_annotations_has).
    rewrite Hc in Hraise. by apply Hraise.
  - rewrite <- E in Hcontent. rewrite <- E.
    assert (st_annotations s' (k_annotations (st_class s cls)) ≠ []) as Hne
      by (by rewrite E).
    clear E. right. split; [done|].
    destruct (_get_field_annotations_total cls s') as [s'' H'].
    { by rewrite Hc. }
    rewrite Hc in H'. exists s''. split; [done|].
    assert (NoDup (keys (st_annotations s' (k_annotations (st_class s' cls)))))
      as Hnd'.
    { rewrite Hc, Hcontent. by apply NoDup_keys_filter. }
    destruct (_get_field_annotations_scan _ _ _ _ Hnd' H')
      as (_ & Hcontent' & _ & Hother).
    intros a'.
    destruct (decide (a' = k_annotations (st_class s cls))) as [->|Hne'];
      [|by apply Hother].
    rewrite Hcontent', Hcontent.
    assert (∀ name, is_protected s' cls name = is_protected s cls name)
      as Hprot.
    { intros name. unfold is_protected, data_members.
      by rewrite (pops_only_getmembers _ _ _ _ Hpops). }
    rewrite (filter_ext _ (fun item => negb (is_protected s cls (fst item))))
      by (intros item; by rewrite Hprot).
    apply filter_filter_same.
Qed.

(** ** What a compilation changes *)

Lemma filter_filter_and {A} (f g : A → bool) (l : list A) :
  List.filter f (List.filter g l) = List.filter (fun x => g x && f x) l.
Proof.
  induction l as [|x l IH]; simpl; [done|].
  destruct (g x); simpl; [|done]. destruct (f x); by rewrite IH.
Qed.

Lemma filter_all {A} (f : A → bool) (l : list A) :
  (∀ x, f x = true) → List.filter f l = l.
Proof.
  intros Hf. induction l as [|x l IH]; simpl; [done|]. by rewrite Hf, IH.
Qed.

Lemma popped_app s l1 l2 a name :
  popped s (l1 ++ l2) a name = popped s l1 a name || popped s l2 a name.
Proof. unfold popped. apply existsb_app. Qed.

(** What the collector does to the store, its annotation dicts apart:
    it warns, and it gives classes of [chain] that have none their
    [__annotations__]. *)
Definition collects (chain : list cid) (s s' : state) : Prop :=
  st_class s' = st_class s
  ∧ st_dict s' = st_dict s
  ∧ st_schemas s' = st_schemas s
  ∧ (∃ warnings, st_warnings s' = st_warnings s ++ warnings)
  ∧ (∀ c, In c (st_created s) → In c (st_created s'))
  ∧ (∀ c, In c (st_created s') →
          In c (st_created s)
          ∨ (In c chain ∧ has__annotations__ s c = false)).

Lemma collects_refl chain s : collects chain s s.
Proof.
  unfold collects. split_and!; try done; [|by left].
  exists []. by rewrite app_nil_r.
Qed.

Lemma collects_trans chain s1 s2 s3 :
  collects chain s1 s2 → collects chain s2 s3 → collects chain s1 s3.
Proof.
  intros (Hc1 & Hd1 & Hs1 & [w1 Hw1] & Hm1 & Hn1)
         (Hc2 & Hd2 & Hs2 & [w2 Hw2] & Hm2 & Hn2).
  unfold collects. split_and!.
  - by rewrite Hc2.
  - by rewrite Hd2.
  - by rewrite Hs2.
  - exists (w1 ++ w2). by rewrite Hw2, Hw1, app_assoc.
  - auto.
  - intros c Hin. destruct (Hn2 c Hin) as [Hin2|[Hchain Hhas]]; [auto|].
    right. split; [done|].
    unfold has__annotations__ in *. rewrite Hd1 in Hhas.
    apply orb_false_iff in Hhas as [Hown Hnew].
    apply orb_false_iff. split; [done|].
    apply bool_decide_eq_false. intros Hin1.
    apply bool_decide_eq_false in Hnew. apply Hnew.
    apply list_elem_of_In, Hm1. by apply list_elem_of_In.
Qed.

Lemma _get_field_annotations_collects chain cls s r s' :
  In cls chain →
  _get_field_annotations cls s = (r, s') → collects chain s s'.
Proof.
  intros Hchain H.
  pose proof (_get_field_annotations_pops _ _ _ _ H) as (Hc & Hd & Hs & _).
  pose proof (_get_field_annotations_created _ _ _ _ H) as [_ Hnew].
  assert (∃ warnings, st_warnings s' = st_warnings s ++ warnings) as Hw.
  { revert H. unfold_collector. destruct (is_empty _).
    - intros [= _ <-]. exists []. by rewrite app_nil_r.
    - simpl_evaluated. destruct (scan_members _ _) as [content' missing].
      destruct missing; intros [= _ <-]; simpl.
      + exists []. by rewrite app_nil_r.
      + by eexists. }
  unfold collects. split_and!; try done.
  - intros c Hin. rewrite Hnew. simpl.
    destruct (has__annotations__ s cls); [done|].
    apply in_or_app. by left.
  - intros c Hin. rewrite Hnew in Hin. simpl in Hin.
    destruct (has__annotations__ s cls) eqn:Hhas; [by left|].
    apply in_app_or in Hin as [Hin|[<-|[]]]; [by left|]. by right.
Qed.

Lemma _inherit_field_annotations_collects cls s r s' :
  _inherit_field_annotations cls s = (r, s') →
  collects (bases_of s cls) s s'.
Proof.
  unfold _inherit_field_annotations. unfold bind at 1. unfold read at 1.
  apply for_eachM_rel.
  - apply collects_refl.
  - apply collects_trans.
  - intros a base s0 r0 s0' Hin. unfold bind at 1.
    assert (In base (bases_of s cls)) as Hbase.
    { unfold bases_of. by apply in_rev. }
    destruct (_get_field_annotations base s0) as [[e|addr0] s1] eqn:E.
    + intros [= <- <-]. by eapply _get_field_annotations_collects.
    + unfold bind, read, ret. intros [= <- <-].
      by eapply _get_field_annotations_collects.
Qed.

(** One class more is visited: its protected entries leave its dict. *)
Lemma collect_turn_frame s x s0 a s2 visited :
  well_formed s →
  pops_only s s0 →
  (∀ a, st_annotations s0 a
        = List.filter (fun item => negb (popped s visited a (fst item)))
                      (st_annotations s a)) →
  _get_field_annotations x s0 = (inr a, s2) →
  ∀ a, st_annotations s2 a
       = List.filter
           (fun item => negb (popped s (visited ++ [x]) a (fst item)))
           (st_annotations s a).
Proof.
  intros Hwf Hpops Hframe Hget a'.
  assert (st_class s0 = st_class s) as Hc by (by destruct Hpops).
  assert (NoDup (keys (st_annotations s0 (k_annotations (st_class s0 x)))))
    as Hkeys by (by apply (pops_only_well_formed s s0)).
  destruct (_get_field_annotations_scan _ _ _ _ Hkeys Hget)
    as (-> & Hcontent & _ & Hother).
  rewrite Hc in *.
  destruct (decide (a' = k_annotations (st_class s x))) as [->|Hne].
  - rewrite Hcontent, Hframe, filter_filter_and. apply filter_ext.
    intros [name ann]. simpl. rewrite popped_app. simpl.
    rewrite Nat.eqb_refl, orb_false_r, negb_orb. simpl.
    unfold is_protected, data_members.
    by rewrite (pops_only_getmembers _ _ _ _ Hpops).
  - rewrite Hother, Hframe by done. apply filter_ext.
    intros [name ann]. simpl. rewrite popped_app. simpl.
    destruct (Nat.eqb_spec (k_annotations (st_class s x)) a');
      [congruence|].
    by rewrite orb_false_r.
Qed.

(** The loop of [_inherit_field_annotations], however it ends: the
    classes it has visited have lost their protected entries, and no
    other entry has moved. *)
Lemma collect_loop_frame (s : state) l acc s0 r s' visited :
  well_formed s →
  pops_only s s0 →
  (∀ a, st_annotations s0 a
        = List.filter (fun item => negb (popped s visited a (fst item)))
                      (st_annotations s a)) →
  for_eachM
    (fun annotations base =>
       do base_annotations <- _get_field_annotations base;
       do content <- read (fun s => st_annotations s base_annotations);
       ret (update annotations content))
    acc l s0 = (r, s') →
  ∃ seen,
    (∃ rest, l = seen ++ rest)
    ∧ (∀ v, r = inr v → seen = l)
    ∧ ∀ a, st_annotations s' a
           = List.filter
               (fun item => negb (popped s (visited ++ seen) a (fst item)))
               (st_annotations s a).
Proof.
  intros Hwf. revert acc s0 visited.
  induction l as [|x l IH]; intros acc s0 visited Hpops Hframe.
  - intros [= <- <-]. exists []. split_and!; try done; [by exists []|].
    intros a. by rewrite app_nil_r.
  - rewrite for_eachM_cons. unfold bind at 1. unfold bind at 1.
    destruct (_get_field_annotations x s0) as [[e|a] s2] eqn:E.
    + intros [= <- <-]. exists []. split_and!; try done; [by eexists|].
      intros a. rewrite app_nil_r.
      apply _get_field_annotations_inl in E as [_ ->]. apply Hframe.
    + unfold bind at 1, read at 1. unfold ret at 1. intros H.
      pose proof (_get_field_annotations_pops _ _ _ _ E) as Hstep.
      apply (IH _ _ (visited ++ [x])) in H
        as (seen & [rest ->] & Hall & Hseen).
      * exists (x :: seen). split_and!.
        -- by exists rest.
        -- intros v Hv. by rewrite (Hall v Hv) at 1.
        -- intros a'. rewrite Hseen. by rewrite <- app_assoc.
      * by eapply pops_only_trans.
      * by eapply collect_turn_frame.
Qed.

Lemma _inherit_field_annotations_frame cls s r s' :
  well_formed s →
  _inherit_field_annotations cls s = (r, s') →
  ∃ visited,
    incl visited (bases_of s cls)
    ∧ (∀ v, r = inr v → ∀ c, In c (bases_of s cls) → In c visited)
    ∧ ∀ a, st_annotations s' a
           = List.filter
               (fun item => negb (popped s visited a (fst item)))
               (st_annotations s a).
Proof.
  intros Hwf. unfold _inherit_field_annotations.
  unfold bind at 1, read at 1. intros H.
  apply (collect_loop_frame s _ _ _ _ _ [] Hwf (pops_only_refl s)) in H
    as (seen & [rest Hsplit] & Hall & Hseen).
  - exists seen. split_and!.
    + intros c Hin. unfold bases_of. apply in_rev.
      fold (getmro s cls). rewrite Hsplit. apply in_or_app. by left.
    + intros v Hv c Hin. rewrite (Hall v Hv). by apply in_rev in Hin.
    + exact Hseen.
  - intros a. symmetry. by apply filter_all.
Qed.

Section FrameTheorem.

Variable re_compile : string -> option (string -> bool).

(** The ways out of [to_schema], by what was run. *)
Lemma to_schema_runs cls s r s' :
  to_schema re_compile cls s = (r, s') →
  (s' = s
   ∧ match r with
     | inl _ => True
     | inr v => getattr s cls "__schema__" = Some v
     end)
  ∨ ∃ r1 s1,
      _inherit_field_annotations cls s = (r1, s1)
      ∧ ((∃ e, r = inl e ∧ s' = s1)
         ∨ ∃ annotations schema,
             r1 = inr annotations
             ∧ r = inr (VSchema (length (st_schemas s1)))
             ∧ s' = setattr cls "__schema__"
                            (VSchema (length (st_schemas s1)))
                            (with_schema schema s1)).
Proof.
  unfold to_schema. unfold bind at 1.
  destruct (getattr s cls "__schema__") as [cached|];
    [|intros [= <- <-]; by left].
  destruct (truthy cached); [intros [= <- <-]; by left|].
  unfold bind at 1.
  destruct (_inherit_field_annotations cls s) as [[e|annotations] s1] eqn:E.
  { intros [= <- <-]. right. exists (inl e), s1. split; [done|].
    left. by exists e. }
  right. exists (inr annotations), s1. split; [done|]. revert H.
  unfold bind at 1, read at 1. unfold bind at 1, lift at 1.
  destruct (for_each _ _ _) as [e|checks].
  { intros [= <- <-]. left. by exists e. }
  unfold bind at 1.
  destruct (_build_columns_index s1 cls checks annotations)
    as [e|[columns index]].
  { intros [= <- <-]. left. by exists e. }
  unfold bind, new_schema, write. rewrite getattr_setattr_eq.
  intros [= <- <-]. right.
  by exists annotations, {| columns := columns; index := index |}.
Qed.

(** C8, as the code has it. A call of [to_schema], whether it returns or
    raises, changes the store in these ways only. It removes from the
    annotation dicts the entries that are protected (a name that starts
    with an underscore, bound to a member that is no routine) for a
    class that it has visited and that holds the dict; the classes it
    visits are classes of the chain, and all of them when it compiles;
    every other entry stays, in its place. It may warn. It gives an
    [__annotations__] to classes of the chain that had none in their
    [__dict__]. When it compiles, it creates one schema object and binds
    it to the [__schema__] of the class. No other entry of a class
    [__dict__] changes, nor a class name or an MRO, nor a schema object
    that exists; when it raises, no entry of a [__dict__] is bound and no
    schema object is created. *)
Theorem to_schema_frame cls s r s' :
  well_formed s →
  to_schema re_compile cls s = (r, s') →
  ∃ visited,
    incl visited (bases_of s cls)
    ∧ (∀ a, st_annotations s' a
            = List.filter
                (fun item => negb (popped s visited a (fst item)))
                (st_annotations s a))
    ∧ st_class s' = st_class s
    ∧ (∀ c name, (c, name) ≠ (cls, "__schema__") →
                 st_dict s' c !! name = st_dict s c !! name)
    ∧ (∃ warnings, st_warnings s' = st_warnings s ++ warnings)
    ∧ (∀ c, In c (st_created s') →
            In c (st_created s)
            ∨ (In c (bases_of s cls) ∧ has__annotations__ s c = false))
    ∧ match r with
      | inl _ => st_dict s' = st_dict s ∧ st_schemas s' = st_schemas s
      | inr v =>
          (s' = s ∧ getattr s cls "__schema__" = Some v)
          ∨ ((∀ c, In c (bases_of s cls) → In c visited)
             ∧ v = VSchema (length (st_schemas s))
             ∧ st_dict s' cls !! "__schema__" = Some v
             ∧ ∃ schema, st_schemas s' = st_schemas s ++ [schema])
      end.
Proof.
  intros Hwf H. apply to_schema_runs in H as [[-> Hr]|H].
  { exists []. split_and!.
    - intros c [].
    - intros a. symmetry. by apply filter_all.
    - done.
    - done.
    - exists []. by rewrite app_nil_r.
    - intros c Hin. by left.
    - destruct r; [done | by left]. }
  destruct H as (r1 & s1 & Hinh & H).
  destruct (_inherit_field_annotations_frame _ _ _ _ Hwf Hinh)
    as (visited & Hincl & Hall & Hframe).
  destruct (_inherit_field_annotations_collects _ _ _ _ Hinh)
    as (Hc & Hd & Hs & Hw & _ & Hnew).
  exists visited.
  destruct H as [(e & -> & ->)|(annotations & schema & -> & -> & ->)].
  - split_and!; try done. intros c name _. by rewrite Hd.
  - split_and!; try done.
    + intros c name Hne. simpl.
      destruct (Nat.eqb_spec c cls) as [->|]; [|by rewrite Hd].
      rewrite lookup_insert_ne by congruence. by rewrite Hd.
    + right. split_and!.
      * by apply (Hall annotations).
      * by rewrite Hs.
      * simpl. rewrite Nat.eqb_refl. apply lookup_insert_eq.
      * exists schema. unfold with_schema, new_schema. simpl. by rewrite Hs.
Qed.

End FrameTheorem.

(** ** The field constructor, with constraints *)

Section FieldFacts.

Variable a : FieldArgs.

Definition check_kwargs_of : list (string * pyobj) :=
  [ ("ignore_na", PyBool (arg_ignore_na a));
    ("raise_warning", PyBool (arg_raise_warning a));
    ("n_failure_cases", PyInt (arg_n_failure_cases a)) ].

(** One turn of the loop of [Field]. *)
Definition Field_turn (checks : list Check)
    (entry : string * check_factory) : result (list Check) :=
  let '(arg_name, check_constructor) := entry in
  match args_lookup a arg_name with
  | None => inr checks
  | Some arg_value =>
      try check <-
        (if String.eqb arg_name "in_range" || String.eqb arg_name "str_length"
         then call_with_dict check_constructor arg_value check_kwargs_of
         else inr (FactoryCheck check_constructor [arg_value]
                                check_kwargs_of));
      inr (checks ++ [check])
  end.

Lemma Field_unfold :
  Field a
  = rbind (for_each Field_turn [] _check_dispatch)
      (fun checks =>
         inr (FieldInfo__init__
                (match checks with [] => NoChecks | _ => Checks checks end)
                (arg_nullable a) (arg_allow_duplicates a) (arg_coerce a)
                (arg_regex a))).
Proof. reflexivity. Qed.

Lemma call_with_dict_inr check_constructor arg_value check :
  call_with_dict check_constructor arg_value check_kwargs_of = inr check →
  made_by check = Some check_constructor
  ∧ ∃ items, kwargs_of check = items ++ check_kwargs_of.
Proof.
  unfold call_with_dict. destruct arg_value as [| | | |items]; try discriminate.
  destruct (existsb _ _); [discriminate|]. intros [= <-]. simpl. eauto.
Qed.

Lemma Field_turn_inr checks entry checks' :
  Field_turn checks entry = inr checks' →
  (args_lookup a (fst entry) = None ∧ checks' = checks)
  ∨ (is_Some (args_lookup a (fst entry))
     ∧ ∃ check, checks' = checks ++ [check]
                ∧ made_by check = Some (snd entry)
                ∧ ∃ items, kwargs_of check = items ++ check_kwargs_of).
Proof.
  destruct entry as [arg_name check_constructor]. unfold Field_turn. simpl.
  destruct (args_lookup a arg_name) as [arg_value|]; [|intros [= <-]; by left].
  destruct (String.eqb arg_name "in_range" || String.eqb arg_name "str_length").
  - destruct (call_with_dict _ _ _) as [e|check] eqn:E; [discriminate|].
    cbn [rbind]. intros [= <-]. right. split; [by eexists|].
    apply call_with_dict_inr in E as [? ?]. eauto.
  - cbn [rbind]. intros [= <-]. right. split; [by eexists|].
    eexists. split_and!; try done. by exists [].
Qed.

Lemma Field_loop_inr l checks checks' :
  for_each Field_turn checks l = inr checks' →
  map made_by checks'
  = map made_by checks
    ++ map (fun entry => Some (snd entry))
         (List.filter (fun entry => match args_lookup a (fst entry) with
                                    | Some _ => true
                                    | None => false
                                    end) l)
  ∧ (Forall (fun c => ∃ items, kwargs_of c = items ++ check_kwargs_of) checks
     → Forall (fun c => ∃ items, kwargs_of c = items ++ check_kwargs_of)
              checks').
Proof.
  revert checks. induction l as [|entry l IH]; intros checks.
  - intros [= <-]. simpl. by rewrite app_nil_r.
  - rewrite for_each_cons.
    destruct (Field_turn checks entry) as [e|checks1] eqn:E; [discriminate|].
    cbn [rbind]. intros Hrest. apply IH in Hrest as [Hmade Hall].
    apply Field_turn_inr in E
      as [[Hnone ->]|[[v Hv] (check & -> & Hc & Hk)]]; simpl.
    + by rewrite Hnone.
    + rewrite Hv. split.
      * rewrite Hmade, map_app. simpl. rewrite Hc. by rewrite <- app_assoc.
      * intros Hchecks. apply Hall. apply Forall_app. split; [done|].
        by constructor.
Qed.

(** X13: when [Field] returns, the descriptor has the four policy flags of the
    call, one check for each constraint that is not [None], made by the
    factory of the dispatch table and in the order of that table, and
    every check was given the three check options as keywords. *)
Theorem Field_checks f :
  Field a = inr f →
  fi_nullable f = arg_nullable a
  ∧ fi_allow_duplicates f = arg_allow_duplicates a
  ∧ fi_coerce f = arg_coerce a
  ∧ fi_regex f = arg_regex a
  ∧ map made_by (fi_checks f)
    = map (fun entry => Some (snd entry)) (supplied a)
  ∧ Forall (fun c => ∃ items, kwargs_of c = items ++ check_kwargs_of)
           (fi_checks f).
Proof.
  rewrite Field_unfold.
  destruct (for_each Field_turn [] _check_dispatch) as [e|checks] eqn:E;
    [discriminate|].
  cbn [rbind]. intros [= <-]. apply Field_loop_inr in E as [Hmade Hall].
  assert (fi_checks
            (FieldInfo__init__
               (match checks with [] => NoChecks | _ => Checks checks end)
               (arg_nullable a) (arg_allow_duplicates a) (arg_coerce a)
               (arg_regex a)) = checks) as Hchecks by (by destruct checks).
  rewrite Hchecks. split_and!; try done. apply Hall. constructor.
Qed.

Lemma mem_check_kwargs k :
  mem k check_kwargs_of
  = existsb (String.eqb k) ["ignore_na"; "raise_warning"; "n_failure_cases"].
Proof.
  unfold mem, check_kwargs_of. simpl.
  by destruct (String.eqb k "ignore_na"), (String.eqb k "raise_warning"),
    (String.eqb k "n_failure_cases").
Qed.

Lemma call_with_dict_unpackable check_constructor arg_value :
  match call_with_dict check_constructor arg_value check_kwargs_of with
  | inr _ => unpackable (Some arg_value) = true
  | inl e => e = TypeError ∧ unpackable (Some arg_value) = false
  end.
Proof.
  unfold call_with_dict, unpackable.
  destruct arg_value as [| | | |items]; try done.
  assert (existsb (fun k => mem k check_kwargs_of) (keys items)
          = existsb
              (fun k => existsb (String.eqb k)
                          ["ignore_na"; "raise_warning"; "n_failure_cases"])
              (keys items)) as ->.
  { induction (keys items) as [|k l IH]; [done|].
    cbn [existsb]. by rewrite IH, mem_check_kwargs. }
  by destruct (existsb _ (keys items)).
Qed.

(** X14: [Field] returns exactly when [in_range] and [str_length] can be
    unpacked, and otherwise raises TypeError: no other argument can make it
    raise. The check factories are opaque: a call of one that is well
    formed is taken to return. *)
Theorem Field_raises :
  match Field a with
  | inr _ =>
      unpackable (arg_in_range a) = true
      ∧ unpackable (arg_str_length a) = true
  | inl e =>
      e = TypeError
      ∧ (unpackable (arg_in_range a) = false
         ∨ unpackable (arg_str_length a) = false)
  end.
Proof.
  assert (∀ checks entry,
            match Field_turn checks entry with
            | inr _ =>
                (fst entry = "in_range" → unpackable (arg_in_range a) = true)
                ∧ (fst entry = "str_length" →
                   unpackable (arg_str_length a) = true)
            | inl e =>
                e = TypeError
                ∧ ((fst entry = "in_range"
                    ∧ unpackable (arg_in_range a) = false)
                   ∨ (fst entry = "str_length"
                      ∧ unpackable (arg_str_length a) = false))
            end) as Hturn.
  { intros checks [arg_name check_constructor]. unfold Field_turn. simpl.
    destruct (String.eqb_spec arg_name "in_range") as [->|Hr].
    - simpl. change (args_lookup a "in_range") with (arg_in_range a).
      destruct (arg_in_range a) as [v|]; [|by split].
      pose proof (call_with_dict_unpackable check_constructor v) as H.
      destruct (call_with_dict _ _ _); cbn [rbind].
      + destruct H. split; [done|]. by left.
      + split; [done | discriminate].
    - destruct (String.eqb_spec arg_name "str_length") as [->|Hl].
      + simpl. change (args_lookup a "str_length") with (arg_str_length a).
        destruct (arg_str_length a) as [v|]; [|by split].
        pose proof (call_with_dict_unpackable check_constructor v) as H.
        destruct (call_with_dict _ _ _); cbn [rbind].
        * destruct H. split; [done|]. by right.
        * split; [discriminate | done].
      + simpl. destruct (args_lookup a arg_name); cbn [rbind];
          split; intros; congruence. }
  rewrite Field_unfold.
  destruct (for_each Field_turn [] _check_dispatch) as [e|checks] eqn:E;
    cbn [rbind].
  - apply for_each_inl in E as (checks & entry & _ & E).
    specialize (Hturn checks entry). rewrite E in Hturn.
    destruct Hturn as [-> [[_ ?]|[_ ?]]]; split; auto.
  - assert (∀ entry, In entry _check_dispatch →
              (fst entry = "in_range" → unpackable (arg_in_range a) = true)
              ∧ (fst entry = "str_length" →
                 unpackable (arg_str_length a) = true)) as Hall.
    { revert E. generalize (@nil Check) as acc.
      induction _check_dispatch as [|entry l IH]; intros acc E entry' Hin;
        [destruct Hin|].
      rewrite for_each_cons in E.
      pose proof (Hturn acc entry) as Hentry.
      destruct (Field_turn acc entry) as [e|acc']; [discriminate|].
      cbn [rbind] in E. destruct Hin as [<-|Hin]; [done|].
      by apply (IH acc'). }
    split.
    + apply (Hall ("in_range", in_range)); [|done].
      unfold _check_dispatch. simpl. tauto.
    + apply (Hall ("str_length", str_length)); [|done].
      unfold _check_dispatch. simpl. tauto.
Qed.

End FieldFacts.

(** ** The order of the inherited fields *)

(** The field names of a class: the keys of its annotations, without the
    protected ones. *)
Definition field_names (s : state) (c : cid) : list string :=
  keys (List.filter (fun item => negb (is_protected s c (fst item)))
          (st_annotations s (k_annotations (st_class s c)))).

(** The names of [acc], followed by the new ones of [names]. *)
Definition merge_names (acc names : list string) : list string :=
  acc ++ List.filter (fun k => negb (existsb (String.eqb k) acc)) names.

Lemma keys_update {V} (d other : dict V) :
  NoDup (keys other) →
  keys (update d other) = merge_names (keys d) (keys other).
Proof.
  unfold update, merge_names. revert d.
  induction other as [|[k v] other IH]; intros d Hnd; simpl.
  - by rewrite app_nil_r.
  - apply NoDup_cons in Hnd as [Hk Hnd]. rewrite IH by done.
    rewrite keys_set. destruct (mem k d) eqn:Hmem.
    + assert (existsb (String.eqb k) (keys d) = true) as ->; [|done].
      apply existsb_exists. exists k. split; [|apply String.eqb_refl].
      by apply mem_In_keys.
    + assert (existsb (String.eqb k) (keys d) = false) as ->.
      { apply not_true_is_false. intros H.
        apply existsb_exists in H as (k' & Hin & Heq).
        apply String.eqb_eq in Heq as <-.
        apply mem_In_keys in Hin. congruence. }
      simpl. rewrite <- app_assoc. simpl. do 2 f_equal.
      apply filter_ext_in. intros k' Hk'. rewrite existsb_app. simpl.
      destruct (String.eqb_spec k' k) as [->|]; [|by rewrite !orb_false_r].
      exfalso. apply Hk. by apply list_elem_of_In.
Qed.

(** The loop of [_inherit_field_annotations], by keys. *)
Lemma collect_loop_keys (s : state) l acc s0 r s' :
  well_formed s →
  pops_only s s0 →
  NoDup (map (fun c => k_annotations (st_class s c)) l) →
  (∀ c, In c l →
        st_annotations s0 (k_annotations (st_class s c))
        = st_annotations s (k_annotations (st_class s c))) →
  for_eachM
    (fun annotations base =>
       do base_annotations <- _get_field_annotations base;
       do content <- read (fun s => st_annotations s base_annotations);
       ret (update annotations content))
    acc l s0 = (inr r, s') →
  keys r = fold_left merge_names (map (field_names s) l) (keys acc).
Proof.
  intros Hwf. revert acc s0.
  induction l as [|x l IH]; intros acc s0 Hpops Hnd Hsame.
  - by intros [= <- <-].
  - rewrite for_eachM_cons. intros H. step H as acc' s1 Hturn.
    step Hturn as a s2 Hget. step Hturn as content s3 Hread.
    injection Hread as <- <-. injection Hturn as <- <-.
    simpl in Hnd. inversion Hnd as [|? ? Hx Hnd']; subst.
    pose proof (_get_field_annotations_pops _ _ _ _ Hget) as Hstep.
    assert (st_class s0 = st_class s) as Hc by (by destruct Hpops).
    assert (NoDup (keys (st_annotations s0
                           (k_annotations (st_class s0 x))))) as Hkeys
      by (by apply (pops_only_well_formed s s0)).
    destruct (_get_field_annotations_scan _ _ _ _ Hkeys Hget)
      as (-> & Hcontent & _ & Hother).
    rewrite Hc in *.
    assert (st_annotations s2 (k_annotations (st_class s x))
            = List.filter (fun item => negb (is_protected s x (fst item)))
                (st_annotations s (k_annotations (st_class s x)))) as Hx'.
    { rewrite Hcontent, Hsame by (by left). apply filter_ext.
      intros item. unfold is_protected, data_members.
      by rewrite (pops_only_getmembers _ _ _ _ Hpops). }
    apply (IH _ s2) in H; try done.
    + rewrite H. simpl. f_equal. rewrite keys_update.
      * unfold field_names. by rewrite Hx'.
      * rewrite Hx'. apply NoDup_keys_filter. apply Hwf.
    + by eapply pops_only_trans.
    + intros c Hin. rewrite Hother; [apply Hsame; by right|].
      intros Heq. apply Hx. rewrite <- Heq.
      apply list_elem_of_In.
      exact (in_map (fun c => k_annotations (st_class s c)) _ _ Hin).
Qed.

(** X17: the fields of a model come in the order of the classes, from the
    least derived class of the chain to the class itself, each class
    adding the names that no class before it has, in the order of its
    annotations; a field that a subclass annotates again keeps the place
    it has in the base class. The classes of the chain are taken to hold
    their own [__annotations__] dict each. *)
Theorem inherited_fields_order cls s annotations s' :
  well_formed s →
  NoDup (map (fun c => k_annotations (st_class s c)) (bases_of s cls)) →
  _inherit_field_annotations cls s = (inr annotations, s') →
  keys annotations
  = fold_left merge_names (map (field_names s) (rev (bases_of s cls))) [].
Proof.
  intros Hwf Hnd. unfold _inherit_field_annotations.
  unfold bind at 1, read at 1. intros H.
  apply (collect_loop_keys s _ _ _ _ _ Hwf (pops_only_refl s)) in H;
    try done.
  apply NoDup_ListNoDup. rewrite map_rev. apply NoDup_rev.
  by apply NoDup_ListNoDup.
Qed.

(** ** When a compilation returns *)

(** An annotation that [_build_columns_index] makes a column or an index
    of: [Series[...]], [Optional[Series[...]]] or [Index[...]]. *)
Definition valid_annotation (a : annotation) : bool :=
  match a with
  | TGeneric OSeries (_ :: _) => true
  | TGeneric OIndex (_ :: _) => true
  | TOptional (TGeneric OSeries (_ :: _)) => true
  | _ => false
  end.

(** A class with an annotation that [_get_field_annotations] never
    removes. *)
Definition has_field (s : state) (c : cid) : Prop :=
  ∃ name, String.prefix "_" name = false
          ∧ is_Some (get name
                       (st_annotations s (k_annotations (st_class s c)))).

Lemma build_field_returns s cls checks acc name ann :
  valid_annotation ann = true →
  acceptable_attribute s cls name = true →
  ∃ acc', build_field s cls checks acc (name, ann) = inr acc'.
Proof.
  intros Hann Hok. destruct acc as [cols idxs].
  unfold acceptable_attribute in Hok. unfold build_field.
  destruct (getattr s cls name) as [[| | | | |c []]|];
    cbn in Hok; try discriminate Hok;
    (destruct ann as [| | |[| |o] [|arg args]|[| | |[| |o] [|arg args]|inner]];
     try discriminate Hann);
    destruct arg; cbn; eauto.
Qed.

Lemma collect_loop_returns (s : state) l acc s0 :
  pops_only s s0 →
  (∀ c, In c l → has_field s c) →
  ∃ r s',
    for_eachM
      (fun annotations base =>
         do base_annotations <- _get_field_annotations base;
         do content <- read (fun s => st_annotations s base_annotations);
         ret (update annotations content))
      acc l s0 = (inr r, s').
Proof.
  revert acc s0. induction l as [|x l IH]; intros acc s0 Hpops Hall.
  - by exists acc, s0.
  - rewrite for_eachM_cons.
    destruct (_get_field_annotations_total x s0) as [s2 Hget].
    { destruct (Hall x) as (name & Hname & Hsome); [by left|].
      destruct Hpops as (Hc & _ & _ & Ha). rewrite Hc.
      destruct (Ha (k_annotations (st_class s x))) as [_ Hkeep].
      rewrite <- (Hkeep name Hname) in Hsome. intros Hnil.
      rewrite Hnil in Hsome. by destruct Hsome. }
    pose proof (_get_field_annotations_pops _ _ _ _ Hget) as Hstep.
    rewrite (bind_run _ _ _ _ _
               (bind_run _ _ _ _ _ Hget : _ = (inr _, s2))).
    apply IH.
    + by eapply pops_only_trans.
    + intros c Hin. apply Hall. by right.
Qed.

(** X18: the collector returns as soon as every class of the chain annotates
    some name that does not start with an underscore. *)
Theorem _inherit_field_annotations_returns cls s :
  (∀ c, In c (bases_of s cls) → has_field s c) →
  ∃ annotations s',
    _inherit_field_annotations cls s = (inr annotations, s').
Proof.
  intros Hall. unfold _inherit_field_annotations.
  unfold bind at 1, read at 1.
  apply (collect_loop_returns s); [apply pops_only_refl|].
  intros c Hin. apply Hall. unfold bases_of. by apply in_rev.
Qed.

Section ReturnFacts.

Variable re_compile : string -> option (string -> bool).

(** X19: a compilation returns a new schema whenever the class has nothing
    true under [__schema__], the collector returns, every collected
    annotation is a Series, an Optional Series or an Index next to an
    attribute that is absent, false or a descriptor, every pattern of a
    regex validator compiles and every name of a literal validator is a
    collected field. The constructors of the schema and of its components
    are opaque: they are taken to return. *)
Theorem to_schema_returns cls s cached annotations s1 :
  getattr s cls "__schema__" = Some cached →
  truthy cached = false →
  _inherit_field_annotations cls s = (inr annotations, s1) →
  Forall (fun item => valid_annotation (snd item) = true
                      ∧ acceptable_attribute s cls (fst item) = true)
         annotations →
  (∀ member fn fv,
     In (member, fn) (getmembers s cls isfunction) →
     field_validator_of fn = Some fv →
     if vc_regex fv
     then ∀ regex, regex ∈ vc_fields fv → is_Some (re_compile regex)
     else ∀ f, f ∈ vc_fields fv → f ∈ keys annotations) →
  ∃ s', to_schema re_compile cls s
        = (inr (VSchema (length (st_schemas s))), s').
Proof.
  intros Hc Ht Hinh Hann Hval.
  pose proof (_inherit_field_annotations_pops _ _ _ _ Hinh) as Hpops.
  destruct (for_each_returns
              (fun checks '(_, fn) =>
                 _update_checks re_compile checks fn (keys annotations))
              ∅ (getmembers s1 cls isfunction)) as [checks Hchk].
  { intros a [member fn] Hin. apply _update_checks_returns.
    intros fv. apply (Hval member).
    by rewrite <- (pops_only_getmembers _ _ _ _ Hpops). }
  destruct (for_each_returns (build_field s1 cls checks) ([], [])
              annotations) as [[cols idxs] Hbuild].
  { intros a [name ann] Hin. rewrite Forall_forall in Hann.
    destruct (Hann (name, ann)) as [Hvalid Hok];
      [by apply list_elem_of_In|].
    apply build_field_returns; [done|].
    unfold acceptable_attribute in *.
    by rewrite (pops_only_getattr _ _ _ _ Hpops). }
  assert (compiles re_compile cls s annotations s1 checks
            {| columns := cols; index := _build_schema_index idxs |})
    as Hcomp.
  { split_and!; try done; [by exists cached|].
    unfold _build_columns_index. by rewrite Hbuild. }
  rewrite (compiles_to_schema _ _ _ _ _ _ _ Hcomp).
  destruct Hpops as (_ & _ & -> & _). by eexists.
Qed.

End ReturnFacts.

(** ** The further properties at the examples *)

Module FurtherWitnesses.

Import Examples.

Ltac evaluate :=
  first [ apply Witnesses.run_eq; vm_compute; reflexivity
        | vm_compute; reflexivity ].

Local Abbreviation compile := (to_schema MiniRe.compile).

Lemma to_schema_raise_caches_nothing_witness :
  st_dict (snd (compile Schema unknown_field)) = st_dict unknown_field
  ∧ st_schemas (snd (compile Schema unknown_field))
    = st_schemas unknown_field
  ∧ ∀ c name, name ≠ "__annotations__" →
              getattr (snd (compile Schema unknown_field)) c name
              = getattr unknown_field c name.
Proof.
  apply (to_schema_raise_caches_nothing MiniRe.compile Schema unknown_field
           (SchemaInitError (NonExistingField "check_b" "b"))).
  evaluate.
Defined.

Lemma to_schema_new_object_witness :
  VSchema 0 = VSchema (length (st_schemas two_columns))
  ∧ st_schemas two_columns !! length (st_schemas two_columns) = None
  ∧ length (st_schemas (snd (compile Schema two_columns)))
    = S (length (st_schemas two_columns)).
Proof.
  destruct (to_schema_new_object MiniRe.compile Schema two_columns
              (inr (VSchema 0)) (snd (compile Schema two_columns)))
    as [_ H].
  - evaluate.
  - apply (H VNone (VSchema 0)); reflexivity.
Defined.

Lemma subclass_returns_cached_schema_witness :
  compile Child (snd (compile Base base_child))
  = (inr (VSchema 0), snd (compile Base base_child)).
Proof.
  apply (subclass_returns_cached_schema MiniRe.compile Base Child base_child).
  - reflexivity.
  - discriminate.
  - reflexivity.
  - evaluate.
Defined.

Lemma to_schema_columns_order_witness :
  ∃ a schema annotations s1,
    VSchema 0 = VSchema a
    ∧ st_schemas (snd (compile Schema described_fields)) !! a = Some schema
    ∧ _inherit_field_annotations Schema described_fields
      = (inr annotations, s1)
    ∧ keys (columns schema) = column_names annotations
    ∧ ∀ name col, get name (columns schema) = Some col → col_name col = name.
Proof.
  apply (to_schema_columns_order MiniRe.compile Schema described_fields
           VNone (VSchema 0) (snd (compile Schema described_fields)));
    evaluate.
Defined.

Lemma to_schema_dtype_and_flags_witness :
  ∃ a schema annotations s1 indexes,
    VSchema 0 = VSchema a
    ∧ st_schemas (snd (compile Schema described_fields)) !! a = Some schema
    ∧ _inherit_field_annotations Schema described_fields
      = (inr annotations, s1)
    ∧ index schema = _build_schema_index indexes
    ∧ (∀ name col,
         get name (columns schema) = Some col →
         ∃ ann, get name annotations = Some ann
                ∧ column_built described_fields Schema name ann col)
    ∧ Forall2 (index_built described_fields Schema) indexes
        (List.filter (fun item => is_index_kind (snd item)) annotations).
Proof.
  apply (to_schema_dtype_and_flags MiniRe.compile Schema described_fields
           VNone (VSchema 0) (snd (compile Schema described_fields)));
    evaluate.
Defined.

Lemma invalid_annotation_errors_witness :
  build_field two_columns Schema ∅ ([], []) ("a", int) = inl IndexError
  ∧ build_field two_columns Schema ∅ ([], [])
      ("a", TGeneric (OOther "List") [int])
    = inl (SchemaInitError (InvalidAnnotation "a")).
Proof.
  destruct (invalid_annotation_errors two_columns Schema ∅ ([], []) "a")
    as [Hbare Hother].
  split.
  - apply Hbare. reflexivity.
  - apply (Hother "List" int [] false). reflexivity.
Defined.

Lemma invalid_pattern_raises_witness :
  ∃ pattern,
    pattern ∈ vc_fields {| vc_fields := {["*"]}; vc_regex := true;
                           vc_check := FnCheck "check_a" [] |}
    ∧ MiniRe.compile pattern = None
    ∧ _update_checks MiniRe.compile ∅
        (VFunction (validator ["*"] true [] (plain "check_a"))) ["a"]
      = inl (ReError pattern).
Proof.
  apply (invalid_pattern_raises MiniRe.compile ∅
           (VFunction (validator ["*"] true [] (plain "check_a"))) ["a"]
           {| vc_fields := {["*"]}; vc_regex := true;
              vc_check := FnCheck "check_a" [] |} "*").
  - evaluate.
  - reflexivity.
  - simpl. by apply elem_of_singleton.
  - reflexivity.
Defined.

Lemma to_schema_declaration_error_witness :
  is_declaration_error (SchemaInitError (NonExistingField "check_b" "b"))
  = true.
Proof.
  apply (to_schema_declaration_error MiniRe.compile Schema unknown_field
           VNone (SchemaInitError (NonExistingField "check_b" "b"))
           (snd (compile Schema unknown_field))).
  - evaluate.
  - intros annotations s1 H. apply (f_equal fst) in H.
    assert (fst (_inherit_field_annotations Schema unknown_field)
            = inr [("a", Series_ int)]) as E by (vm_compute; reflexivity).
    rewrite E in H. cbn [fst] in H. injection H as <-.
    by repeat constructor.
  - intros member fn fv regex Hin. vm_compute in Hin.
    destruct Hin as [H|[H|[]]]; injection H as _ <-.
    + discriminate.
    + intros [= <-]. discriminate.
  - evaluate.
Defined.

Lemma to_schema_validator_order_witness :
  ∃ a schema annotations s1,
    VSchema 0 = VSchema a
    ∧ st_schemas (snd (compile Schema described_fields)) !! a = Some schema
    ∧ _inherit_field_annotations Schema described_fields
      = (inr annotations, s1)
    ∧ ∀ name col,
        get name (columns schema) = Some col →
        col_checks col
        = descriptor_checks described_fields Schema name
          ++ flat_map (contribution MiniRe.compile (keys annotations) name)
                      (getmembers described_fields Schema isfunction).
Proof.
  apply (to_schema_validator_order MiniRe.compile Schema described_fields
           VNone (VSchema 0) (snd (compile Schema described_fields)));
    evaluate.
Defined.

Lemma validator_stacks_once_witness :
  ∃ checks',
    _update_checks MiniRe.compile ∅
      (VFunction (validator ["a"; "a"] false [] (plain "check_a")))
      ["a"; "b"]
    = inr checks'
    ∧ ∀ name,
        validator_checks checks' name
        = validator_checks ∅ name
          ++ (if bool_decide (name ∈ ["a"; "a"])
              then [FnCheck (fn_name (plain "check_a")) []]
              else []).
Proof.
  apply (validator_stacks_once MiniRe.compile ∅ ["a"; "a"] []
           (plain "check_a") ["a"; "b"]).
  intros f Hf. apply elem_of_cons. left.
  apply elem_of_cons in Hf as [->|Hf]; [reflexivity|].
  apply elem_of_cons in Hf as [->|Hf]; [reflexivity|].
  by apply elem_of_nil in Hf.
Defined.

Lemma _get_field_annotations_returns_witness :
  2 = k_annotations (st_class protected_attribute Schema)
  ∧ st_annotations (snd (_get_field_annotations Schema protected_attribute)) 2
    = List.filter
        (fun item => negb (is_protected protected_attribute Schema (fst item)))
        (st_annotations protected_attribute 2)
  ∧ st_warnings (snd (_get_field_annotations Schema protected_attribute))
    = st_warnings protected_attribute
      ++ match unannotated_members protected_attribute Schema with
         | [] => []
         | missing => [missing]
         end
  ∧ ∀ a', a' ≠ 2 →
          st_annotations (snd (_get_field_annotations Schema
                                 protected_attribute)) a'
          = st_annotations protected_attribute a'.
Proof.
  apply (_get_field_annotations_returns Schema protected_attribute 2
           (snd (_get_field_annotations Schema protected_attribute))).
  - apply (bool_decide_unpack _). vm_compute. exact I.
  - evaluate.
Defined.

Lemma _get_field_annotations_again_witness :
  (st_annotations (snd (_get_field_annotations Schema protected_attribute)) 2
   = []
   ∧ _get_field_annotations Schema
       (snd (_get_field_annotations Schema protected_attribute))
     = (inl (SchemaInitError
               (NotAnnotated (k_name (st_class protected_attribute Schema)))),
        snd (_get_field_annotations Schema protected_attribute)))
  ∨ (st_annotations (snd (_get_field_annotations Schema protected_attribute))
       2 ≠ []
     ∧ ∃ s'',
         _get_field_annotations Schema
           (snd (_get_field_annotations Schema protected_attribute))
         = (inr 2, s'')
         ∧ ∀ a', st_annotations s'' a'
                 = st_annotations
                     (snd (_get_field_annotations Schema protected_attribute))
                     a').
Proof.
  apply (_get_field_annotations_again Schema protected_attribute 2
           (snd (_get_field_annotations Schema protected_attribute))).
  - apply (bool_decide_unpack _). vm_compute. exact I.
  - evaluate.
Defined.

Lemma Field_checks_witness :
  let a :=
    {| arg_eq := None; arg_neq := None; arg_gt := Some (PyInt 0);
       arg_ge := None; arg_lt := None; arg_le := None;
       arg_in_range := None; arg_isin := None; arg_notin := None;
       arg_str_contains := None; arg_str_endswith := None;
       arg_str_length := None; arg_str_matches := None;
       arg_str_startswith := None;
       arg_nullable := true; arg_allow_duplicates := true;
       arg_coerce := false; arg_regex := false;
       arg_ignore_na := true; arg_raise_warning := false;
       arg_n_failure_cases := 10 |} in
  fi_nullable gt_0 = arg_nullable a
  ∧ fi_allow_duplicates gt_0 = arg_allow_duplicates a
  ∧ fi_coerce gt_0 = arg_coerce a
  ∧ fi_regex gt_0 = arg_regex a
  ∧ map made_by (fi_checks gt_0)
    = map (fun entry => Some (snd entry)) (supplied a)
  ∧ Forall (fun c => ∃ items, kwargs_of c = items ++ check_kwargs_of a)
           (fi_checks gt_0).
Proof.
  intros a. apply (Field_checks a gt_0). reflexivity.
Defined.

Lemma collected_annotation_most_derived_witness :
  get "a" [("a", Series_ str)]
  = first_declared base_child (bases_of base_child Child) "a".
Proof.
  apply (collected_annotation_most_derived Child base_child
           [("a", Series_ str)]
           (snd (_inherit_field_annotations Child base_child)) "a").
  - intros [|[|[|[|a]]]]; apply (bool_decide_unpack _); vm_compute; exact I.
  - reflexivity.
  - evaluate.
Defined.

Lemma build_field_not_a_Field_witness :
  build_field truthy_attribute Schema ∅ ([], []) ("a", Series_ int)
  = inl (SchemaInitError (NotAField "a" "<class 'int'>")).
Proof.
  apply (build_field_not_a_Field truthy_attribute Schema ∅ ([], []) "a"
           OSeries int [] false (VObject "<class 'int'>" true));
    reflexivity.
Defined.

(** class Base(SchemaModel):
      a: Series[int]
      b: Series[str]
    class Child(Base):
      c: Series[float]
      a: Series[str] *)
Lemma inherited_fields_order_witness :
  let s :=
    initial
      [ {| cd_name := "Base"; cd_ancestors := [SchemaModel; object_];
           cd_body := [];
           cd_annotations := [("a", Series_ int); ("b", Series_ str)] |};
        {| cd_name := "Child"; cd_ancestors := [Base; SchemaModel; object_];
           cd_body := [];
           cd_annotations := [("c", Series_ float);
                              ("a", Series_ str)] |} ] in
  keys [("a", Series_ str); ("b", Series_ str); ("c", Series_ float)]
  = fold_left merge_names (map (field_names s) (rev (bases_of s Child))) [].
Proof.
  intros s.
  apply (inherited_fields_order Child s
           [("a", Series_ str); ("b", Series_ str); ("c", Series_ float)]
           (snd (_inherit_field_annotations Child s))).
  - intros [|[|[|[|a]]]]; apply (bool_decide_unpack _); vm_compute; exact I.
  - apply (bool_decide_unpack _). vm_compute. exact I.
  - evaluate.
Defined.

Lemma _inherit_field_annotations_returns_witness :
  ∃ annotations s',
    _inherit_field_annotations Child base_child = (inr annotations, s').
Proof.
  apply (_inherit_field_annotations_returns Child base_child).
  intros c Hin. vm_compute in Hin.
  destruct Hin as [<-|[<-|[]]]; exists "a";
    (split; [reflexivity | vm_compute; by eexists]).
Defined.

Lemma to_schema_returns_witness :
  ∃ s', compile Schema described_fields
        = (inr (VSchema (length (st_schemas described_fields))), s').
Proof.
  apply (to_schema_returns MiniRe.compile Schema described_fields VNone
           [("a", Series_ int); ("i1", Index_ int); ("i2", Index_ str)]
           (snd (_inherit_field_annotations Schema described_fields))).
  - evaluate.
  - reflexivity.
  - evaluate.
  - repeat constructor.
  - intros member fn fv Hin.
    assert (getmembers described_fields Schema isfunction
            = [("__new__", VFunction (plain "__new__"));
               ("check_all", VFunction check_all)]) as E
      by (vm_compute; reflexivity).
    rewrite E in Hin. clear E.
    destruct Hin as [H|[H|[]]]; injection H as _ <-.
    + discriminate.
    + intros [= <-]. simpl. intros regex Hr.
      apply elem_of_union in Hr as [Hr|Hr];
        [apply elem_of_singleton in Hr as ->; vm_compute; by eexists|].
      apply elem_of_union in Hr as [Hr|Hr];
        [apply elem_of_singleton in Hr as ->; vm_compute; by eexists|].
      destruct (not_elem_of_empty (C := gset string) regex Hr).
Defined.

Lemma to_schema_frame_witness :
  let frame (cls : cid) (s : state) (r : result value) :=
    ∃ visited,
      incl visited (bases_of s cls)
      ∧ (∀ a, st_annotations (snd (compile cls s)) a
              = List.filter
                  (fun item => negb (popped s visited a (fst item)))
                  (st_annotations s a))
      ∧ st_class (snd (compile cls s)) = st_class s
      ∧ (∀ c name, (c, name) ≠ (cls, "__schema__") →
                   st_dict (snd (compile cls s)) c !! name
                   = st_dict s c !! name)
      ∧ (∃ warnings,
           st_warnings (snd (compile cls s)) = st_warnings s ++ warnings)
      ∧ (∀ c, In c (st_created (snd (compile cls s))) →
              In c (st_created s)
              ∨ (In c (bases_of s cls) ∧ has__annotations__ s c = false))
      ∧ match r with
        | inl _ =>
            st_dict (snd (compile cls s)) = st_dict s
            ∧ st_schemas (snd (compile cls s)) = st_schemas s
        | inr v =>
            (snd (compile cls s) = s
             ∧ getattr s cls "__schema__" = Some v)
            ∨ ((∀ c, In c (bases_of s cls) → In c visited)
               ∧ v = VSchema (length (st_schemas s))
               ∧ st_dict (snd (compile cls s)) cls !! "__schema__" = Some v
               ∧ ∃ schema,
                   st_schemas (snd (compile cls s))
                   = st_schemas s ++ [schema])
        end in
  frame Schema protected_attribute (inr (VSchema 0))
  ∧ frame Child unannotated_child
      (inl (SchemaInitError (NotAnnotated "Child"))).
Proof.
  intros frame. split.
  - apply (to_schema_frame MiniRe.compile Schema protected_attribute
             (inr (VSchema 0)) (snd (compile Schema protected_attribute))).
    + intros [|[|[|a]]]; apply (bool_decide_unpack _); vm_compute; exact I.
    + evaluate.
  - apply (to_schema_frame MiniRe.compile Child unannotated_child
             (inl (SchemaInitError (NotAnnotated "Child")))
             (snd (compile Child unannotated_child))).
    + intros [|[|[|[|a]]]]; apply (bool_decide_unpack _); vm_compute;
        exact I.
    + evaluate.
Defined.

End FurtherWitnesses.
